(** * AGFS: guest SDK marshaling, mount router, capability gate, SQS queue backend

    A shallow embedding of the parts of the AGFS repository that its
    specification makes claims about:

    - [CppSdk]    : agfs-cpp-sdk/agfs_http.h (request builder, JSON
                    serializer, response parser, packed pointer/length
                    return value) and the HttpTestFS example plugin;
    - [RustSdk]   : the HelloFS example of the Rust SDK;
    - [MountRouter], [CapabilityGate] : the router and the capability gate
                    of the host, whose sources are not part of the tree
                    and are modelled from the specification;
    - [SQS]       : pkg/plugins/queuefs/sqs_backend.go.

    Strings are byte strings ([string], one [ascii] per byte), machine
    integers are [Z], Go maps are [gmap], the ordered [std::map] is a
    key-sorted association list. *)

From Stdlib Require Import ZArith String Ascii List Lia Bool DecimalString.
From Stdlib.Strings Require Import Byte.
From Stdlib Require Import DecimalPos DecimalZ.
From stdpp Require Import gmap strings list fin_maps.

Local Open Scope Z_scope.

(** ** Shared string helpers *)

(** The double-quote character, as a one-character string. *)
Definition dq : string := String "034"%char EmptyString.

(** [std::to_string] on integers and Go's [%d]: decimal, with a leading
    minus sign for negative numbers. *)
Definition to_string (z : Z) : string := NilZero.string_of_int (Z.to_int z).

(** [s.find(pat, pos)]: index of the first occurrence at or after [pos];
    [None] is [std::string::npos]. *)
Definition find (s pat : string) (pos : nat) : option nat := String.index pos pat s.

(** [s.substr(pos, n)]. *)
Definition substr (s : string) (pos n : nat) : string := String.substring pos n s.

(** The suffix of [s] that starts at [pos] ([s.c_str() + pos]). *)
Definition from_pos (s : string) (pos : nat) : string :=
  String.substring pos (String.length s - pos) s.

Definition code (c : ascii) : Z := Z.of_N (N_of_ascii c).

(** * The C++ guest SDK: agfs_http.h *)
Module CppSdk.

(** agfs_types.h is not part of the tree; of [agfs::Error] only the two
    constructors used by the sources are needed, and [Result<T>] is a sum. *)
Inductive Error : Type :=
| Error_not_found
| Error_other (msg : string).

Inductive Result (T : Type) : Type :=
| Ok (v : T)
| Err (e : Error).
Arguments Ok {T} v.
Arguments Err {T} e.

(** [std::map<std::string, std::string>]: iteration is in ascending key
    order, so the map is kept as an association list sorted by key. *)
Definition strmap : Type := list (string * string).

(** [m[key] = value] *)
Fixpoint strmap_set (m : strmap) (key value : string) : strmap :=
  match m with
  | [] => [(key, value)]
  | (k, v) :: rest =>
      match String.compare key k with
      | Lt => (key, value) :: (k, v) :: rest
      | Eq => (k, value) :: rest
      | Gt => (k, v) :: strmap_set rest key value
      end
  end.

(** ** HttpRequest *)

Record HttpRequest : Type := mkHttpRequest {
  method : string;
  url : string;
  headers : strmap;
  body : list byte;
  timeout : Z                    (* int, seconds *)
}.

(** [HttpRequest() = default] with the member initialisers. *)
Definition HttpRequest_default : HttpRequest :=
  {| method := "GET"; url := EmptyString; headers := []; body := []; timeout := 30 |}.

Definition with_method (req : HttpRequest) (m : string) : HttpRequest :=
  {| method := m; url := url req; headers := headers req; body := body req;
     timeout := timeout req |}.

Definition with_url (req : HttpRequest) (u : string) : HttpRequest :=
  {| method := method req; url := u; headers := headers req; body := body req;
     timeout := timeout req |}.

Definition HttpRequest_get (u : string) : HttpRequest :=
  with_url (with_method HttpRequest_default "GET") u.

Definition HttpRequest_post (u : string) : HttpRequest :=
  with_url (with_method HttpRequest_default "POST") u.

Definition HttpRequest_put (u : string) : HttpRequest :=
  with_url (with_method HttpRequest_default "PUT") u.

Definition HttpRequest_del (u : string) : HttpRequest :=
  with_url (with_method HttpRequest_default "DELETE") u.

Definition set_method (req : HttpRequest) (m : string) : HttpRequest :=
  with_method req m.

Definition add_header (req : HttpRequest) (key value : string) : HttpRequest :=
  {| method := method req; url := url req;
     headers := strmap_set (headers req) key value;
     body := body req; timeout := timeout req |}.

Definition set_body (req : HttpRequest) (data : list byte) : HttpRequest :=
  {| method := method req; url := url req; headers := headers req;
     body := data; timeout := timeout req |}.

(** [set_body(const std::string&)]: [body.assign(data.begin(), data.end())]. *)
Definition set_body_str (req : HttpRequest) (data : string) : HttpRequest :=
  set_body req (map byte_of_ascii (list_ascii_of_string data)).

Definition set_timeout (req : HttpRequest) (seconds : Z) : HttpRequest :=
  {| method := method req; url := url req; headers := headers req;
     body := body req; timeout := seconds |}.

(** The header loop of [to_json], with its [first] flag. *)
Fixpoint to_json_headers (hs : strmap) (first : bool) (json : string) : string :=
  match hs with
  | [] => json
  | (key, value) :: rest =>
      let json := if negb first then json +:+ "," else json in
      let json := json +:+ (dq +:+ key +:+ dq +:+ ":" +:+ dq +:+ value +:+ dq) in
      to_json_headers rest false json
  end.

(** The body loop of [to_json], with its index [i]. *)
Fixpoint to_json_body (bs : list byte) (i : nat) (json : string) : string :=
  match bs with
  | [] => json
  | b :: rest =>
      let json := if (0 <? i)%nat then json +:+ "," else json in
      let json := json +:+ to_string (Z.of_N (Byte.to_N b)) in
      to_json_body rest (S i) json
  end.

Definition to_json (req : HttpRequest) : string :=
  let json := "{" in
  let json := json +:+ (dq +:+ "method" +:+ dq +:+ ":" +:+ dq +:+ method req +:+ dq +:+ ",") in
  let json := json +:+ (dq +:+ "url" +:+ dq +:+ ":" +:+ dq +:+ url req +:+ dq +:+ ",") in
  let json := json +:+ (dq +:+ "headers" +:+ dq +:+ ":{") in
  let json := to_json_headers (headers req) true json in
  let json := json +:+ "}," in
  let json := json +:+ (dq +:+ "body" +:+ dq +:+ ":[") in
  let json := to_json_body (body req) 0 json in
  let json := json +:+ "]," in
  let json := json +:+ (dq +:+ "timeout" +:+ dq +:+ ":" +:+ to_string (timeout req)) in
  let json := json +:+ "}" in
  json.

(** ** HttpResponse *)

Record HttpResponse : Type := mkHttpResponse {
  status_code : Z;
  resp_headers : strmap;
  resp_body : list byte;
  error : string
}.

Definition HttpResponse_default : HttpResponse :=
  {| status_code := 0; resp_headers := []; resp_body := []; error := EmptyString |}.

Definition is_success (r : HttpResponse) : bool :=
  (200 <=? status_code r) && (status_code r <? 300).

Definition has_error (r : HttpResponse) : bool :=
  negb (String.eqb (error r) EmptyString).

Definition base64_table : list Z :=
  [ 255; 255; 255; 255; 255; 255; 255; 255; 255; 255; 255; 255; 255; 255; 255; 255;
    255; 255; 255; 255; 255; 255; 255; 255; 255; 255; 255; 255; 255; 255; 255; 255;
    255; 255; 255; 255; 255; 255; 255; 255; 255; 255; 255; 62; 255; 255; 255; 63;
    52; 53; 54; 55; 56; 57; 58; 59; 60; 61; 255; 255; 255; 0; 255; 255;
    255; 0; 1; 2; 3; 4; 5; 6; 7; 8; 9; 10; 11; 12; 13; 14;
    15; 16; 17; 18; 19; 20; 21; 22; 23; 24; 25; 255; 255; 255; 255; 255;
    255; 26; 27; 28; 29; 30; 31; 32; 33; 34; 35; 36; 37; 38; 39; 40;
    41; 42; 43; 44; 45; 46; 47; 48; 49; 50; 51; 255; 255; 255; 255; 255 ].

Definition u32 (z : Z) : Z := z mod 2 ^ 32.

(** An evaluation that the C++ standard gives no meaning (undefined
    behaviour) is [None]; the functions below that can reach one return
    an [option]. *)

(** The value of a [char] variable that holds the byte [c]: plain
    [char] is signed on the targets of the SDK (wasm32, and x86), so the
    bytes from 0x80 on are the values -128..-1. *)
Definition char_value (c : ascii) : Z :=
  if code c <? 128 then code c else code c - 256.

(** [base64_table[i]]: the table has 128 entries, and a read outside it
    is undefined. *)
Definition table_at (i : Z) : option Z :=
  if (0 <=? i) && (i <? 128) then Some (nth (Z.to_nat i) base64_table 255) else None.

(** The loop of [base64_decode]; the state is [(buf, bits, output)].
    With a signed [char] the guard [c >= 128] never holds, and a byte
    from 0x80 on makes [base64_table[c]] a read before the table. *)
Fixpoint base64_loop (input : list ascii) (buf bits : Z) (output : list byte)
  : option (list byte) :=
  match input with
  | [] => Some output
  | c :: rest =>
      if Ascii.eqb c "="%char then Some output
      else if 128 <=? char_value c then base64_loop rest buf bits output
      else
        match table_at (char_value c) with
        | None => None
        | Some v =>
            if v =? 255 then base64_loop rest buf bits output
            else
              let buf := u32 (Z.lor (Z.shiftl buf 6) v) in
              let bits := bits + 6 in
              if 8 <=? bits then
                let bits := bits - 8 in
                let output :=
                  (output ++ [byte_of_ascii
                     (ascii_of_N (Z.to_N (Z.land (Z.shiftr buf bits) 255)))])%list in
                let buf := Z.land buf (Z.shiftl 1 bits - 1) in
                base64_loop rest buf bits output
              else base64_loop rest buf bits output
        end
  end.

Definition base64_decode (input : string) : option (list byte) :=
  if String.eqb input EmptyString then Some []
  else base64_loop (list_ascii_of_string input) 0 0 [].

(** [std::atoi]: leading white space, an optional sign, then decimal
    digits up to the first other character.  [atoi_value] is the
    mathematical value of what is read; [atoi] returns it when an [int]
    of 32 bits can hold it, and is undefined otherwise (C17 7.22.1: "if
    the value of the result cannot be represented, the behavior is
    undefined"). *)
Definition isspace (c : ascii) : bool :=
  (code c =? 32) || ((9 <=? code c) && (code c <=? 13)).

Definition isdigit (c : ascii) : bool := (48 <=? code c) && (code c <=? 57).

Fixpoint atoi_digits (s : string) (acc : Z) : Z :=
  match s with
  | EmptyString => acc
  | String c rest =>
      if isdigit c then atoi_digits rest (10 * acc + (code c - 48)) else acc
  end.

Fixpoint atoi_value (s : string) : Z :=
  match s with
  | EmptyString => 0
  | String c rest =>
      if isspace c then atoi_value rest
      else if Ascii.eqb c "-"%char then - atoi_digits rest 0
      else if Ascii.eqb c "+"%char then atoi_digits rest 0
      else atoi_digits s 0
  end.

Definition INT_MIN : Z := - 2 ^ 31.
Definition INT_MAX : Z := 2 ^ 31 - 1.

Definition atoi (s : string) : option Z :=
  let v := atoi_value s in
  if (INT_MIN <=? v) && (v <=? INT_MAX) then Some v else None.

(** [while (pos < json.size() && (json[pos] == ' ' || json[pos] == ':')) pos++],
    on the suffix that starts at [pos]. *)
Fixpoint skip_space_colon (s : string) : string :=
  match s with
  | EmptyString => EmptyString
  | String c rest =>
      if Ascii.eqb c " "%char || Ascii.eqb c ":"%char then skip_space_colon rest else s
  end.

Definition with_status (r : HttpResponse) (sc : Z) : HttpResponse :=
  {| status_code := sc; resp_headers := resp_headers r; resp_body := resp_body r;
     error := error r |}.

Definition with_body (r : HttpResponse) (b : list byte) : HttpResponse :=
  {| status_code := status_code r; resp_headers := resp_headers r; resp_body := b;
     error := error r |}.

Definition with_error (r : HttpResponse) (e : string) : HttpResponse :=
  {| status_code := status_code r; resp_headers := resp_headers r;
     resp_body := resp_body r; error := e |}.

(** The three steps of [from_json]; the first two can reach undefined
    behaviour, in [std::atoi] and in [base64_decode]. *)
Definition parse_status (json : string) (resp : HttpResponse) : option HttpResponse :=
  match find json (dq +:+ "status_code" +:+ dq +:+ ":") 0 with
  | Some pos =>
      match atoi (skip_space_colon (from_pos json (pos + 14))) with
      | Some sc => Some (with_status resp sc)
      | None => None
      end
  | None => Some resp
  end.

Definition parse_body (json : string) (resp : HttpResponse) : option HttpResponse :=
  match find json (dq +:+ "body" +:+ dq +:+ ":" +:+ dq) 0 with
  | Some pos =>
      let pos := (pos + 8)%nat in
      match find json dq pos with
      | Some end_ =>
          match base64_decode (substr json pos (end_ - pos)) with
          | Some b => Some (with_body resp b)
          | None => None
          end
      | None => Some resp
      end
  | None => Some resp
  end.

Definition parse_error (json : string) (resp : HttpResponse) : HttpResponse :=
  match find json (dq +:+ "error" +:+ dq +:+ ":" +:+ dq) 0 with
  | Some pos =>
      let pos := (pos + 9)%nat in
      match find json dq pos with
      | Some end_ => with_error resp (substr json pos (end_ - pos))
      | None => resp
      end
  | None => resp
  end.

Definition from_json (json : string) : option (Result HttpResponse) :=
  let resp := HttpResponse_default in
  (* Parse status_code *)
  match parse_status json resp with
  | None => None
  | Some resp =>
      (* Parse body (base64 string) *)
      match parse_body json resp with
      | None => None
      | Some resp =>
          (* Parse error *)
          let resp := parse_error json resp in
          Some (if negb (String.eqb (error resp) EmptyString)
                then Err (Error_other (error resp))
                else Ok resp)
      end
  end.

(** ** Http: the call across the boundary *)

(** [uint32_t response_ptr = result & 0xFFFFFFFF] *)
Definition unpack_ptr (result : Z) : Z := Z.land result 4294967295.

(** [uint32_t response_size = (result >> 32) & 0xFFFFFFFF] *)
Definition unpack_size (result : Z) : Z := Z.land (Z.shiftr result 32) 4294967295.

Section Http.
(** The imported host function, which returns a [uint64_t], and the
    guest's linear memory as it is after the call: [guest_memory p n]
    is the [n] bytes at address [p]. *)
Variable host_http_request : string -> Z.
Variable guest_memory : Z -> Z -> string.

Definition request (req : HttpRequest) : option (Result HttpResponse) :=
  let request_json := to_json req in
  let result := host_http_request request_json in
  let response_ptr := unpack_ptr result in
  let response_size := unpack_size result in
  if response_ptr =? 0 then Some (Err (Error_other "HTTP request failed"))
  else
    let response_json := guest_memory response_ptr response_size in
    from_json response_json.

Definition Http_get (u : string) : option (Result HttpResponse) :=
  request (HttpRequest_get u).

Definition Http_post (u : string) (b : list byte) : option (Result HttpResponse) :=
  request (set_body (HttpRequest_post u) b).

Definition Http_post_str (u : string) (b : string) : option (Result HttpResponse) :=
  request (set_body_str (HttpRequest_post u) b).

Definition Http_put (u : string) (b : list byte) : option (Result HttpResponse) :=
  request (set_body (HttpRequest_put u) b).

Definition Http_del (u : string) : option (Result HttpResponse) :=
  request (HttpRequest_del u).
End Http.

End CppSdk.

(** * The HttpTestFS example plugin (C++) *)
Module HttpTestFS.
Import CppSdk.

(** [agfs::FileInfo], declared in the absent agfs_types.h: the fields the
    factories [FileInfo::file] and [FileInfo::dir] are called with. *)
Record FileInfo : Type := mkFileInfo {
  fi_name : string;
  fi_size : Z;
  fi_mode : Z;
  fi_is_dir : bool
}.

Definition FileInfo_file (name : string) (size mode : Z) : FileInfo :=
  {| fi_name := name; fi_size := size; fi_mode := mode; fi_is_dir := false |}.

Definition FileInfo_dir (name : string) (mode : Z) : FileInfo :=
  {| fi_name := name; fi_size := 0; fi_mode := mode; fi_is_dir := true |}.

Definition name : string := "httptestfs".

Definition stat (path : string) : Result FileInfo :=
  if String.eqb path "/" then Ok (FileInfo_dir EmptyString 493)
  else if String.eqb path "/test_get" || String.eqb path "/test_json"
  then Ok (FileInfo_file (from_pos path 1) 0 420)
  else Err Error_not_found.

Definition readdir (path : string) : Result (list FileInfo) :=
  if String.eqb path "/" then
    Ok [FileInfo_file "test_get" 0 420; FileInfo_file "test_json" 0 420]
  else Err Error_not_found.

Section Read.
Variable host_http_request : string -> Z.
Variable guest_memory : Z -> Z -> string.

(** [None] is an undefined evaluation in the SDK's response parser. *)
Definition read (path : string) (offset size : Z) : option (Result (list byte)) :=
  if String.eqb path "/test_get" then
    (* Simple GET request *)
    match Http_get host_http_request guest_memory "https://example.com" with
    | None => None
    | Some (Err e) => Some (Err e)
    | Some (Ok response) =>
        if negb (is_success response) then
          Some (Err (Error_other ("HTTP error: " +:+ to_string (status_code response))))
        else Some (Ok (resp_body response))
    end
  else if String.eqb path "/test_json" then
    (* GET request with custom headers *)
    match request host_http_request guest_memory
            (add_header
               (add_header (HttpRequest_get "https://api.github.com/users/github")
                  "User-Agent" "AGFS-WASM-Plugin")
               "Accept" "application/json") with
    | None => None
    | Some (Err e) => Some (Err e)
    | Some (Ok response) =>
        if negb (is_success response) then
          Some (Err (Error_other ("HTTP error: " +:+ to_string (status_code response))))
        else Some (Ok (resp_body response))
    end
  else Some (Err Error_not_found).
End Read.

End HttpTestFS.

(** * The HelloFS example of the Rust SDK *)
Module RustSdk.

(** The SDK's [Error] enum and [FileInfo] are not part of the tree; the
    example uses [Error::NotFound], [FileInfo::file] and [FileInfo::dir]. *)
Inductive Error : Type :=
| NotFound
| PermissionDenied
| Other (msg : string).

Inductive Result (T : Type) : Type :=
| Ok (v : T)
| Err (e : Error).
Arguments Ok {T} v.
Arguments Err {T} e.

Record FileInfo : Type := mkFileInfo {
  fi_name : string;
  fi_size : Z;
  fi_mode : Z;
  fi_is_dir : bool
}.

Definition FileInfo_file (name : string) (size mode : Z) : FileInfo :=
  {| fi_name := name; fi_size := size; fi_mode := mode; fi_is_dir := false |}.

Definition FileInfo_dir (name : string) (mode : Z) : FileInfo :=
  {| fi_name := name; fi_size := 0; fi_mode := mode; fi_is_dir := true |}.

Definition bytes_of (s : string) : list byte :=
  map byte_of_ascii (list_ascii_of_string s).

(** [b"Hello, World!\n"] *)
Definition hello_world : list byte :=
  bytes_of ("Hello, World!" +:+ String "010"%char EmptyString).

Definition HelloFS_name : string := "hellofs".

Definition HelloFS_readme : string := "A simple Hello World filesystem".

Definition HelloFS_read (path : string) (_offset _size : Z) : Result (list byte) :=
  if String.eqb path "/hello.txt" then Ok hello_world
  else Err NotFound.

Definition HelloFS_stat (path : string) : Result FileInfo :=
  if String.eqb path "/" then Ok (FileInfo_dir EmptyString 493)
  else if String.eqb path "/hello.txt" then Ok (FileInfo_file "hello.txt" 14 420)
  else Err NotFound.

Definition HelloFS_readdir (path : string) : Result (list FileInfo) :=
  if String.eqb path "/" then Ok [FileInfo_file "hello.txt" 14 420]
  else Err NotFound.

End RustSdk.

(** * The mount router *)
Module MountRouter.

(** Modelled from the spec: the generic error taxonomy (section 7); the
    router's source is not part of the tree. *)
Inductive ErrorKind : Type :=
| NotFound | AlreadyExists | PermissionDenied | IsDirectory | NotADirectory
| NotEmpty | InvalidArgument | Unsupported | Timeout | Internal | IOError.

(** Modelled from the spec: the outcome of a router or host operation, a
    value or one error kind of the taxonomy. *)
Inductive Result (T : Type) : Type :=
| Ok (v : T)
| Err (e : ErrorKind).
Arguments Ok {T} v.
Arguments Err {T} e.

Section Router.
Context {ProviderHandle Config : Type}.

(** Modelled from the spec: the data model's MountEntry,
    [{prefix, provider, config, mountedAt}]. *)
Record MountEntry : Type := mkMountEntry {
  prefix : string;
  provider : ProviderHandle;
  config : Config;
  mountedAt : Z
}.

(** Modelled from the spec: one snapshot of the mount table; Mount and
    Unmount return a new snapshot and leave the old one as it is. *)
Definition MountTable : Type := list MountEntry.

(** Modelled from the spec: "prefix match on path segments, not
    substrings": the prefix is an initial part of the path that ends
    where a segment ends, so the path stops there or goes on with '/'. *)
Definition segment_prefix (p path : string) : bool :=
  String.prefix p path &&
  match String.get (String.length p) path with
  | None => true
  | Some c => Ascii.eqb c "/"%char
  end.

(** Modelled from the spec: "prefix is already mounted exactly": some
    entry of the table has this very prefix. *)
Definition mounted (t : MountTable) (p : string) : bool :=
  existsb (fun e => String.eqb (prefix e) p) t.

(** Modelled from the spec: Mount "fails with AlreadyExists if prefix
    is already mounted exactly; otherwise registers a new snapshot";
    the provider is constructed before the new snapshot is made, and a
    constructor error aborts the mount.  The prefix stands for the
    MountId. *)
Definition Mount (t : MountTable) (now : Z) (p : string)
    (providerSpec : string -> Config -> Result ProviderHandle) (cfg : Config)
  : Result string * MountTable :=
  if mounted t p then (Err AlreadyExists, t)
  else
    match providerSpec p cfg with
    | Err e => (Err e, t)
    | Ok h =>
        (Ok p, (t ++ [{| prefix := p; provider := h; config := cfg;
                         mountedAt := now |}])%list)
    end.

(** Modelled from the spec: Unmount "fails with NotFound if no
    exact-prefix mount exists", else publishes a snapshot without the
    entry. *)
Definition Unmount (t : MountTable) (p : string) : Result unit * MountTable :=
  if mounted t p
  then (Ok tt, List.filter (fun e => negb (String.eqb (prefix e) p)) t)
  else (Err NotFound, t).

(** Modelled from the spec: "the longer registered prefix always wins":
    the longer of a matching entry and the best match so far. *)
Definition longer (e : MountEntry) (best : option MountEntry) : option MountEntry :=
  match best with
  | None => Some e
  | Some b =>
      if (String.length (prefix b) <? String.length (prefix e))%nat
      then Some e else Some b
  end.

(** Modelled from the spec: the scan of the table for "the longest
    matching prefix". *)
Fixpoint longest_match (t : MountTable) (path : string) (best : option MountEntry)
  : option MountEntry :=
  match t with
  | [] => best
  | e :: rest =>
      longest_match rest path
        (if segment_prefix (prefix e) path then longer e best else best)
  end.

(** Modelled from the spec: Resolve "returns the provider whose prefix
    is the longest prefix of path", with the prefix stripped from the
    path; "fails with NotFound if no mount matches". *)
Definition Resolve (t : MountTable) (path : string)
  : Result (ProviderHandle * string) :=
  match longest_match t path None with
  | Some e => Ok (provider e, from_pos path (String.length (prefix e)))
  | None => Err NotFound
  end.
End Router.

Arguments MountEntry : clear implicits.
Arguments MountTable : clear implicits.

End MountRouter.

(** * The capability gate of the plugin host *)
Module CapabilityGate.
Import MountRouter.

(** Modelled from the spec: the life cycle states of a PluginInstance. *)
Inductive InstanceState : Type := Loading | Ready | Draining | Unloaded.

(** Modelled from the spec: a PluginInstance,
    [{module, memory, capabilities, state}]; the capability set holds the
    names of the host services the instance may invoke, such as
    [host.fs] and [host.http]. *)
Record PluginInstance : Type := mkPluginInstance {
  module_code : list byte;
  memory : list byte;
  capabilities : gset string;
  state : InstanceState
}.

Section Gate.
Context {Request Response : Type}.

(** Modelled from the spec: the real filesystem or network call behind
    an entry point, with its outcome. *)
Variable perform : string -> Request -> Result Response.

(** Modelled from the spec: the calls that reached the real I/O, oldest
    first (what "a mock host-HTTP sink" observes). *)
Definition IOLog : Type := list (string * Request).

(** Modelled from the spec: a host service "is reachable from guest
    code only through a named entry point checked against the
    instance's CapabilitySet before any real I/O occurs. An ungranted
    call fails immediately with PermissionDenied". *)
Definition host_call (inst : PluginInstance) (entry : string) (req : Request)
    (log : IOLog) : Result Response * IOLog :=
  if decide (entry ∈ capabilities inst)
  then (perform entry req, (log ++ [(entry, req)])%list)
  else (Err PermissionDenied, log).

(** Modelled from the spec: a guest that invokes entry points one after
    the other; the gate is passed "on every invocation". *)
Fixpoint host_calls (inst : PluginInstance) (calls : list (string * Request))
    (log : IOLog) : list (Result Response) * IOLog :=
  match calls with
  | [] => ([], log)
  | (entry, req) :: rest =>
      let '(r, log1) := host_call inst entry req log in
      let '(rs, log2) := host_calls inst rest log1 in
      (r :: rs, log2)
  end.
End Gate.

End CapabilityGate.

(** * The SQS queue backend: pkg/plugins/queuefs/sqs_backend.go *)
Module SQS.

(** ** Errors *)

(** Go [error] values as the file makes and inspects them: the two SQS
    exception types it looks for, any other API error with its code, an
    error made by [fmt.Errorf] without [%w], and one that wraps another
    with [%w]. *)
Inductive error : Type :=
| QueueDoesNotExist
| QueueNameExists
| APIError (errorCode : string)
| Errorf (msg : string)
| Wrap (msg : string) (inner : error).

(** A Go result pair [(T, error)]. *)
Inductive result (T : Type) : Type :=
| Ok (v : T)
| Error (err : error).
Arguments Ok {T} v.
Arguments Error {T} err.

(** [errors.As(err, &exists)] for [*types.QueueNameExists]. *)
Fixpoint isQueueNameExists (err : error) : bool :=
  match err with
  | QueueNameExists => true
  | Wrap _ inner => isQueueNameExists inner
  | _ => false
  end.

Fixpoint isQueueDoesNotExistError (err : error) : bool :=
  match err with
  | QueueDoesNotExist => true
  | QueueNameExists => false
  | APIError errorCode =>
      String.eqb errorCode "AWS.SimpleQueueService.NonExistentQueue"
      || String.eqb errorCode "QueueDoesNotExist"
      || String.eqb errorCode "NonExistentQueue"
  | Errorf _ => false
  | Wrap _ inner => isQueueDoesNotExistError inner
  end.

(** ** Constants; [time.Duration] counts nanoseconds *)

Definition time_Millisecond : Z := 1000000.
Definition time_Second : Z := 1000 * time_Millisecond.
Definition time_Minute : Z := 60 * time_Second.

Definition sqsAttrMessageID : string := "ID".
Definition sqsAttrMessageTS : string := "Timestamp".
Definition sqsMessageTypeValue : string := "queuefs".
Definition sqsDefaultWaitSeconds : Z := 10.
Definition sqsDefaultVisibility : Z := 30.
Definition sqsDefaultMaxReceive : Z := 1.
Definition sqsDefaultQueueTimeout : Z := 15 * time_Second.
Definition sqsDeletedQueueTTL : Z := 2 * time_Minute.

(** ** Data *)

(** [time.Time] as nanoseconds since the zero time (year 1, UTC), so that
    [IsZero] is a comparison with 0. *)
Abbreviation Time := Z (only parsing).
Definition IsZero (t : Time) : bool := t =? 0.

(** [time.Unix(0, nsec)]: the Unix epoch is 62135596800 s after the zero
    time. *)
Definition time_Unix_nsec (nsec : Z) : Time := 62135596800 * time_Second + nsec.

(** [int64] wrap-around. *)
Definition int64 (z : Z) : Z := (z + 2 ^ 63) mod 2 ^ 64 - 2 ^ 63.

(** [QueueMessage] is declared elsewhere in package queuefs; the file
    uses its fields ID, Data and Timestamp. *)
Record QueueMessage : Type := mkQueueMessage {
  ID : string;
  Data : string;
  Timestamp : Time
}.

Definition QueueMessage_zero : QueueMessage :=
  {| ID := EmptyString; Data := EmptyString; Timestamp := 0 |}.

Record MessageAttributeValue : Type := mkMessageAttributeValue {
  DataType : option string;
  StringValue : option string
}.

(** [types.Message], with the fields the file reads. *)
Record Message : Type := mkMessage {
  Body : option string;
  MessageId : option string;
  ReceiptHandle : option string;
  MessageAttributes : gmap string MessageAttributeValue;
  Attributes : gmap string string
}.

Record ReceiveMessageInput : Type := mkReceiveMessageInput {
  QueueUrl : string;
  MaxNumberOfMessages : Z;
  VisibilityTimeout : Z;
  WaitTimeSeconds : Z;
  MessageAttributeNames : list string;
  MessageSystemAttributeNames : list string
}.

Record DeleteMessageBatchRequestEntry : Type := mkDeleteEntry {
  Id : string;
  EntryReceiptHandle : option string
}.

(** ** The world outside the process

    [W] is the state of everything the backend talks to: the SQS service
    and the clock.  Each AWS SDK call takes the world to a new one and
    returns its output or an error; library functions of Go that the
    file calls are part of the interface as well. *)
Class SqsApi (W : Type) : Type := {
  time_Now : W -> Time;
  sdk_CreateQueue : W -> string -> option error * W;
  sdk_DeleteQueue : W -> string -> option error * W;
  sdk_PurgeQueue : W -> string -> option error * W;
  (* output: QueueUrl, which may be nil *)
  sdk_GetQueueUrl : W -> string -> result (option string) * W;
  (* input: QueueNamePrefix, NextToken; output: QueueUrls, NextToken *)
  sdk_ListQueues :
    W -> string -> option string -> result (list string * option string) * W;
  (* output: Attributes *)
  sdk_GetQueueAttributes : W -> string -> result (gmap string string) * W;
  (* output: Messages *)
  sdk_ReceiveMessage : W -> ReceiveMessageInput -> result (list Message) * W;
  (* output: len(Failed) *)
  sdk_DeleteMessageBatch :
    W -> string -> list DeleteMessageBatchRequestEntry -> result nat * W;
  (* fmt's %q *)
  strconv_Quote : string -> string;
  (* fmt.Sscanf(s, "%d", &n) *)
  Sscanf_d : string -> result Z;
  (* time.Parse(time.RFC3339Nano, s) *)
  time_Parse_RFC3339Nano : string -> result Time;
  strings_TrimSpace : string -> string
}.

(** ** Library functions of Go *)

(** [strings.Contains(s, sub)] *)
Definition strings_Contains (s sub : string) : bool :=
  match String.index 0 sub s with Some _ => true | None => false end.

(** [strings.HasPrefix(s, prefix)] *)
Definition strings_HasPrefix (s prefix : string) : bool := String.prefix prefix s.

(** [strings.Split(s, sep)] for a separator of one byte; [cur] is the
    part being read. *)
Fixpoint split_loop (s : string) (sep : ascii) (cur : string) : list string :=
  match s with
  | EmptyString => [cur]
  | String c rest =>
      if Ascii.eqb c sep then cur :: split_loop rest sep EmptyString
      else split_loop rest sep (cur +:+ String c EmptyString)
  end.

Definition strings_Split (s : string) (sep : ascii) : list string :=
  split_loop s sep EmptyString.

(** [sort.Strings]: ascending, bytewise. *)
Fixpoint sort_insert (x : string) (l : list string) : list string :=
  match l with
  | [] => [x]
  | y :: rest => if String.leb x y then x :: y :: rest else y :: sort_insert x rest
  end.

Fixpoint sort_Strings (l : list string) : list string :=
  match l with
  | [] => []
  | x :: rest => sort_insert x (sort_Strings rest)
  end.

(** ** SQSClient *)

Record SQSClient : Type := mkSQSClient { region : string }.

Definition queueNameFromURL `{SqsApi W} (u : string) : string :=
  let u := strings_TrimSpace u in
  if String.eqb u EmptyString then EmptyString
  else
    let parts := strings_Split u "/"%char in
    if (length parts =? 0)%nat then EmptyString
    else nth (length parts - 1) parts EmptyString.

Section Client.
Context `{SqsApi W}.

Definition Client_CreateQueue (w : W) (queueName : string) : option error * W :=
  if String.eqb queueName EmptyString
  then (Some (Errorf "queue name cannot be empty"), w)
  else
    match sdk_CreateQueue w queueName with
    | (Some err, w) =>
        (* QueueNameExists is okay in idempotent create semantics. *)
        if isQueueNameExists err then (None, w) else (Some err, w)
    | (None, w) => (None, w)
    end.

Definition Client_DeleteQueue (w : W) (queueURL : string) : option error * W :=
  if String.eqb queueURL EmptyString
  then (Some (Errorf "queue URL cannot be empty"), w)
  else sdk_DeleteQueue w queueURL.

Definition Client_PurgeQueue (w : W) (queueURL : string) : option error * W :=
  if String.eqb queueURL EmptyString
  then (Some (Errorf "queue URL cannot be empty"), w)
  else sdk_PurgeQueue w queueURL.

Definition Client_GetQueueURL (w : W) (queueName : string) : result string * W :=
  if String.eqb queueName EmptyString
  then (Error (Errorf "queue name cannot be empty"), w)
  else
    match sdk_GetQueueUrl w queueName with
    | (Error err, w) => (Error err, w)
    | (Ok out, w) =>
        match out with
        | Some u =>
            if String.eqb u EmptyString
            then (Error (Errorf ("empty queue URL returned for queue "
                                   +:+ strconv_Quote queueName)), w)
            else (Ok u, w)
        | None =>
            (Error (Errorf ("empty queue URL returned for queue "
                              +:+ strconv_Quote queueName)), w)
        end
    end.

Definition Client_EnsureQueueURL (w : W) (queueName : string) : result string * W :=
  if String.eqb queueName EmptyString
  then (Error (Errorf "queue name cannot be empty"), w)
  else
    match Client_GetQueueURL w queueName with
    | (Ok u, w) => (Ok u, w)
    | (Error err, w) =>
        if negb (isQueueDoesNotExistError err) then
          (Error (Wrap ("failed to get queue URL for "
                          +:+ strconv_Quote queueName +:+ ": ") err), w)
        else
          match Client_CreateQueue w queueName with
          | (Some err, w) =>
              (Error (Wrap ("failed to create queue "
                              +:+ strconv_Quote queueName +:+ ": ") err), w)
          | (None, w) =>
              match Client_GetQueueURL w queueName with
              | (Error err, w) =>
                  (Error (Wrap ("failed to get queue URL after create for "
                                  +:+ strconv_Quote queueName +:+ ": ") err), w)
              | (Ok u, w) => (Ok u, w)
              end
          end
    end.

(** The names of one page of queue URLs, appended to [names] (the
    slice [result] of the source). *)
Fixpoint append_names (urls : list string) (names : list string) : list string :=
  match urls with
  | [] => names
  | u :: rest =>
      let name := queueNameFromURL u in
      if negb (String.eqb name EmptyString)
      then append_names rest (names ++ [name])%list
      else append_names rest names
  end.

(** The page loop of [ListQueues].  The loop ends when the service
    sends no further token; [fuel] bounds the number of pages, and
    [None] stands for a listing that has not ended within it. *)
Fixpoint ListQueues_pages (fuel : nat) (w : W) (prefix : string)
    (nextToken : option string) (names : list string)
  : option (result (list string)) * W :=
  match fuel with
  | O => (None, w)
  | S fuel =>
      match sdk_ListQueues w prefix nextToken with
      | (Error err, w) => (Some (Error err), w)
      | (Ok (urls, outToken), w) =>
          let names := append_names urls names in
          match outToken with
          | None => (Some (Ok names), w)
          | Some tok =>
              if String.eqb tok EmptyString then (Some (Ok names), w)
              else ListQueues_pages fuel w prefix outToken names
          end
      end
  end.

Definition Client_ListQueues (fuel : nat) (w : W) (prefix : string)
  : option (result (list string)) * W :=
  match ListQueues_pages fuel w prefix None [] with
  | (Some (Ok names), w) => (Some (Ok (sort_Strings names)), w)
  | (r, w) => (r, w)
  end.

Definition Client_ApproximateNumberOfMessages (w : W) (queueURL : string)
  : result Z * W :=
  if String.eqb queueURL EmptyString
  then (Error (Errorf "queue URL cannot be empty"), w)
  else
    match sdk_GetQueueAttributes w queueURL with
    | (Error err, w) => (Error err, w)
    | (Ok attrs, w) =>
        let val := default EmptyString (attrs !! "ApproximateNumberOfMessages") in
        if String.eqb val EmptyString then (Ok 0, w)
        else
          match Sscanf_d val with
          | Error scanErr =>
              (Error (Wrap ("invalid ApproximateNumberOfMessages value "
                              +:+ strconv_Quote val +:+ ": ") scanErr), w)
          | Ok n => (Ok n, w)
          end
    end.

Definition fromSQSMessage (w : W) (m : Message) : result QueueMessage :=
  let data := match Body m with None => EmptyString | Some b => b end in
  (* ID *)
  let id :=
    match MessageAttributes m !! sqsAttrMessageID with
    | Some {| StringValue := Some v |} => v
    | _ => match MessageId m with Some i => i | None => EmptyString end
    end in
  (* Timestamp *)
  let ts : Time := 0 in
  let ts :=
    match MessageAttributes m !! sqsAttrMessageTS with
    | Some {| StringValue := Some v |} =>
        match time_Parse_RFC3339Nano v with Ok t => t | Error _ => ts end
    | _ => ts
    end in
  let ts :=
    if IsZero ts then
      match Attributes m !! "SentTimestamp" with
      | Some sentTS =>
          if negb (String.eqb sentTS EmptyString) then
            match Sscanf_d sentTS with
            | Ok ms => time_Unix_nsec (int64 (ms * time_Millisecond))
            | Error _ => ts
            end
          else ts
      | None => ts
      end
    else ts in
  let ts := if IsZero ts then time_Now w else ts in
  Ok {| ID := id; Data := data; Timestamp := ts |}.

(** [for _, m := range out.Messages], with the early return on a
    conversion error. *)
Fixpoint convert_messages (w : W) (ms : list Message) (messages : list QueueMessage)
  : result (list QueueMessage) :=
  match ms with
  | [] => Ok messages
  | m :: rest =>
      match fromSQSMessage w m with
      | Error convErr => Error convErr
      | Ok qm => convert_messages w rest (messages ++ [qm])%list
      end
  end.

(** The entries of the batch delete; [i] is the index in [out.Messages]. *)
Fixpoint delete_entries (ms : list Message) (i : Z)
    (entries : list DeleteMessageBatchRequestEntry)
  : list DeleteMessageBatchRequestEntry :=
  match ms with
  | [] => entries
  | m :: rest =>
      match ReceiptHandle m with
      | None => delete_entries rest (i + 1) entries
      | Some h =>
          if String.eqb h EmptyString then delete_entries rest (i + 1) entries
          else
            delete_entries rest (i + 1)
              (entries ++ [{| Id := "d-" +:+ to_string i;
                              EntryReceiptHandle := ReceiptHandle m |}])%list
      end
  end.

(** The request that [ReceiveMessages] sends: the clamping of
    [maxMessages], the visibility timeout and the input structure. *)
Definition ReceiveMessages_input (queueURL : string) (maxMessages : Z)
    (autoDelete : bool) : ReceiveMessageInput :=
  let maxMessages := if maxMessages <? 1 then 1 else maxMessages in
  let maxMessages := if 10 <? maxMessages then 10 (* SQS max per receive *)
                     else maxMessages in
  let visibilityTimeout := sqsDefaultVisibility in
  let visibilityTimeout := if negb autoDelete then 0 else visibilityTimeout in
  {| QueueUrl := queueURL;
     MaxNumberOfMessages := maxMessages;
     VisibilityTimeout := visibilityTimeout;
     WaitTimeSeconds := sqsDefaultWaitSeconds;
     MessageAttributeNames := ["All"];
     MessageSystemAttributeNames := ["SentTimestamp"] |}.

(** What [ReceiveMessages] does with the output of the receive call. *)
Definition ReceiveMessages_output (w : W) (queueURL : string) (autoDelete : bool)
    (out : list Message) : result (list QueueMessage) * W :=
  match convert_messages w out [] with
  | Error convErr => (Error convErr, w)
  | Ok messages =>
      if autoDelete && (0 <? length out)%nat then
        let entries := delete_entries out 0 [] in
        if (0 <? length entries)%nat then
          match sdk_DeleteMessageBatch w queueURL entries with
          | (Error delErr, w) =>
              (Error (Wrap "delete received messages failed: " delErr), w)
          | (Ok failed, w) =>
              if (0 <? failed)%nat then
                (Error (Errorf ("delete received messages partially failed: "
                                  +:+ to_string (Z.of_nat failed) +:+ " failed")), w)
              else (Ok messages, w)
          end
        else (Ok messages, w)
      else (Ok messages, w)
  end.

Definition Client_ReceiveMessages (w : W) (queueURL : string) (maxMessages : Z)
    (autoDelete : bool) : result (list QueueMessage) * W :=
  if String.eqb queueURL EmptyString
  then (Error (Errorf "queue URL cannot be empty"), w)
  else
    match sdk_ReceiveMessage w (ReceiveMessages_input queueURL maxMessages autoDelete) with
    | (Error err, w) => (Error (Wrap "receive message failed: " err), w)
    | (Ok out, w) => ReceiveMessages_output w queueURL autoDelete out
    end.

Definition Client_QueueExists (w : W) (queueName : string) : result bool * W :=
  match Client_GetQueueURL w queueName with
  | (Ok _, w) => (Ok true, w)
  | (Error err, w) =>
      if isQueueDoesNotExistError err then (Ok false, w) else (Error err, w)
  end.
End Client.

(** ** SQSBackend *)

Record SQSBackend : Type := mkSQSBackend {
  sqs : option SQSClient;            (* a nil pointer is [None] *)
  backendType : string;
  cache : gmap string string;
  deleted : gmap string Time
}.

Definition NewSQSBackend : SQSBackend :=
  {| sqs := None; backendType := "sqs"; cache := ∅; deleted := ∅ |}.

Definition with_maps (b : SQSBackend) (c : gmap string string) (d : gmap string Time)
  : SQSBackend :=
  {| sqs := sqs b; backendType := backendType b; cache := c; deleted := d |}.

(** [NewSQSClient]: [region] is the value of the config key of that
    name, and [loadErr] the outcome of the SDK loading its configuration. *)
Definition NewSQSClient (region : string) (loadErr : option error) : result SQSClient :=
  if String.eqb region EmptyString
  then Error (Errorf "missing required config: region")
  else
    match loadErr with
    | Some err => Error (Wrap "failed to load aws config: " err)
    | None => Ok {| region := region |}
    end.

Definition Initialize (b : SQSBackend) (region : string) (loadErr : option error)
  : option error * SQSBackend :=
  match NewSQSClient region loadErr with
  | Error err => (Some err, b)
  | Ok client =>
      (None, {| sqs := Some client; backendType := "sqs";
                cache := cache b; deleted := deleted b |})
  end.

Definition GetType (b : SQSBackend) : string := "sqs".

Section Backend.
Context `{SqsApi W}.

Definition getQueueURL (b : SQSBackend) (w : W) (queueName : string)
    (createIfMissing : bool) : result string * SQSBackend * W :=
  if String.eqb queueName EmptyString
  then (Error (Errorf "queue name cannot be empty"), b, w)
  else if strings_Contains queueName "/"
  then (Error (Errorf ("nested queue name " +:+ strconv_Quote queueName
                         +:+ " is not supported by sqs backend")), b, w)
  else
    let cached :=
      match cache b !! queueName with
      | Some u => if negb (String.eqb u EmptyString) then Some u else None
      | None => None
      end in
    match cached with
    | Some u => (Ok u, b, w)
    | None =>
        let '(r, w) :=
          if createIfMissing then Client_EnsureQueueURL w queueName
          else Client_GetQueueURL w queueName in
        match r with
        | Error err => (Error err, b, w)
        | Ok u =>
            (Ok u,
             with_maps b (<[queueName := u]> (cache b)) (delete queueName (deleted b)),
             w)
        end
    end.

(** Dequeue removes and returns the first message: [(msg, ok)] or an
    error. *)
Definition Dequeue (b : SQSBackend) (w : W) (queueName : string)
  : result (QueueMessage * bool) * SQSBackend * W :=
  match sqs b with
  | None => (Error (Errorf "sqs backend not initialized"), b, w)
  | Some _ =>
      match getQueueURL b w queueName false with
      | (Error err, b, w) =>
          if isQueueDoesNotExistError err then (Ok (QueueMessage_zero, false), b, w)
          else (Error (Wrap "dequeue get queue url failed: " err), b, w)
      | (Ok u, b, w) =>
          match Client_ReceiveMessages w u sqsDefaultMaxReceive true with
          | (Error err, w) => (Error err, b, w)
          | (Ok [], w) => (Ok (QueueMessage_zero, false), b, w)
          | (Ok (m :: _), w) => (Ok (m, true), b, w)
          end
      end
  end.

(** Peek returns first message without deleting it. *)
Definition Peek (b : SQSBackend) (w : W) (queueName : string)
  : result (QueueMessage * bool) * SQSBackend * W :=
  match sqs b with
  | None => (Error (Errorf "sqs backend not initialized"), b, w)
  | Some _ =>
      match getQueueURL b w queueName false with
      | (Error err, b, w) =>
          if isQueueDoesNotExistError err then (Ok (QueueMessage_zero, false), b, w)
          else (Error (Wrap "peek get queue url failed: " err), b, w)
      | (Ok u, b, w) =>
          match Client_ReceiveMessages w u sqsDefaultMaxReceive false with
          | (Error err, w) => (Error err, b, w)
          | (Ok [], w) => (Ok (QueueMessage_zero, false), b, w)
          | (Ok (m :: _), w) => (Ok (m, true), b, w)
          end
      end
  end.

(** Size returns approximate queue size. *)
Definition Size (b : SQSBackend) (w : W) (queueName : string)
  : result Z * SQSBackend * W :=
  match sqs b with
  | None => (Error (Errorf "sqs backend not initialized"), b, w)
  | Some _ =>
      match getQueueURL b w queueName false with
      | (Error err, b, w) =>
          if isQueueDoesNotExistError err then (Ok 0, b, w)
          else (Error (Wrap "size get queue url failed: " err), b, w)
      | (Ok u, b, w) =>
          let '(r, w) := Client_ApproximateNumberOfMessages w u in (r, b, w)
      end
  end.

(** Clear purges all messages from a queue. *)
Definition Clear (b : SQSBackend) (w : W) (queueName : string)
  : option error * SQSBackend * W :=
  match sqs b with
  | None => (Some (Errorf "sqs backend not initialized"), b, w)
  | Some _ =>
      match getQueueURL b w queueName false with
      | (Error err, b, w) =>
          if isQueueDoesNotExistError err then (None, b, w)
          else (Some (Wrap "clear get queue url failed: " err), b, w)
      | (Ok u, b, w) =>
          let '(r, w) := Client_PurgeQueue w u in (r, b, w)
      end
  end.

(** [for _, q := range queues]: the names that are not marked deleted. *)
Fixpoint filter_listed (d : gmap string Time) (queues : list string)
    (filtered : list string) (seen : gset string) : list string * gset string :=
  match queues with
  | [] => (filtered, seen)
  | q :: rest =>
      match d !! q with
      | Some _ => filter_listed d rest filtered seen
      | None => filter_listed d rest (filtered ++ [q])%list ({[q]} ∪ seen)
      end
  end.

(** [for q := range b.cache]: the cached names that the listing lacks. *)
Fixpoint add_cached (d : gmap string Time) (prefix : string) (cached : list string)
    (filtered : list string) (seen : gset string) : list string * gset string :=
  match cached with
  | [] => (filtered, seen)
  | q :: rest =>
      match d !! q with
      | Some _ => add_cached d prefix rest filtered seen
      | None =>
          if String.eqb prefix EmptyString || strings_HasPrefix q prefix then
            if bool_decide (q ∈ seen) then add_cached d prefix rest filtered seen
            else add_cached d prefix rest (filtered ++ [q])%list ({[q]} ∪ seen)
          else add_cached d prefix rest filtered seen
      end
  end.

(** The marks that stay at time [now]: the loop deletes each entry
    with [now.After(expireAt)]. *)
Definition purge_expired (now : Time) (d : gmap string Time) : gmap string Time :=
  filter (fun kv => ¬ (kv.2 < now)) d.

(** ListQueues returns queue names filtered by prefix. *)
Definition ListQueues (fuel : nat) (b : SQSBackend) (w : W) (prefix : string)
  : option (result (list string)) * SQSBackend * W :=
  match sqs b with
  | None => (Some (Error (Errorf "sqs backend not initialized")), b, w)
  | Some _ =>
      match Client_ListQueues fuel w prefix with
      | (None, w) => (None, b, w)
      | (Some (Error err), w) => (Some (Error (Wrap "list queues failed: " err)), b, w)
      | (Some (Ok queues), w) =>
          let now := time_Now w in
          let d := purge_expired now (deleted b) in
          let '(filtered, seen) := filter_listed d queues [] ∅ in
          let '(filtered, seen) :=
            add_cached d prefix (map fst (map_to_list (cache b))) filtered seen in
          (Some (Ok (sort_Strings filtered)), with_maps b (cache b) d, w)
      end
  end.

(** GetLastEnqueueTime is not directly queryable in SQS; returns zero time. *)
Definition GetLastEnqueueTime (b : SQSBackend) (queueName : string) : result Time :=
  Ok 0.

Definition removeOneQueue (b : SQSBackend) (w : W) (queueName : string)
  : option error * SQSBackend * W :=
  match getQueueURL b w queueName false with
  | (Error err, b, w) =>
      if isQueueDoesNotExistError err then (None, b, w) else (Some err, b, w)
  | (Ok u, b, w) =>
      match Client_DeleteQueue w u with
      | (Some err, w) =>
          if isQueueDoesNotExistError err then
            (None,
             with_maps b (delete queueName (cache b))
               (<[queueName := time_Now w + sqsDeletedQueueTTL]> (deleted b)),
             w)
          else (Some err, b, w)
      | (None, w) =>
          (None,
           with_maps b (delete queueName (cache b))
             (<[queueName := time_Now w + sqsDeletedQueueTTL]> (deleted b)),
           w)
      end
  end.

(** [for _, qn := range qs]: a failure is logged and the loop goes on. *)
Fixpoint remove_each (b : SQSBackend) (w : W) (qs : list string) : SQSBackend * W :=
  match qs with
  | [] => (b, w)
  | qn :: rest =>
      let '(_, b, w) := removeOneQueue b w qn in
      remove_each b w rest
  end.

(** RemoveQueue deletes queue and nested queues. *)
Definition RemoveQueue (fuel : nat) (b : SQSBackend) (w : W) (queueName : string)
  : option (option error) * SQSBackend * W :=
  match sqs b with
  | None => (Some (Some (Errorf "sqs backend not initialized")), b, w)
  | Some _ =>
      if String.eqb queueName EmptyString then
        match Client_ListQueues fuel w EmptyString with
        | (None, w) => (None, b, w)
        | (Some (Error err), w) => (Some (Some err), b, w)
        | (Some (Ok qs), w) =>
            let '(b, w) := remove_each b w qs in (Some None, b, w)
        end
      else if strings_Contains queueName "/" then
        (Some (Some (Errorf ("nested queue name " +:+ strconv_Quote queueName
                               +:+ " is not supported by sqs backend"))), b, w)
      else
        let '(r, b, w) := removeOneQueue b w queueName in (Some r, b, w)
  end.

(** CreateQueue creates queue if it doesn't exist. *)
Definition CreateQueue (b : SQSBackend) (w : W) (queueName : string)
  : option error * SQSBackend * W :=
  match sqs b with
  | None => (Some (Errorf "sqs backend not initialized"), b, w)
  | Some _ =>
      match getQueueURL b w queueName true with
      | (Error err, b, w) => (Some err, b, w)
      | (Ok _, b, w) => (None, b, w)
      end
  end.

(** QueueExists checks queue existence. *)
Definition QueueExists (b : SQSBackend) (w : W) (queueName : string)
  : result bool * W :=
  match sqs b with
  | None => (Error (Errorf "sqs backend not initialized"), w)
  | Some _ =>
      if strings_Contains queueName "/" then
        (Error (Errorf ("nested queue name " +:+ strconv_Quote queueName
                          +:+ " is not supported by sqs backend")), w)
      else Client_QueueExists w queueName
  end.
End Backend.

End SQS.

(** * Vocabulary of the statements *)

(** ** JSON text and request builders, for the guest SDK *)
Module Envelope.
Import CppSdk.








(** *** A reader of member names

    The names of the members of an object text, read from the left as
    a JSON reader does: strings are passed over to their closing quote
    (a backslash takes the next character with it), and brackets are
    counted, so that only the names at the top level are taken.  The
    text has no white space between its tokens, as [to_json] writes it,
    and the values are not checked further. *)









(** The calls of the request builder. *)
Inductive BuilderCall : Type :=
| call_set_method (m : string)
| call_add_header (key value : string)
| call_set_body (data : list byte)
| call_set_body_str (data : string)
| call_set_timeout (seconds : Z).

Definition apply_call (req : HttpRequest) (c : BuilderCall) : HttpRequest :=
  match c with
  | call_set_method m => set_method req m
  | call_add_header key value => add_header req key value
  | call_set_body data => set_body req data
  | call_set_body_str data => set_body_str req data
  | call_set_timeout seconds => set_timeout req seconds
  end.

Definition apply_calls (req : HttpRequest) (cs : list BuilderCall) : HttpRequest :=
  fold_left apply_call cs req.


(** The ways the header makes a fresh request. *)
Definition fresh_requests (u : string) : list HttpRequest :=
  [HttpRequest_default; HttpRequest_get u; HttpRequest_post u; HttpRequest_put u;
   HttpRequest_del u].

(** Modelled from the spec: the host function that builds the "one
    combined 64-bit value that packs a 32-bit memory offset and a 32-bit
    byte length" is not part of the tree; the offset is the low half, as
    the guest's unpacking has it. *)
Definition pack (offset len : Z) : Z :=
  (Z.lor offset (Z.shiftl len 32)) mod 2 ^ 64.




End Envelope.

(** ** The read contract of the capability interface *)
Module ReadContract.

(** "[read] beyond end-of-data returns an empty result, not an error",
    for a provider of the Rust SDK given by its [stat] and [read]: the
    end of the data of a file is the size that [stat] reports. *)
Definition empty_beyond_end
    (stat : string -> RustSdk.Result RustSdk.FileInfo)
    (read : string -> Z -> Z -> RustSdk.Result (list byte)) : Prop :=
  forall (path : string) (info : RustSdk.FileInfo) (offset size : Z),
    stat path = RustSdk.Ok info ->
    RustSdk.fi_is_dir info = false ->
    RustSdk.fi_size info <= offset ->
    read path offset size = RustSdk.Ok [].

(** A host for the examples: it answers every request with the same
    response text, placed at address 1024 of the guest's memory. *)
Definition canned_response : string :=
  "{" +:+ dq +:+ "status_code" +:+ dq +:+ ":200," +:+ dq +:+ "body" +:+ dq +:+ ":"
      +:+ dq +:+ "aGVsbG8=" +:+ dq +:+ "}".

Definition canned_host (request_json : string) : Z :=
  Envelope.pack 1024 (Z.of_nat (String.length canned_response)).

Definition canned_memory (p n : Z) : string :=
  if p =? 1024 then substr canned_response 0 (Z.to_nat n) else EmptyString.

End ReadContract.

(** ** Paths under a mount prefix *)
Module RouterSpec.

(** A prefix covers a path when the path is the prefix itself or goes on
    below it: whole segments, so [/a] does not cover [/ab]. *)
Definition covers (p path : string) : Prop :=
  path = p \/ exists rest : string, path = p +:+ "/" +:+ rest.

(** The scenario tables: a mount without configuration at time 0. *)
Definition entry_at {ProviderHandle : Type} (p : string) (h : ProviderHandle)
  : MountRouter.MountEntry ProviderHandle unit :=
  MountRouter.mkMountEntry p h tt 0.

End RouterSpec.

(** ** Calls that pass the capability gate *)
Module GateSpec.

Definition granted {Request : Type} (inst : CapabilityGate.PluginInstance)
    (call : string * Request) : bool :=
  bool_decide (call.1 ∈ CapabilityGate.capabilities inst).

(** A plugin that was granted the filesystem passthrough only. *)
Definition fs_only_instance : CapabilityGate.PluginInstance :=
  {| CapabilityGate.module_code := [];
     CapabilityGate.memory := [];
     CapabilityGate.capabilities := {["host.fs"]};
     CapabilityGate.state := CapabilityGate.Ready |}.

End GateSpec.

(** ** A simulated SQS service, for the examples *)
Module SimSQS.
Import SQS.

(** The names of the queues that exist, and the clock. *)
Record World : Type := mkWorld {
  queues : list string;
  clock : Time
}.

Definition url_of (name : string) : string := "https://sqs.test/" +:+ name.

Definition has_queue (w : World) (name : string) : bool :=
  existsb (String.eqb name) (queues w).

Definition has_url (w : World) (u : string) : bool :=
  existsb (fun n => String.eqb (url_of n) u) (queues w).


#[export] Instance sim_api : SqsApi World := {|
  time_Now := clock;
  sdk_CreateQueue w name :=
    (None, if has_queue w name then w
           else {| queues := (queues w ++ [name])%list; clock := clock w |});
  sdk_DeleteQueue w u :=
    if has_url w u
    then (None, {| queues := List.filter (fun n => negb (String.eqb (url_of n) u)) (queues w);
                   clock := clock w |})
    else (Some QueueDoesNotExist, w);
  sdk_PurgeQueue w u :=
    if has_url w u then (None, w) else (Some QueueDoesNotExist, w);
  sdk_GetQueueUrl w name :=
    if has_queue w name then (Ok (Some (url_of name)), w)
    else (Error QueueDoesNotExist, w);
  sdk_ListQueues w prefix _ :=
    (Ok (map url_of (List.filter (String.prefix prefix) (queues w)), None), w);
  sdk_GetQueueAttributes w u :=
    if has_url w u then (Ok {["ApproximateNumberOfMessages" := "0"]}, w)
    else (Error QueueDoesNotExist, w);
  sdk_ReceiveMessage w input :=
    if has_url w (QueueUrl input) then (Ok [], w) else (Error QueueDoesNotExist, w);
  sdk_DeleteMessageBatch w u entries := (Ok 0%nat, w);
  strconv_Quote s := dq +:+ s +:+ dq;
  Sscanf_d s := Ok (CppSdk.atoi_value s);
  time_Parse_RFC3339Nano s := Error (Errorf "cannot parse");
  strings_TrimSpace s := s
|}.

(** An initialized backend with empty caches. *)
Definition ready : SQSBackend :=
  {| sqs := Some {| region := "us-east-1" |}; backendType := "sqs";
     cache := ∅; deleted := ∅ |}.

(** A world with the one queue [jobs], 1000 s after the zero time. *)
Definition world0 : World := {| queues := ["jobs"]; clock := 1000 * time_Second |}.



End SimSQS.

(** ** Names that a listing with a prefix admits *)
Module QueueSpec.

(** The test of the cache loop: the prefix is empty or
    [strings.HasPrefix(q, prefix)]. *)
Definition prefix_ok (prefix x : string) : bool :=
  String.eqb prefix EmptyString || SQS.strings_HasPrefix x prefix.


End QueueSpec.

(** * Vocabulary of the further properties *)

(** ** Base64 text, for the response parser *)
Module Base64Spec.
Import CppSdk.

(** The base64 alphabet of RFC 4648. *)
Definition alphabet : string :=
  "ABCDEFGHIJKLMNOPQRSTUVWXYZabcdefghijklmnopqrstuvwxyz0123456789+/".

(** The character of a 6-bit value. *)
Definition sextet_char (v : Z) : ascii :=
  match String.get (Z.to_nat v) alphabet with Some c => c | None => "A"%char end.

Definition byte_value (b : byte) : Z := Z.of_N (Byte.to_N b).

(** Standard base64 with padding, three bytes to four characters.  The
    header has no encoder: this is the encoding of RFC 4648, against
    which its decoder is stated. *)
Fixpoint encode (bs : list byte) : list ascii :=
  match bs with
  | [] => []
  | [b1] =>
      [sextet_char (byte_value b1 / 4);
       sextet_char (byte_value b1 mod 4 * 16);
       "="%char; "="%char]
  | [b1; b2] =>
      [sextet_char (byte_value b1 / 4);
       sextet_char (byte_value b1 mod 4 * 16 + byte_value b2 / 16);
       sextet_char (byte_value b2 mod 16 * 4);
       "="%char]
  | b1 :: b2 :: b3 :: rest =>
      sextet_char (byte_value b1 / 4)
      :: sextet_char (byte_value b1 mod 4 * 16 + byte_value b2 / 16)
      :: sextet_char (byte_value b2 mod 16 * 4 + byte_value b3 / 64)
      :: sextet_char (byte_value b3 mod 64)
      :: encode rest
  end.

Definition base64_encode (bs : list byte) : string :=
  string_of_list_ascii (encode bs).

(** A character of the alphabet: one of A-Z, a-z, 0-9, + and /. *)
Definition in_alphabet (c : ascii) : bool :=
  existsb (Ascii.eqb c) (list_ascii_of_string alphabet).

(** A byte below 0x80. *)
Definition is_ascii (c : ascii) : bool := code c <? 128.

(** The characters of the alphabet that come before the first '='. *)
Fixpoint payload (input : list ascii) : list ascii :=
  match input with
  | [] => []
  | c :: rest =>
      if Ascii.eqb c "="%char then []
      else if in_alphabet c then c :: payload rest else payload rest
  end.

(** No byte from 0x80 on comes before the first '='. *)
Fixpoint readable (input : list ascii) : bool :=
  match input with
  | [] => true
  | c :: rest => if Ascii.eqb c "="%char then true else is_ascii c && readable rest
  end.

(** Goals of integer division and remainder. *)
Ltac divmod := Z.div_mod_to_equations; lia.
End Base64Spec.

(** ** Lookup in the ordered header map *)
Module HeaderSpec.
Import CppSdk.

(** [m.find(key)] of the ordered map: the value under [key], if any. *)
Fixpoint strmap_get (m : strmap) (key : string) : option string :=
  match m with
  | [] => None
  | (k, v) :: rest => if String.eqb k key then Some v else strmap_get rest key
  end.

(** Every key is below all keys after it. *)
Fixpoint keys_ascending (m : strmap) : Prop :=
  match m with
  | [] => True
  | (k, _) :: rest =>
      Forall (fun kv => String.compare k kv.1 = Lt) rest /\ keys_ascending rest
  end.
End HeaderSpec.

(** ** Response texts, for the response parser *)
Module ResponseSpec.
Import CppSdk.

(** The value of a digit string read from the left, starting from [acc]. *)
Fixpoint uint_value (d : Decimal.uint) (acc : Z) : Z :=
  match d with
  | Decimal.Nil => acc
  | Decimal.D0 l => uint_value l (10 * acc + 0)
  | Decimal.D1 l => uint_value l (10 * acc + 1)
  | Decimal.D2 l => uint_value l (10 * acc + 2)
  | Decimal.D3 l => uint_value l (10 * acc + 3)
  | Decimal.D4 l => uint_value l (10 * acc + 4)
  | Decimal.D5 l => uint_value l (10 * acc + 5)
  | Decimal.D6 l => uint_value l (10 * acc + 6)
  | Decimal.D7 l => uint_value l (10 * acc + 7)
  | Decimal.D8 l => uint_value l (10 * acc + 8)
  | Decimal.D9 l => uint_value l (10 * acc + 9)
  end.

Definition starts_with_digit (s : string) : bool :=
  match s with
  | EmptyString => false
  | String c _ => isdigit c
  end.

(** The double-quote character. *)
Definition dqc : ascii := "034"%char.

(** No character of [s] is the double quote. *)
Definition quote_free (s : string) : bool :=
  forallb (fun c => negb (Ascii.eqb c dqc)) (list_ascii_of_string s).

(** A response as a host writes it: the status code in decimal and the
    body in base64. *)
Definition response_text (status : Z) (body : list byte) : string :=
  "{" +:+ dq +:+ "status_code" +:+ dq +:+ ":" +:+ to_string status +:+ ","
      +:+ dq +:+ "body" +:+ dq +:+ ":" +:+ dq +:+ Base64Spec.base64_encode body
      +:+ dq +:+ "}".

(** The parts of [response_text]: the digits of the status code, the
    body in base64, the text that opens the body and the error members,
    and what follows the opening quote of the body. *)
Definition status_digits (z : Z) : string := to_string z.

Definition body_base64 (bs : list byte) : string := Base64Spec.base64_encode bs.

Definition body_pattern : string := dq +:+ "body" +:+ dq +:+ ":" +:+ dq.

Definition error_pattern : string := dq +:+ "error" +:+ dq +:+ ":" +:+ dq.

Definition after_body (bs : list byte) : string := body_base64 bs +:+ String dqc "}".

(** A response that reports an error. *)
Definition error_text (msg : string) : string :=
  "{" +:+ dq +:+ "error" +:+ dq +:+ ":" +:+ dq +:+ msg +:+ dq +:+ "}".
End ResponseSpec.

(** ** Hosts for the examples of HttpTestFS *)
Module PluginSpec.
Import CppSdk.

(** The text of "hello" as bytes, the body of [canned_response]. *)
Definition hello_bytes : list byte := RustSdk.bytes_of "hello".



End PluginSpec.

(** * The SQS queue backend: sending *)
Module SQSSend.
Import SQS.

(** [sqs.SendMessageInput], with the fields the file sets. *)
Record SendMessageInput : Type := mkSendMessageInput {
  SendQueueUrl : string;
  MessageBody : string;
  SendMessageAttributes : gmap string MessageAttributeValue
}.

(** The part of the world that sending needs: the SDK's send call and
    [Time.Format(time.RFC3339Nano)] of Go's library. *)
Class SqsSendApi (W : Type) : Type := {
  sdk_SendMessage : W -> SendMessageInput -> option error * W;
  time_Format_RFC3339Nano : Time -> string
}.

(** [t.UnixNano()]: nanoseconds since the Unix epoch, as an [int64]. *)
Definition UnixNano (t : Time) : Z := int64 (t - 62135596800 * time_Second).

Definition string_attribute (v : string) : MessageAttributeValue :=
  {| DataType := Some "String"; StringValue := Some v |}.

Section Send.
Context `{SqsApi W} `{SqsSendApi W}.

(** The request that [SendMessage] sends. *)
Definition SendMessage_input (queueURL : string) (msg : QueueMessage)
  : SendMessageInput :=
  let ts := time_Format_RFC3339Nano (Timestamp msg) in
  {| SendQueueUrl := queueURL;
     MessageBody := Data msg;
     SendMessageAttributes :=
       <["Type" := string_attribute sqsMessageTypeValue]>
         (<[sqsAttrMessageID := string_attribute (ID msg)]>
            (<[sqsAttrMessageTS := string_attribute ts]> ∅)) |}.

(** SendMessage sends one queuefs message to queue URL. *)
Definition Client_SendMessage (w : W) (queueURL : string) (msg : QueueMessage)
  : option error * W :=
  if String.eqb queueURL EmptyString
  then (Some (Errorf "queue URL cannot be empty"), w)
  else if String.eqb (Data msg) EmptyString
  then (Some (Errorf "message body cannot be empty"), w)
  else
    match sdk_SendMessage w (SendMessage_input queueURL msg) with
    | (Some err, w) => (Some (Wrap "send message failed: " err), w)
    | (None, w) => (None, w)
    end.

(** Enqueue adds one message.  Both defaults read the clock of the
    world in which the call starts. *)
Definition Enqueue (b : SQSBackend) (w : W) (queueName : string) (msg : QueueMessage)
  : option error * SQSBackend * W :=
  match sqs b with
  | None => (Some (Errorf "sqs backend not initialized"), b, w)
  | Some _ =>
      let msg :=
        if String.eqb (ID msg) EmptyString
        then {| ID := "sqs-" +:+ to_string (UnixNano (time_Now w));
                Data := Data msg; Timestamp := Timestamp msg |}
        else msg in
      let msg :=
        if IsZero (Timestamp msg)
        then {| ID := ID msg; Data := Data msg; Timestamp := time_Now w |}
        else msg in
      match getQueueURL b w queueName true with
      | (Error err, b, w) =>
          (Some (Wrap "enqueue get queue url failed: " err), b, w)
      | (Ok u, b, w) =>
          let '(r, w) := Client_SendMessage w u msg in (r, b, w)
      end
  end.
End Send.
End SQSSend.

(** ** Sequences of backend operations, and changed services *)
Module QueueOps.
Import SQS SQSSend.

(** A call of the backend's interface. *)
Inductive Op : Type :=
| OpEnqueue (queueName : string) (msg : QueueMessage)
| OpDequeue (queueName : string)
| OpPeek (queueName : string)
| OpSize (queueName : string)
| OpClear (queueName : string)
| OpListQueues (fuel : nat) (prefix : string)
| OpRemoveQueue (fuel : nat) (queueName : string)
| OpCreateQueue (queueName : string).

(** The backend after a call made in world [w]. *)
Definition after_op `{SqsApi W} `{SqsSendApi W} (b : SQSBackend) (w : W) (op : Op)
  : SQSBackend :=
  match op with
  | OpEnqueue q msg => (Enqueue b w q msg).1.2
  | OpDequeue q => (Dequeue b w q).1.2
  | OpPeek q => (Peek b w q).1.2
  | OpSize q => (Size b w q).1.2
  | OpClear q => (Clear b w q).1.2
  | OpListQueues fuel prefix => (ListQueues fuel b w prefix).1.2
  | OpRemoveQueue fuel q => (RemoveQueue fuel b w q).1.2
  | OpCreateQueue q => (CreateQueue b w q).1.2
  end.

(** The backend after a sequence of calls, each made in the world as it
    is at that moment. *)
Definition after_ops `{SqsApi W} `{SqsSendApi W} (b : SQSBackend)
    (calls : list (Op * W)) : SQSBackend :=
  fold_left (fun b call => after_op b call.2 call.1) calls b.

(** What the caches hold between calls: cached URLs are not empty, the
    cached names are not empty and have no '/', and no cached name is
    marked deleted. *)
Definition caches_consistent (b : SQSBackend) : Prop :=
  forall (q u : string),
    cache b !! q = Some u ->
    u <> EmptyString /\ q <> EmptyString /\ strings_Contains q "/" = false
    /\ deleted b !! q = None.

(** The service with another batch delete call. *)
Definition with_DeleteMessageBatch {W : Type} (api : SqsApi W)
    (f : W -> string -> list DeleteMessageBatchRequestEntry -> result nat * W)
  : SqsApi W :=
  {| time_Now := @time_Now W api;
     sdk_CreateQueue := @sdk_CreateQueue W api;
     sdk_DeleteQueue := @sdk_DeleteQueue W api;
     sdk_PurgeQueue := @sdk_PurgeQueue W api;
     sdk_GetQueueUrl := @sdk_GetQueueUrl W api;
     sdk_ListQueues := @sdk_ListQueues W api;
     sdk_GetQueueAttributes := @sdk_GetQueueAttributes W api;
     sdk_ReceiveMessage := @sdk_ReceiveMessage W api;
     sdk_DeleteMessageBatch := f;
     strconv_Quote := @strconv_Quote W api;
     Sscanf_d := @Sscanf_d W api;
     time_Parse_RFC3339Nano := @time_Parse_RFC3339Nano W api;
     strings_TrimSpace := @strings_TrimSpace W api |}.

(** The service with another create call. *)
Definition with_CreateQueue {W : Type} (api : SqsApi W)
    (f : W -> string -> option error * W) : SqsApi W :=
  {| time_Now := @time_Now W api;
     sdk_CreateQueue := f;
     sdk_DeleteQueue := @sdk_DeleteQueue W api;
     sdk_PurgeQueue := @sdk_PurgeQueue W api;
     sdk_GetQueueUrl := @sdk_GetQueueUrl W api;
     sdk_ListQueues := @sdk_ListQueues W api;
     sdk_GetQueueAttributes := @sdk_GetQueueAttributes W api;
     sdk_ReceiveMessage := @sdk_ReceiveMessage W api;
     sdk_DeleteMessageBatch := @sdk_DeleteMessageBatch W api;
     strconv_Quote := @strconv_Quote W api;
     Sscanf_d := @Sscanf_d W api;
     time_Parse_RFC3339Nano := @time_Parse_RFC3339Nano W api;
     strings_TrimSpace := @strings_TrimSpace W api |}.

(** The message as the service delivers what a send call was given:
    body and message attributes are those of the request; the message
    id, the receipt handle and the system attributes are the service's. *)
Definition delivered (input : SendMessageInput) (id handle : option string)
    (attrs : gmap string string) : Message :=
  {| Body := Some (MessageBody input);
     MessageId := id;
     ReceiptHandle := handle;
     MessageAttributes := SendMessageAttributes input;
     Attributes := attrs |}.

(** The service with another parser of timestamps. *)
Definition with_Parse {W : Type} (api : SqsApi W) (f : string -> result Time)
  : SqsApi W :=
  {| time_Now := @time_Now W api;
     sdk_CreateQueue := @sdk_CreateQueue W api;
     sdk_DeleteQueue := @sdk_DeleteQueue W api;
     sdk_PurgeQueue := @sdk_PurgeQueue W api;
     sdk_GetQueueUrl := @sdk_GetQueueUrl W api;
     sdk_ListQueues := @sdk_ListQueues W api;
     sdk_GetQueueAttributes := @sdk_GetQueueAttributes W api;
     sdk_ReceiveMessage := @sdk_ReceiveMessage W api;
     sdk_DeleteMessageBatch := @sdk_DeleteMessageBatch W api;
     strconv_Quote := @strconv_Quote W api;
     Sscanf_d := @Sscanf_d W api;
     time_Parse_RFC3339Nano := f;
     strings_TrimSpace := @strings_TrimSpace W api |}.


(** The service with another list call. *)
Definition with_ListQueues {W : Type} (api : SqsApi W)
    (f : W -> string -> option string -> result (list string * option string) * W)
  : SqsApi W :=
  {| time_Now := @time_Now W api;
     sdk_CreateQueue := @sdk_CreateQueue W api;
     sdk_DeleteQueue := @sdk_DeleteQueue W api;
     sdk_PurgeQueue := @sdk_PurgeQueue W api;
     sdk_GetQueueUrl := @sdk_GetQueueUrl W api;
     sdk_ListQueues := f;
     sdk_GetQueueAttributes := @sdk_GetQueueAttributes W api;
     sdk_ReceiveMessage := @sdk_ReceiveMessage W api;
     sdk_DeleteMessageBatch := @sdk_DeleteMessageBatch W api;
     strconv_Quote := @strconv_Quote W api;
     Sscanf_d := @Sscanf_d W api;
     time_Parse_RFC3339Nano := @time_Parse_RFC3339Nano W api;
     strings_TrimSpace := @strings_TrimSpace W api |}.

(** The pages of a listing: the answers of the service to the list
    calls that start with [token] in world [w], each call with the token
    of the answer before, up to the first answer that has no token (nil
    or empty).  [urls] are the URLs of all pages, in their order, and
    [w'] is the world after the last call. *)
Inductive pages `{SqsApi W} (prefix : string)
  : W -> option string -> list string -> W -> Prop :=
| pages_last (w : W) (token : option string) (urls : list string)
    (out : option string) (w' : W) :
    sdk_ListQueues w prefix token = (Ok (urls, out), w') ->
    out = None \/ out = Some EmptyString ->
    pages prefix w token urls w'
| pages_next (w : W) (token : option string) (urls : list string) (tok : string)
    (w1 : W) (rest : list string) (w' : W) :
    sdk_ListQueues w prefix token = (Ok (urls, Some tok), w1) ->
    tok <> EmptyString ->
    pages prefix w1 (Some tok) rest w' ->
    pages prefix w token (urls ++ rest)%list w'.

(** A listing that fails: the list calls that start with [token] in
    world [w] reach, each with the token of the answer before, a call
    that the service refuses with [err], in world [w']. *)
Inductive pages_fail `{SqsApi W} (prefix : string)
  : W -> option string -> error -> W -> Prop :=
| pages_fail_here (w : W) (token : option string) (err : error) (w' : W) :
    sdk_ListQueues w prefix token = (Error err, w') ->
    pages_fail prefix w token err w'
| pages_fail_later (w : W) (token : option string) (urls : list string)
    (tok : string) (w1 : W) (err : error) (w' : W) :
    sdk_ListQueues w prefix token = (Ok (urls, Some tok), w1) ->
    tok <> EmptyString ->
    pages_fail prefix w1 (Some tok) err w' ->
    pages_fail prefix w token err w'.

(** The names of a list of queue URLs, the empty ones left out. *)
Definition names_of_urls `{SqsApi W} (urls : list string) : list string :=
  List.filter (fun name => negb (String.eqb name EmptyString))
    (map queueNameFromURL urls).

(** A list of strings in ascending order. *)
Fixpoint ascending (l : list string) : Prop :=
  match l with
  | [] => True
  | x :: rest =>
      match rest with
      | [] => True
      | y :: _ => String.leb x y = true /\ ascending rest
      end
  end.

(** No character of [s] is [c]. *)
Definition free_of (c : ascii) (s : string) : bool :=
  forallb (fun x => negb (Ascii.eqb x c)) (list_ascii_of_string s).
End QueueOps.

(** ** The simulated service: sending *)
Module SimSend.
Import SQS SQSSend QueueOps SimSQS.

(** The simulated service takes a message for a queue that exists; a
    timestamp is printed as its count of nanoseconds. *)
#[export] Instance sim_send : SqsSendApi World := {|
  sdk_SendMessage w input :=
    if has_url w (SendQueueUrl input) then (None, w) else (Some QueueDoesNotExist, w);
  time_Format_RFC3339Nano t := to_string t
|}.

(** The simulated service with the parser of the timestamps that
    [sim_send] prints. *)
Definition stamp_api : SqsApi World :=
  with_Parse sim_api (fun s => Ok (CppSdk.atoi_value s)).

(** The simulated service when another client creates the queue first:
    the create call reports that the name exists, and the queue is there
    afterwards. *)
Definition racing_api : SqsApi World :=
  with_CreateQueue sim_api
    (fun w name =>
       (Some QueueNameExists,
        {| queues := (queues w ++ [name])%list; clock := clock w |})).


(** The simulated service when it lists the queues a and b on two
    pages, with the token t1 between them. *)
Definition paging_api : SqsApi World :=
  with_ListQueues sim_api
    (fun w prefix token =>
       match token with
       | None => (Ok ([url_of "b"], Some "t1"), w)
       | Some _ => (Ok ([url_of "a"], None), w)
       end).

(** A message to send, and a message as a receive call returns it. *)
Definition job : QueueMessage :=
  {| ID := "job-1"; Data := "payload"; Timestamp := 1000 * time_Second |}.

End SimSend.

(** * Proofs *)

(** * Facts about byte strings *)
Module StringFacts.

Lemma append_cons (x : ascii) (a b : string) :
  String x a +:+ b = String x (a +:+ b).
Proof. reflexivity. Qed.

Lemma append_nil_l (b : string) : EmptyString +:+ b = b.
Proof. reflexivity. Qed.

Lemma append_assoc (a b c : string) : (a +:+ b) +:+ c = a +:+ (b +:+ c).
Proof.
  induction a as [|x a IH]; [reflexivity|]. by rewrite !append_cons, IH.
Qed.

Lemma append_nil_r (a : string) : a +:+ EmptyString = a.
Proof. induction a as [|x a IH]; [reflexivity|]. by rewrite append_cons, IH. Qed.

Lemma length_append (a b : string) :
  String.length (a +:+ b) = (String.length a + String.length b)%nat.
Proof.
  induction a as [|x a IH]; [reflexivity|]. rewrite append_cons. cbn. by rewrite IH.
Qed.

Lemma substring_0_append (p r : string) :
  String.substring 0 (String.length p) (p +:+ r) = p.
Proof.
  induction p as [|x p IH]; [by destruct r|]. rewrite append_cons. cbn. by rewrite IH.
Qed.

(** The part of [a +:+ r] after [a]. *)
Lemma substring_skip_append (a r : string) (n : nat) :
  String.substring (String.length a) n (a +:+ r) = String.substring 0 n r.
Proof. induction a as [|x a IH]; [reflexivity|]. rewrite append_cons. cbn. apply IH. Qed.


End StringFacts.

Module EnvelopeFacts.
Import CppSdk Envelope StringFacts.






























End EnvelopeFacts.

(** ** The packed return value *)
Module PackingFacts.
Import CppSdk Envelope.

Lemma land_shifted_disjoint (a b n : Z) :
  0 <= n -> 0 <= a < 2 ^ n -> Z.land a (b * 2 ^ n) = 0.
Proof.
  intros Hn Ha. apply Z.bits_inj'. intros i Hi.
  rewrite Z.land_spec, Z.bits_0.
  destruct (Z.lt_ge_cases i n) as [Hlt|Hge].
  - rewrite (Z.mul_pow2_bits_low b n i) by lia. apply andb_false_r.
  - rewrite <- (Z.mod_small a (2 ^ n)) by lia.
    rewrite Z.mod_pow2_bits_high by lia. reflexivity.
Qed.

Lemma lor_shiftl_sum (a b n : Z) :
  0 <= n -> 0 <= a < 2 ^ n -> Z.lor a (Z.shiftl b n) = a + b * 2 ^ n.
Proof.
  intros Hn Ha. rewrite Z.shiftl_mul_pow2 by lia.
  pose proof (land_shifted_disjoint a b n Hn Ha) as Hdisj.
  rewrite <- Z.lxor_lor by exact Hdisj.
  symmetry. apply Z.add_nocarry_lxor. exact Hdisj.
Qed.

Lemma pack_sum (offset len : Z) :
  0 <= offset < 2 ^ 32 -> 0 <= len < 2 ^ 32 ->
  pack offset len = offset + len * 2 ^ 32.
Proof.
  intros Ho Hl. unfold pack. rewrite lor_shiftl_sum by lia.
  apply Z.mod_small. lia.
Qed.

Lemma unpack_ptr_mod (r : Z) : unpack_ptr r = r mod 2 ^ 32.
Proof. unfold unpack_ptr. change 4294967295 with (Z.ones 32). apply Z.land_ones. lia. Qed.

Lemma unpack_size_div (r : Z) : unpack_size r = (r / 2 ^ 32) mod 2 ^ 32.
Proof.
  unfold unpack_size. change 4294967295 with (Z.ones 32).
  rewrite Z.land_ones by lia. by rewrite Z.shiftr_div_pow2 by lia.
Qed.

Lemma unpack_pack (offset len : Z) :
  0 <= offset < 2 ^ 32 -> 0 <= len < 2 ^ 32 ->
  unpack_ptr (pack offset len) = offset /\ unpack_size (pack offset len) = len.
Proof.
  intros Ho Hl. rewrite unpack_ptr_mod, unpack_size_div, pack_sum by assumption.
  split.
  - rewrite Z.mod_add by lia. apply Z.mod_small. lia.
  - rewrite Z.div_add by lia. rewrite (Z.div_small offset) by lia.
    apply Z.mod_small. lia.
Qed.

Lemma pack_unpack (r : Z) :
  0 <= r < 2 ^ 64 -> pack (unpack_ptr r) (unpack_size r) = r.
Proof.
  intros Hr. rewrite unpack_ptr_mod, unpack_size_div.
  assert (Hq : 0 <= r / 2 ^ 32 < 2 ^ 32).
  { split; [apply Z.div_pos; lia|]. apply Z.div_lt_upper_bound; lia. }
  rewrite (Z.mod_small (r / 2 ^ 32)) by lia.
  rewrite pack_sum by (try apply Z.mod_pos_bound; lia).
  pose proof (Z.div_mod r (2 ^ 32)). lia.
Qed.

(** C1: a 32-bit offset and a 32-bit length packed into the 64-bit
    return value (offset in the low half, length in the high half) are
    read back unchanged by the guest, every 64-bit value is such a pair,
    and [Http::request] treats a returned offset of 0 as a failure
    whatever the length, while for any other offset it parses exactly
    [len] bytes at [offset]. *)
Theorem C1_packed_return (host_http_request : string -> Z)
    (guest_memory : Z -> Z -> string) (req : HttpRequest) (offset len : Z) :
  0 <= offset < 2 ^ 32 -> 0 <= len < 2 ^ 32 ->
  host_http_request (to_json req) = pack offset len ->
  0 <= pack offset len < 2 ^ 64
  /\ unpack_ptr (pack offset len) = offset
  /\ unpack_size (pack offset len) = len
  /\ (forall r, 0 <= r < 2 ^ 64 -> pack (unpack_ptr r) (unpack_size r) = r)
  /\ (offset = 0 ->
      request host_http_request guest_memory req
      = Some (Err (Error_other "HTTP request failed")))
  /\ (offset <> 0 ->
      request host_http_request guest_memory req = from_json (guest_memory offset len)).
Proof.
  intros Ho Hl Hhost.
  destruct (unpack_pack offset len Ho Hl) as [Hptr Hsize].
  split; [unfold pack; apply Z.mod_pos_bound; lia|].
  split; [exact Hptr|]. split; [exact Hsize|].
  split; [exact pack_unpack|].
  unfold request. rewrite Hhost, Hptr, Hsize.
  split; intros Hoff.
  - subst offset. reflexivity.
  - apply Z.eqb_neq in Hoff. rewrite Hoff. reflexivity.
Qed.

Lemma C1_packed_return_witness :
  let host := fun _ : string => pack 0 7 in
  let mem := fun _ _ : Z => EmptyString in
  unpack_ptr (pack 0 7) = 0 /\ unpack_size (pack 0 7) = 7
  /\ request host mem (HttpRequest_get "https://example.com")
     = Some (Err (Error_other "HTTP request failed")).
Proof.
  intros host mem.
  destruct (C1_packed_return host mem (HttpRequest_get "https://example.com") 0 7)
    as (_ & Hp & Hs & _ & Hzero & _); [lia | lia | reflexivity |].
  split; [exact Hp|]. split; [exact Hs|]. apply Hzero. reflexivity.
Defined.
End PackingFacts.


(** ** The request builder *)
Module BuilderFacts.
Import CppSdk Envelope.






End BuilderFacts.


(** ** Reads of the example providers *)
Module ReadFacts.
Import ReadContract.

(** C7, counterexample: HelloFS reports 14 bytes for /hello.txt, and a
    read at offset 14 returns all 14 bytes, not an empty result. *)
Lemma C7_counterexample_hellofs_read :
  ~ empty_beyond_end RustSdk.HelloFS_stat RustSdk.HelloFS_read.
Proof.
  intros Hcontract.
  specialize (Hcontract "/hello.txt" (RustSdk.FileInfo_file "hello.txt" 14 420) 14 14).
  assert (Hread : RustSdk.HelloFS_read "/hello.txt" 14 14 = RustSdk.Ok RustSdk.hello_world)
    by reflexivity.
  rewrite Hcontract in Hread; [discriminate Hread|reflexivity|reflexivity|cbn; lia].
Qed.

(** C7, amended: the example providers ignore offset and size.  For every
    offset and size, also at or beyond the end of the data, HelloFS returns
    the whole 14 bytes of /hello.txt, and HttpTestFS returns the whole body
    of a successful HTTP response, for /test_get and for /test_json; the
    result is not an error. *)
Theorem C7_reads_ignore_offset
    (host_http_request : string -> Z) (guest_memory : Z -> Z -> string)
    (response : CppSdk.HttpResponse) (offset size : Z) :
  CppSdk.Http_get host_http_request guest_memory "https://example.com"
    = Some (CppSdk.Ok response) ->
  CppSdk.is_success response = true ->
  RustSdk.HelloFS_read "/hello.txt" offset size = RustSdk.Ok RustSdk.hello_world
  /\ Z.of_nat (length RustSdk.hello_world) = 14
  /\ RustSdk.HelloFS_stat "/hello.txt"
     = RustSdk.Ok (RustSdk.FileInfo_file "hello.txt" 14 420)
  /\ HttpTestFS.read host_http_request guest_memory "/test_get" offset size
     = Some (CppSdk.Ok (CppSdk.resp_body response))
  /\ (forall response' : CppSdk.HttpResponse,
        CppSdk.request host_http_request guest_memory
          (CppSdk.add_header
             (CppSdk.add_header
                (CppSdk.HttpRequest_get "https://api.github.com/users/github")
                "User-Agent" "AGFS-WASM-Plugin")
             "Accept" "application/json")
        = Some (CppSdk.Ok response') ->
        CppSdk.is_success response' = true ->
        HttpTestFS.read host_http_request guest_memory "/test_json" offset size
        = Some (CppSdk.Ok (CppSdk.resp_body response'))).
Proof.
  intros Hget Hok. repeat split.
  - unfold HttpTestFS.read. cbn [String.eqb Ascii.eqb Bool.eqb].
    rewrite Hget, Hok. reflexivity.
  - intros response' Hreq Hok'. unfold HttpTestFS.read.
    cbn [String.eqb Ascii.eqb Bool.eqb]. rewrite Hreq, Hok'. reflexivity.
Qed.

Lemma C7_reads_ignore_offset_witness :
  HttpTestFS.read canned_host canned_memory "/test_get" 5 10
  = Some (CppSdk.Ok (RustSdk.bytes_of "hello"))
  /\ HttpTestFS.read canned_host canned_memory "/test_get" 1000 10
     = Some (CppSdk.Ok (RustSdk.bytes_of "hello"))
  /\ RustSdk.HelloFS_read "/hello.txt" 14 1 = RustSdk.Ok RustSdk.hello_world.
Proof.
  pose (response := {| CppSdk.status_code := 200; CppSdk.resp_headers := [];
                       CppSdk.resp_body := RustSdk.bytes_of "hello";
                       CppSdk.error := EmptyString |}).
  assert (Hget : CppSdk.Http_get canned_host canned_memory "https://example.com"
                 = Some (CppSdk.Ok response)) by (vm_compute; reflexivity).
  split; [|split].
  - apply (C7_reads_ignore_offset canned_host canned_memory response 5 10 Hget).
    reflexivity.
  - apply (C7_reads_ignore_offset canned_host canned_memory response 1000 10 Hget).
    reflexivity.
  - apply (C7_reads_ignore_offset canned_host canned_memory response 14 1 Hget).
    reflexivity.
Defined.
End ReadFacts.


(** ** The mount router *)
Module RouterFacts.
Import MountRouter RouterSpec StringFacts.

Lemma prefix_append (p path : string) :
  String.prefix p path = true <-> exists r, path = p +:+ r.
Proof.
  revert path. induction p as [|c p IH]; intros path.
  - split; [intros _; by exists path|]. intros _. by destruct path.
  - destruct path as [|d path]; cbn [String.prefix].
    + split; [discriminate|]. intros [r Hr]. discriminate Hr.
    + destruct (ascii_dec c d) as [->|Hne].
      * rewrite IH. split; intros [r Hr]; exists r.
        -- by rewrite append_cons, Hr.
        -- rewrite append_cons in Hr. by injection Hr.
      * split; [discriminate|]. intros [r Hr]. rewrite append_cons in Hr.
        injection Hr as Hcd _. congruence.
Qed.

Lemma get_after_append (p r : string) :
  String.get (String.length p) (p +:+ r) = String.get 0 r.
Proof. induction p as [|c p IH]; [reflexivity|]. rewrite append_cons. exact IH. Qed.

Lemma from_pos_append (p r : string) : from_pos (p +:+ r) (String.length p) = r.
Proof.
  unfold from_pos. rewrite substring_skip_append, length_append.
  replace (String.length p + String.length r - String.length p)%nat
    with (String.length r) by lia.
  rewrite <- (append_nil_r r) at 2. apply substring_0_append.
Qed.

Lemma segment_prefix_covers (p path : string) :
  segment_prefix p path = true <-> covers p path.
Proof.
  unfold segment_prefix, covers. rewrite andb_true_iff, prefix_append. split.
  - intros [[r ->] Hget]. rewrite get_after_append in Hget.
    destruct r as [|c r]; [left; apply append_nil_r|].
    cbn in Hget. apply Ascii.eqb_eq in Hget as ->. right. by exists r.
  - intros [->|[rest ->]].
    + split; [exists EmptyString; by rewrite append_nil_r|].
      rewrite <- (append_nil_r p) at 2. by rewrite get_after_append.
    + split; [by eexists|]. by rewrite get_after_append.
Qed.

Lemma append_same_length (a a' r r' : string) :
  a +:+ r = a' +:+ r' -> String.length a = String.length a' -> a = a'.
Proof.
  revert a'. induction a as [|c a IH]; intros [|c' a'] Heq Hlen;
    try discriminate Hlen; [reflexivity|].
  rewrite !append_cons in Heq. injection Heq as -> Heq.
  f_equal. apply IH; [exact Heq|]. by injection Hlen.
Qed.

Lemma covers_initial (p path : string) :
  covers p path -> exists r, path = p +:+ r.
Proof.
  intros [->|[rest ->]]; [exists EmptyString; by rewrite append_nil_r|by eexists].
Qed.

(** Two prefixes of the same length that cover one path are the same. *)
Lemma covers_same_length (p p' path : string) :
  covers p path -> covers p' path ->
  String.length p = String.length p' -> p = p'.
Proof.
  intros [r Hr]%covers_initial [r' Hr']%covers_initial Hlen.
  apply (append_same_length p p' r r'); [congruence|exact Hlen].
Qed.

Section Resolve.
Context {ProviderHandle Config : Type}.
Implicit Types (t : MountTable ProviderHandle Config)
               (e b : MountEntry ProviderHandle Config).

Lemma longest_match_spec t (path : string) (best : option (MountEntry ProviderHandle Config)) :
  match longest_match t path best with
  | Some e =>
      (best = Some e \/ (In e t /\ segment_prefix (prefix e) path = true))
      /\ (forall b, best = Some b ->
           (String.length (prefix b) <= String.length (prefix e))%nat)
      /\ (forall e', In e' t -> segment_prefix (prefix e') path = true ->
           (String.length (prefix e') <= String.length (prefix e))%nat)
  | None => best = None /\ forall e', In e' t -> segment_prefix (prefix e') path = false
  end.
Proof.
  revert best. induction t as [|e0 t IH]; intros best; cbn [longest_match].
  - destruct best as [b|].
    + split; [by left|]. split; [intros b' [= <-]; lia|]. intros e' [].
    + split; [reflexivity|]. intros e' [].
  - specialize (IH (if segment_prefix (prefix e0) path then longer e0 best else best)).
    destruct (longest_match t path _) as [e|].
    + destruct IH as (Hwhere & Hbest & Hall).
      destruct (segment_prefix (prefix e0) path) eqn:Hm.
      * assert (He0 : (String.length (prefix e0) <= String.length (prefix e))%nat).
        { unfold longer in Hbest. destruct best as [b|]; [|by apply Hbest].
          destruct (String.length (prefix b) <? String.length (prefix e0))%nat eqn:Hlt;
            [by apply Hbest|].
          apply Nat.ltb_ge in Hlt. specialize (Hbest b eq_refl). lia. }
        split; [|split].
        -- destruct Hwhere as [Hw|[Hin Hme]]; [|right; split; [by right|done]].
           unfold longer in Hw. destruct best as [b|].
           ++ destruct (String.length (prefix b) <? String.length (prefix e0))%nat.
              ** injection Hw as <-. right. split; [by left|done].
              ** by left.
           ++ injection Hw as <-. right. split; [by left|done].
        -- intros b ->. unfold longer in Hbest.
           destruct (String.length (prefix b) <? String.length (prefix e0))%nat eqn:Hlt.
           ++ apply Nat.ltb_lt in Hlt. lia.
           ++ by apply Hbest.
        -- intros e' [<-|Hin] Hme; [exact He0|by apply Hall].
      * split; [|split].
        -- destruct Hwhere as [Hw|[Hin Hme]]; [by left|]. right. split; [by right|done].
        -- exact Hbest.
        -- intros e' [<-|Hin] Hme; [congruence|by apply Hall].
    + destruct IH as [Hnone Hall].
      destruct (segment_prefix (prefix e0) path) eqn:Hm.
      * unfold longer in Hnone. destruct best as [b|]; [|discriminate].
        destruct (String.length (prefix b) <? String.length (prefix e0))%nat; discriminate.
      * split; [exact Hnone|]. intros e' [<-|Hin]; [exact Hm|by apply Hall].
Qed.

(** C2: for every mount table and path, [Resolve] returns the provider of
    a mounted prefix that covers the path by whole segments and is at least
    as long as every other mounted prefix that covers it (a covering
    prefix of the same length is that very prefix), together with the
    rest of the path after that prefix; it fails with NotFound exactly when
    no mounted prefix covers the path.  A mount at /a does not cover /ab,
    and with mounts at /a and /a/b the path /a/b/c goes to /a/b with /c and
    /a/x goes to /a with /x, in either order of mounting. *)
Theorem C2_resolve_longest_prefix t (path : string) :
  match Resolve t path with
  | Ok (h, rel) =>
      exists e, In e t /\ provider e = h
        /\ covers (prefix e) path
        /\ path = prefix e +:+ rel
        /\ (forall e', In e' t -> covers (prefix e') path ->
             (String.length (prefix e') <= String.length (prefix e))%nat)
        /\ (forall e', In e' t -> covers (prefix e') path ->
             String.length (prefix e') = String.length (prefix e) ->
             prefix e' = prefix e)
  | Err k => k = NotFound /\ forall e, In e t -> ~ covers (prefix e) path
  end
  /\ ~ covers "/a" "/ab"
  /\ forall pa pb : ProviderHandle,
       Resolve [entry_at "/a" pa; entry_at "/a/b" pb] "/a/b/c" = Ok (pb, "/c")
       /\ Resolve [entry_at "/a" pa; entry_at "/a/b" pb] "/a/x" = Ok (pa, "/x")
       /\ Resolve [entry_at "/a/b" pb; entry_at "/a" pa] "/a/b/c" = Ok (pb, "/c")
       /\ Resolve [entry_at "/a/b" pb; entry_at "/a" pa] "/a/x" = Ok (pa, "/x")
       /\ Resolve [entry_at "/a" pa; entry_at "/a/b" pb] "/ab" = Err NotFound.
Proof.
  split; [|split].
  - unfold Resolve. pose proof (longest_match_spec t path None) as Hspec.
    destruct (longest_match t path None) as [e|].
    + destruct Hspec as ([Hw|[Hin Hme]] & _ & Hall); [discriminate|].
      exists e. split; [exact Hin|]. split; [reflexivity|].
      apply segment_prefix_covers in Hme as Hcov. split; [exact Hcov|]. split.
      * destruct Hcov as [->|[rest ->]].
        -- pose proof (from_pos_append (prefix e) EmptyString) as Hrel.
           rewrite append_nil_r in Hrel. by rewrite Hrel, append_nil_r.
        -- by rewrite from_pos_append.
      * split.
        -- intros e' Hin' Hcov'. apply Hall; [exact Hin'|].
           by apply segment_prefix_covers.
        -- intros e' _ Hcov' Hlen. by apply (covers_same_length _ _ path).
    + destruct Hspec as [_ Hall]. split; [reflexivity|].
      intros e Hin Hcov. apply segment_prefix_covers in Hcov.
      rewrite (Hall e Hin) in Hcov. discriminate.
  - intros Hcov. apply segment_prefix_covers in Hcov. discriminate Hcov.
  - intros pa pb. repeat split.
Qed.
End Resolve.
End RouterFacts.


(** ** Mount and the capability gate *)
Module MountFacts.
Import MountRouter RouterSpec.

Section Mount.
Context {ProviderHandle Config : Type}.
Implicit Types (t : MountTable ProviderHandle Config)
               (e : MountEntry ProviderHandle Config).

Lemma mounted_In t (p : string) :
  mounted t p = true <-> exists e, In e t /\ prefix e = p.
Proof.
  unfold mounted. rewrite existsb_exists.
  split; intros (e & Hin & He); exists e; (split; [exact Hin|]);
    by apply String.eqb_eq.
Qed.

Lemma mounted_app t1 t2 (p : string) :
  mounted (t1 ++ t2) p = mounted t1 p || mounted t2 p.
Proof. apply existsb_app. Qed.

(** C4: after a first [Mount] of a free prefix has registered its entry, a
    second [Mount] of the same prefix fails with AlreadyExists and returns
    the table as it was: the table still holds the first mount's entry for
    that prefix and no other; the same holds for any table in which the
    prefix is mounted. *)
Theorem C4_duplicate_mount_rejected t (now now' : Z) (p : string)
    (providerSpec providerSpec' : string -> Config -> Result ProviderHandle)
    (cfg cfg' : Config) (h : ProviderHandle) :
  mounted t p = false ->
  providerSpec p cfg = Ok h ->
  let first := {| prefix := p; provider := h; config := cfg; mountedAt := now |} in
  Mount t now p providerSpec cfg = (Ok p, t ++ [first])
  /\ Mount (t ++ [first]) now' p providerSpec' cfg' = (Err AlreadyExists, t ++ [first])
  /\ List.filter (fun e => String.eqb (prefix e) p) (t ++ [first]) = [first]
  /\ forall t', (exists e, In e t' /\ prefix e = p) ->
       Mount t' now' p providerSpec' cfg' = (Err AlreadyExists, t').
Proof.
  intros Hfree Hspec first.
  assert (Hdup : forall t', (exists e, In e t' /\ prefix e = p) ->
            Mount t' now' p providerSpec' cfg' = (Err AlreadyExists, t')).
  { intros t' Hex. apply mounted_In in Hex. unfold Mount. by rewrite Hex. }
  split; [|split; [|split]].
  - unfold Mount. by rewrite Hfree, Hspec.
  - apply Hdup. exists first. split; [|reflexivity].
    apply in_or_app. right. by left.
  - rewrite List.filter_app. cbn [List.filter prefix first].
    rewrite String.eqb_refl.
    replace (List.filter (fun e => String.eqb (prefix e) p) t) with (@nil (MountEntry ProviderHandle Config)); [reflexivity|].
    symmetry. unfold mounted in Hfree.
    induction t as [|e t IH]; [reflexivity|].
    cbn in Hfree. apply orb_false_iff in Hfree as [He Ht].
    cbn [List.filter]. rewrite He. by apply IH.
  - exact Hdup.
Qed.
End Mount.

Lemma C4_duplicate_mount_rejected_witness :
  let spec1 := fun (_ : string) (_ : unit) => Ok 1%nat in
  let spec2 := fun (_ : string) (_ : unit) => Ok 2%nat in
  Mount [] 10 "/dup" spec1 tt = (Ok "/dup", [mkMountEntry "/dup" 1%nat tt 10])
  /\ Mount [mkMountEntry "/dup" 1%nat tt 10] 20 "/dup" spec2 tt
     = (Err AlreadyExists, [mkMountEntry "/dup" 1%nat tt 10]).
Proof.
  intros spec1 spec2.
  destruct (C4_duplicate_mount_rejected [] 10 20 "/dup" spec1 spec2 tt tt 1%nat)
    as (H1 & H2 & _); [reflexivity|reflexivity|].
  split; [exact H1|exact H2].
Defined.
End MountFacts.

Module GateFacts.
Import MountRouter CapabilityGate GateSpec.

Section Gate.
Context {Request Response : Type}.
Variable perform : string -> Request -> Result Response.

Lemma host_call_denied (inst : PluginInstance) (entry : string) (req : Request)
    (log : IOLog) :
  entry ∉ capabilities inst ->
  host_call perform inst entry req log = (Err PermissionDenied, log).
Proof. intros Hno. unfold host_call. by rewrite decide_False. Qed.

Lemma host_calls_spec (inst : PluginInstance) (calls : list (string * Request))
    (log : IOLog) :
  (host_calls perform inst calls log).2 = (log ++ List.filter (granted inst) calls)%list
  /\ length (host_calls perform inst calls log).1 = length calls
  /\ forall (i : nat) (entry : string) (req : Request),
       nth_error calls i = Some (entry, req) -> entry ∉ capabilities inst ->
       nth_error (host_calls perform inst calls log).1 i = Some (Err PermissionDenied).
Proof.
  revert log. induction calls as [|[entry req] calls IH]; intros log.
  - cbn. split; [by rewrite app_nil_r|]. split; [reflexivity|].
    intros [|i] ? ? Hnth; discriminate Hnth.
  - cbn [host_calls].
    destruct (host_call perform inst entry req log) as [r log1] eqn:Hcall.
    specialize (IH log1).
    destruct (host_calls perform inst calls log1) as [rs log2].
    cbn [fst snd] in *. destruct IH as (Hlog & Hlen & Hden).
    unfold host_call in Hcall. cbn [List.filter]. unfold granted at 1. cbn [fst].
    destruct (decide (entry ∈ capabilities inst)) as [Hin|Hno].
    + injection Hcall as <- <-. rewrite bool_decide_true by exact Hin.
      split; [by rewrite Hlog, <- app_assoc|]. split; [cbn; by rewrite Hlen|].
      intros [|i] entry' req' Hnth Hno'; cbn in *.
      * injection Hnth as <- <-. contradiction.
      * by apply (Hden i entry' req').
    + injection Hcall as <- <-. rewrite bool_decide_false by exact Hno.
      split; [exact Hlog|]. split; [cbn; by rewrite Hlen|].
      intros [|i] entry' req' Hnth Hno'; cbn in *; [reflexivity|].
      by apply (Hden i entry' req').
Qed.

(** C3: a call to a host entry point that is not in the instance's
    capability set returns PermissionDenied and leaves the log of real I/O
    as it was; this holds at any place in a sequence of calls of the same
    instance, and the I/O that is performed over the sequence is that of
    the granted calls alone. *)
Theorem C3_ungranted_call_denied (inst : PluginInstance) (entry : string)
    (req : Request) (log : IOLog) (before after : list (string * Request)) :
  entry ∉ capabilities inst ->
  host_call perform inst entry req log = (Err PermissionDenied, log)
  /\ nth_error (host_calls perform inst (before ++ (entry, req) :: after) log).1
       (length before) = Some (Err PermissionDenied)
  /\ (host_calls perform inst (before ++ (entry, req) :: after) log).2
     = (log ++ List.filter (granted inst) before ++ List.filter (granted inst) after)%list
  /\ forall req' : Request,
       ~ In (entry, req')
           (List.filter (granted inst) before ++ List.filter (granted inst) after).
Proof.
  intros Hno.
  destruct (host_calls_spec inst (before ++ (entry, req) :: after) log)
    as (Hlog & _ & Hden).
  split; [by apply host_call_denied|]. split; [|split].
  - apply (Hden (length before) entry req); [|exact Hno].
    rewrite nth_error_app2 by lia. by rewrite Nat.sub_diag.
  - rewrite Hlog, List.filter_app. cbn [List.filter]. unfold granted at 2. cbn [fst].
    by rewrite bool_decide_false by exact Hno.
  - intros req' Hin. apply in_app_or in Hin.
    destruct Hin as [Hin|Hin]; apply List.filter_In in Hin as [_ Hg];
      unfold granted in Hg; cbn [fst] in Hg; apply bool_decide_eq_true in Hg;
      contradiction.
Qed.
End Gate.

Lemma C3_ungranted_call_denied_witness :
  let perform := fun (entry : string) (req : string) => Ok (entry +:+ ":" +:+ req) in
  host_call perform fs_only_instance "host.http" "GET /" [] = (Err PermissionDenied, [])
  /\ host_calls perform fs_only_instance
       [("host.fs", "read /etc/motd"); ("host.http", "GET /"); ("host.fs", "stat /")] []
     = ([Ok "host.fs:read /etc/motd"; Err PermissionDenied; Ok "host.fs:stat /"],
        [("host.fs", "read /etc/motd"); ("host.fs", "stat /")]).
Proof.
  intros perform.
  assert (Hno : "host.http" ∉ capabilities fs_only_instance)
    by (apply (bool_decide_unpack _); vm_compute; exact I).
  destruct (C3_ungranted_call_denied perform fs_only_instance "host.http" "GET /" []
              [("host.fs", "read /etc/motd")] [("host.fs", "stat /")] Hno)
    as (Hcall & _ & _ & _).
  split; [exact Hcall|]. vm_compute. reflexivity.
Defined.
End GateFacts.


(** ** The SQS queue backend *)
Module SQSFacts.
Import SQS QueueSpec.

Lemma sort_insert_In (x y : string) (l : list string) :
  In x (sort_insert y l) <-> x = y \/ In x l.
Proof.
  induction l as [|z l IH]; cbn [sort_insert In]; [intuition|].
  destruct (String.leb y z); cbn [In]; [intuition|]. rewrite IH. intuition.
Qed.

Lemma sort_Strings_In (x : string) (l : list string) :
  In x (sort_Strings l) <-> In x l.
Proof.
  induction l as [|y l IH]; cbn [sort_Strings In]; [reflexivity|].
  rewrite sort_insert_In, IH. intuition.
Qed.

Section Backend.
Context `{SqsApi W}.

Lemma filter_listed_spec (d : gmap string Time) (queues filtered : list string)
    (seen : gset string) (x : string) :
  (In x (filter_listed d queues filtered seen).1
   <-> In x filtered \/ (In x queues /\ d !! x = None))
  /\ (x ∈ (filter_listed d queues filtered seen).2
      <-> x ∈ seen \/ (In x queues /\ d !! x = None)).
Proof.
  revert filtered seen. induction queues as [|q queues IH]; intros filtered seen.
  - cbn. intuition.
  - cbn [filter_listed]. destruct (d !! q) as [e|] eqn:Hq.
    + destruct (IH filtered seen) as [IH1 IH2]. rewrite IH1, IH2. cbn [In].
      split; split; intros [?|[Hin ?]]; auto; try (right; split; auto; fail).
      * destruct Hin as [->|?]; [congruence|]. right; auto.
      * destruct Hin as [->|?]; [congruence|]. right; auto.
    + destruct (IH (filtered ++ [q])%list ({[q]} ∪ seen)) as [IH1 IH2].
      rewrite IH1, IH2, in_app_iff, elem_of_union, elem_of_singleton. cbn [In].
      split; split.
      * intros [[?|[<-|[]]]|[? ?]]; auto.
      * intros [?|[[<-|?] ?]]; auto.
      * intros [[->|?]|[? ?]]; auto.
      * intros [?|[[<-|?] ?]]; auto.
Qed.

Lemma add_cached_spec (d : gmap string Time) (prefix : string)
    (cached filtered : list string) (seen : gset string) (x : string) :
  In x (add_cached d prefix cached filtered seen).1
  <-> In x filtered
      \/ (In x cached /\ d !! x = None /\ prefix_ok prefix x = true /\ x ∉ seen).
Proof.
  revert filtered seen. induction cached as [|q cached IH]; intros filtered seen.
  - cbn. intuition.
  - cbn [add_cached]. destruct (d !! q) as [e|] eqn:Hq.
    { rewrite IH. cbn [In]. split.
      - intros [?|(? & ? & ? & ?)]; [by left|right; tauto].
      - intros [?|([<-|?] & ? & ? & ?)]; [by left|congruence|right; tauto]. }
    fold (prefix_ok prefix q). destruct (prefix_ok prefix q) eqn:Hok.
    + destruct (bool_decide (q ∈ seen)) eqn:Hseen.
      * apply bool_decide_eq_true in Hseen. rewrite IH. cbn [In]. split.
        -- intros [?|(? & ? & ? & ?)]; [by left|right; tauto].
        -- intros [?|([<-|?] & ? & ? & ?)]; [by left|contradiction|right; tauto].
      * apply bool_decide_eq_false in Hseen. rewrite IH, in_app_iff. cbn [In].
        split.
        -- intros [[?|[<-|[]]]|(Hin & ? & ? & Hns)].
           ++ by left.
           ++ right. tauto.
           ++ right. repeat split; [tauto|assumption|assumption|].
              intros Hx. apply Hns, elem_of_union. by right.
        -- intros [?|(Hin & ? & ? & Hns)]; [tauto|].
           destruct (decide (x = q)) as [->|Hne]; [tauto|].
           destruct Hin as [->|Hin]; [congruence|].
           right. repeat split; [assumption|assumption|assumption|].
           rewrite elem_of_union, elem_of_singleton. tauto.
    + rewrite IH. cbn [In]. split.
      * intros [?|(? & ? & ? & ?)]; [by left|right; tauto].
      * intros [?|([<-|?] & ? & ? & ?)]; [by left|congruence|right; tauto].
Qed.

Lemma purge_expired_lookup (now : Time) (d : gmap string Time) (q : string) :
  purge_expired now d !! q
  = match d !! q with
    | Some e => if decide (e < now) then None else Some e
    | None => None
    end.
Proof.
  unfold purge_expired. destruct (d !! q) as [e|] eqn:Hq.
  - destruct (decide (e < now)) as [Hlt|Hge].
    + apply map_lookup_filter_None. right. intros e' He'. cbn. 
      rewrite Hq in He'. injection He' as <-. tauto.
    + apply map_lookup_filter_Some. split; [exact Hq|]. cbn. exact Hge.
  - apply map_lookup_filter_None. left. exact Hq.
Qed.

Lemma cached_names_In (c : gmap string string) (x : string) :
  In x (map fst (map_to_list c)) <-> is_Some (c !! x).
Proof.
  rewrite in_map_iff. split.
  - intros ([k v] & <- & Hin). apply list_elem_of_In, elem_of_map_to_list in Hin.
    by exists v.
  - intros [v Hv]. exists (x, v). split; [reflexivity|].
    by apply list_elem_of_In, elem_of_map_to_list.
Qed.

Lemma ListQueues_spec (fuel : nat) (b b' : SQSBackend) (w w' : W) (prefix : string)
    (names : list string) :
  ListQueues fuel b w prefix = (Some (Ok names), b', w') ->
  exists queues : list string,
    Client_ListQueues fuel w prefix = (Some (Ok queues), w')
    /\ cache b' = cache b
    /\ deleted b' = purge_expired (time_Now w') (deleted b)
    /\ forall x : string,
         In x names
         <-> deleted b' !! x = None
             /\ (In x queues \/ (is_Some (cache b !! x) /\ prefix_ok prefix x = true)).
Proof.
  unfold ListQueues. destruct (sqs b) as [c|]; [|discriminate].
  destruct (Client_ListQueues fuel w prefix) as [[[queues|err]|] w1]; try discriminate.
  destruct (filter_listed _ queues [] ∅) as [filtered seen] eqn:Hfl.
  destruct (add_cached _ prefix _ filtered seen) as [filtered' seen'] eqn:Hac.
  intros [= <- <- <-]. exists queues. split; [reflexivity|].
  split; [reflexivity|]. split; [reflexivity|]. intros x.
  cbn [deleted with_maps]. set (d := purge_expired (time_Now w1) (deleted b)) in *.
  rewrite sort_Strings_In.
  pose proof (add_cached_spec d prefix (map fst (map_to_list (cache b))) filtered seen x)
    as Hadd.
  rewrite Hac in Hadd. cbn [fst] in Hadd. rewrite Hadd.
  destruct (filter_listed_spec d queues [] ∅ x) as [Hf Hs].
  rewrite Hfl in Hf, Hs. cbn [fst snd] in Hf, Hs. rewrite Hf, cached_names_In.
  assert (Hseen : x ∈ seen <-> In x queues /\ d !! x = None).
  { rewrite Hs. split; [intros [Hx|?]; [by apply not_elem_of_empty in Hx|done]|tauto]. }
  cbn [In]. split.
  - intros [[[]|[? ?]]|(? & ? & ? & ?)]; tauto.
  - intros [Hd [Hq|[Hc Hok]]]; [tauto|].
    destruct (decide (x ∈ seen)) as [Hin|Hout]; [apply Hseen in Hin; tauto|].
    right. tauto.
Qed.






Lemma getQueueURL_absent (b : SQSBackend) (w w1 : W) (q : string) (err : error) :
  q <> EmptyString ->
  strings_Contains q "/" = false ->
  (forall u, cache b !! q = Some u -> u = EmptyString) ->
  sdk_GetQueueUrl w q = (Error err, w1) ->
  getQueueURL b w q false = (Error err, b, w1).
Proof.
  intros Hq Hslash Hcache Hsdk. unfold getQueueURL.
  apply String.eqb_neq in Hq. rewrite Hq, Hslash.
  assert (Hmiss : match cache b !! q with
                  | Some u => if negb (String.eqb u EmptyString) then Some u else None
                  | None => None
                  end = None).
  { destruct (cache b !! q) as [u|]; [|reflexivity].
    by rewrite (Hcache u eq_refl). }
  rewrite Hmiss. unfold Client_GetQueueURL. by rewrite Hq, Hsdk.
Qed.

(** C9, amended: on an initialized backend, for a queue name that is not
    empty, has no '/', has no URL in the cache and for which the service
    answers the URL lookup with a queue-does-not-exist error, [Dequeue] and
    [Peek] return an empty message with ok=false and no error, [Size]
    returns 0 and no error, and [Clear] returns no error; the backend's
    caches are unchanged. *)
Theorem C9_absent_queue_is_no_error (b : SQSBackend) (w w1 : W) (q : string)
    (err : error) :
  is_Some (sqs b) ->
  q <> EmptyString ->
  strings_Contains q "/" = false ->
  (forall u, cache b !! q = Some u -> u = EmptyString) ->
  sdk_GetQueueUrl w q = (Error err, w1) ->
  isQueueDoesNotExistError err = true ->
  Dequeue b w q = (Ok (QueueMessage_zero, false), b, w1)
  /\ Peek b w q = (Ok (QueueMessage_zero, false), b, w1)
  /\ Size b w q = (Ok 0, b, w1)
  /\ Clear b w q = (None, b, w1).
Proof.
  intros [c Hc] Hq Hslash Hcache Hsdk Herr.
  pose proof (getQueueURL_absent b w w1 q err Hq Hslash Hcache Hsdk) as Hurl.
  unfold Dequeue, Peek, Size, Clear. rewrite Hc, Hurl, Herr. auto.
Qed.

(** C10: the receive request that [ReceiveMessages] sends asks for between
    1 and 10 messages: 1 when [maxMessages] is below 1, 10 when it is above
    10, and [maxMessages] itself otherwise; for a queue URL that is not
    empty this request is the one receive call made. *)
Theorem C10_receive_count_clamped (w : W) (queueURL : string) (maxMessages : Z)
    (autoDelete : bool) :
  let input := ReceiveMessages_input queueURL maxMessages autoDelete in
  1 <= MaxNumberOfMessages input <= 10
  /\ (maxMessages < 1 -> MaxNumberOfMessages input = 1)
  /\ (10 < maxMessages -> MaxNumberOfMessages input = 10)
  /\ (1 <= maxMessages <= 10 -> MaxNumberOfMessages input = maxMessages)
  /\ (queueURL <> EmptyString ->
      Client_ReceiveMessages w queueURL maxMessages autoDelete
      = match sdk_ReceiveMessage w input with
        | (Error err, w') => (Error (Wrap "receive message failed: " err), w')
        | (Ok out, w') => ReceiveMessages_output w' queueURL autoDelete out
        end).
Proof.
  intros input.
  assert (Hmax : MaxNumberOfMessages input
                 = if maxMessages <? 1 then 1
                   else if 10 <? maxMessages then 10 else maxMessages).
  { unfold input, ReceiveMessages_input. cbn [MaxNumberOfMessages].
    destruct (maxMessages <? 1); reflexivity. }
  rewrite Hmax.
  destruct (Z.ltb_spec maxMessages 1) as [Hlo|Hlo];
    [|destruct (Z.ltb_spec 10 maxMessages) as [Hhi|Hhi]];
    (split; [lia|]); (split; [lia|]); (split; [lia|]); (split; [lia|]);
    intros Hurl; unfold Client_ReceiveMessages;
    apply String.eqb_neq in Hurl; by rewrite Hurl.
Qed.
End Backend.

Import SimSQS.


Lemma C9_absent_queue_is_no_error_witness :
  Dequeue ready world0 "nope" = (Ok (QueueMessage_zero, false), ready, world0)
  /\ Peek ready world0 "nope" = (Ok (QueueMessage_zero, false), ready, world0)
  /\ Size ready world0 "nope" = (Ok 0, ready, world0)
  /\ Clear ready world0 "nope" = (None, ready, world0).
Proof.
  apply (C9_absent_queue_is_no_error ready world0 world0 "nope" QueueDoesNotExist).
  - by eexists.
  - discriminate.
  - reflexivity.
  - intros u Hu. vm_compute in Hu. discriminate Hu.
  - reflexivity.
  - reflexivity.
Defined.

(** C9, counterexample: no queue named a/b exists, and all four operations
    return an error for it: the name check of [getQueueURL] rejects a name
    with '/' before the service is asked. *)
Lemma C9_counterexample_nested_name :
  has_queue world0 "a/b" = false
  /\ (Dequeue ready world0 "a/b").1.1
     = Error (Wrap "dequeue get queue url failed: "
                (Errorf ("nested queue name " +:+ dq +:+ "a/b" +:+ dq
                           +:+ " is not supported by sqs backend")))
  /\ (Peek ready world0 "a/b").1.1
     = Error (Wrap "peek get queue url failed: "
                (Errorf ("nested queue name " +:+ dq +:+ "a/b" +:+ dq
                           +:+ " is not supported by sqs backend")))
  /\ (Size ready world0 "a/b").1.1
     = Error (Wrap "size get queue url failed: "
                (Errorf ("nested queue name " +:+ dq +:+ "a/b" +:+ dq
                           +:+ " is not supported by sqs backend")))
  /\ (Clear ready world0 "a/b").1.1
     = Some (Wrap "clear get queue url failed: "
               (Errorf ("nested queue name " +:+ dq +:+ "a/b" +:+ dq
                          +:+ " is not supported by sqs backend"))).
Proof. repeat split. Qed.

(** A URL that is still in the cache after the queue has gone: the
    service's error of the receive call comes back as it is. *)
Example stale_cache_dequeue_error :
  has_queue world0 "gone" = false
  /\ (Dequeue (with_maps ready {["gone" := url_of "gone"]} ∅) world0 "gone").1.1
     = Error (Wrap "receive message failed: " QueueDoesNotExist).
Proof. split; [reflexivity|]. vm_compute. reflexivity. Qed.

Lemma C10_receive_count_clamped_witness :
  MaxNumberOfMessages (ReceiveMessages_input (url_of "jobs") 25 true) = 10
  /\ MaxNumberOfMessages (ReceiveMessages_input (url_of "jobs") (-3) true) = 1
  /\ MaxNumberOfMessages (ReceiveMessages_input (url_of "jobs") 7 false) = 7.
Proof.
  destruct (C10_receive_count_clamped world0 (url_of "jobs") 25 true)
    as (_ & _ & Hhi & _).
  destruct (C10_receive_count_clamped world0 (url_of "jobs") (-3) true)
    as (_ & Hlo & _).
  destruct (C10_receive_count_clamped world0 (url_of "jobs") 7 false)
    as (_ & _ & _ & Hmid & _).
  split; [apply Hhi; lia|]. split; [apply Hlo; lia|]. apply Hmid; lia.
Defined.
End SQSFacts.

(** * Further properties of the code *)

(** ** The base64 decoder *)
Module Base64Facts.
Import CppSdk Base64Spec.

Lemma code_range (c : ascii) : 0 <= code c < 256.
Proof.
  unfold code. pose proof (N_ascii_bounded c) as Hc. lia.
Qed.

(** The guard [c >= 128] never holds for a signed [char]. *)
Lemma guard_never (c : ascii) : (128 <=? char_value c) = false.
Proof.
  apply Z.leb_gt. unfold char_value. pose proof (code_range c).
  destruct (Z.ltb_spec (code c) 128); lia.
Qed.

(** The read of the table: inside it for a byte below 0x80, before it
    for the others. *)
Lemma table_read (c : ascii) :
  table_at (char_value c)
  = if is_ascii c then Some (nth (Z.to_nat (code c)) base64_table 255) else None.
Proof.
  unfold table_at, char_value, is_ascii. pose proof (code_range c).
  destruct (Z.ltb_spec (code c) 128).
  - replace ((0 <=? code c) && (code c <? 128)) with true; [reflexivity|].
    symmetry. apply andb_true_iff. split; [apply Z.leb_le|apply Z.ltb_lt]; lia.
  - replace (0 <=? code c - 256) with false; [reflexivity|].
    symmetry. apply Z.leb_gt. lia.
Qed.

(** The table against the alphabet, character by character: a byte
    below 0x80 other than '=' has an entry below 64 if it is of the
    alphabet, and the entry 255 if it is not. *)
Lemma table_alphabet (c : ascii) :
  is_ascii c = true -> Ascii.eqb c "="%char = false ->
  (nth (Z.to_nat (code c)) base64_table 255 =? 255) = negb (in_alphabet c)
  /\ (in_alphabet c = true ->
      (0 <=? nth (Z.to_nat (code c)) base64_table 255) = true
      /\ (nth (Z.to_nat (code c)) base64_table 255 <? 64) = true).
Proof.
  destruct c as [[] [] [] [] [] [] [] []]; vm_compute; intros Ha He;
    try discriminate Ha; try discriminate He; (split; [reflexivity|]);
    intros Hin; try discriminate Hin; split; reflexivity.
Qed.

Lemma alphabet_ascii (c : ascii) :
  in_alphabet c = true -> is_ascii c = true /\ Ascii.eqb c "="%char = false.
Proof.
  destruct c as [[] [] [] [] [] [] [] []]; vm_compute; intros Hin;
    try discriminate Hin; split; reflexivity.
Qed.

(** One turn of the loop, by the kind of the character. *)
Lemma loop_high (c : ascii) (rest : list ascii) (buf bits : Z) (out : list byte) :
  Ascii.eqb c "="%char = false -> is_ascii c = false ->
  base64_loop (c :: rest) buf bits out = None.
Proof.
  intros He Ha. cbn [base64_loop]. by rewrite He, guard_never, table_read, Ha.
Qed.

Lemma loop_skip (c : ascii) (rest : list ascii) (buf bits : Z) (out : list byte) :
  Ascii.eqb c "="%char = false -> is_ascii c = true -> in_alphabet c = false ->
  base64_loop (c :: rest) buf bits out = base64_loop rest buf bits out.
Proof.
  intros He Ha Hin. cbn [base64_loop]. rewrite He, guard_never, table_read, Ha.
  destruct (table_alphabet c Ha He) as [-> _]. by rewrite Hin.
Qed.

Lemma loop_take (c : ascii) (rest : list ascii) (buf bits : Z) (out : list byte) :
  in_alphabet c = true ->
  exists v : Z,
    0 <= v < 64
    /\ nth (Z.to_nat (code c)) base64_table 255 = v
    /\ base64_loop (c :: rest) buf bits out
       = let buf' := u32 (Z.lor (Z.shiftl buf 6) v) in
         if 8 <=? bits + 6 then
           base64_loop rest (Z.land buf' (Z.shiftl 1 (bits + 6 - 8) - 1)) (bits + 6 - 8)
             (out ++ [byte_of_ascii
                        (ascii_of_N (Z.to_N (Z.land (Z.shiftr buf' (bits + 6 - 8)) 255)))])
         else base64_loop rest buf' (bits + 6) out.
Proof.
  intros Hin. destruct (alphabet_ascii c Hin) as [Ha He].
  destruct (table_alphabet c Ha He) as [H255 Hrange].
  destruct (Hrange Hin) as [Hlo Hhi]. apply Z.leb_le in Hlo. apply Z.ltb_lt in Hhi.
  exists (nth (Z.to_nat (code c)) base64_table 255).
  split; [lia|]. split; [reflexivity|].
  cbn [base64_loop]. rewrite He, guard_never, table_read, Ha, H255, Hin. reflexivity.
Qed.

Lemma sextet_char_decodes (v : Z) :
  0 <= v < 64 ->
  in_alphabet (sextet_char v) = true
  /\ nth (Z.to_nat (code (sextet_char v))) base64_table 255 = v.
Proof.
  intros Hv.
  assert (Hn : exists n : nat, (n < 64)%nat /\ v = Z.of_nat n)
    by (exists (Z.to_nat v); lia).
  destruct Hn as (n & Hn & ->).
  do 64 (destruct n as [|n]; [vm_compute; auto|]). lia.
Qed.

Lemma byte_of_value (b : byte) :
  byte_of_ascii (ascii_of_N (Z.to_N (byte_value b))) = b.
Proof.
  unfold byte_value. rewrite N2Z.id. destruct b; reflexivity.
Qed.

Lemma byte_value_range (b : byte) : 0 <= byte_value b < 256.
Proof.
  unfold byte_value. pose proof (Byte.to_N_bounded b) as Hb. lia.
Qed.

Lemma loop_sextet (rest : list ascii) (buf bits : Z) (out : list byte) (v : Z) :
  0 <= v < 64 ->
  base64_loop (sextet_char v :: rest) buf bits out
  = let buf' := u32 (Z.lor (Z.shiftl buf 6) v) in
    if 8 <=? bits + 6 then
      base64_loop rest (Z.land buf' (Z.shiftl 1 (bits + 6 - 8) - 1)) (bits + 6 - 8)
        (out ++ [byte_of_ascii
                   (ascii_of_N (Z.to_N (Z.land (Z.shiftr buf' (bits + 6 - 8)) 255)))])
    else base64_loop rest buf' (bits + 6) out.
Proof.
  intros Hv. destruct (sextet_char_decodes v Hv) as [Hin Htab].
  destruct (loop_take (sextet_char v) rest buf bits out Hin) as (v' & _ & Hv' & ->).
  by rewrite <- Hv', Htab.
Qed.

Lemma shifted_or (buf v : Z) :
  0 <= buf < 64 -> 0 <= v < 64 -> u32 (Z.lor (Z.shiftl buf 6) v) = buf * 64 + v.
Proof.
  intros Hb Hv. rewrite Z.lor_comm, (PackingFacts.lor_shiftl_sum v buf 6) by lia.
  unfold u32. rewrite Z.mod_small; lia.
Qed.

(** The first character of a group: six bits are kept. *)
Lemma loop_first (rest : list ascii) (out : list byte) (v : Z) :
  0 <= v < 64 ->
  base64_loop (sextet_char v :: rest) 0 0 out = base64_loop rest v 6 out.
Proof.
  intros Hv. rewrite (loop_sextet rest 0 0 out v Hv). cbv zeta.
  rewrite shifted_or by lia. reflexivity.
Qed.

(** A later character of a group, with [k] bits kept so far: one byte
    is written and [k - 2] bits are kept. *)
Lemma loop_later (rest : list ascii) (buf k : Z) (out : list byte) (v : Z) :
  k = 2 \/ k = 4 \/ k = 6 ->
  0 <= buf < 2 ^ k -> 0 <= v < 64 ->
  base64_loop (sextet_char v :: rest) buf k out
  = base64_loop rest ((buf * 64 + v) mod 2 ^ (k - 2)) (k - 2)
      (out ++ [byte_of_ascii (ascii_of_N (Z.to_N ((buf * 64 + v) / 2 ^ (k - 2))))]).
Proof.
  intros Hk Hb Hv. rewrite (loop_sextet rest buf k out v Hv). cbv zeta.
  assert (Hb64 : 0 <= buf < 64) by (destruct Hk as [-> | [-> | ->]]; lia).
  rewrite shifted_or by lia.
  replace (8 <=? k + 6) with true by (symmetry; apply Z.leb_le; lia).
  replace (k + 6 - 8) with (k - 2) by lia.
  assert (Hland : Z.land (buf * 64 + v) (Z.shiftl 1 (k - 2) - 1)
                  = (buf * 64 + v) mod 2 ^ (k - 2)).
  { replace (Z.shiftl 1 (k - 2) - 1) with (Z.ones (k - 2))
      by (rewrite Z.ones_equiv, Z.shiftl_1_l; lia).
    apply Z.land_ones. lia. }
  assert (Hbyte : Z.land (Z.shiftr (buf * 64 + v) (k - 2)) 255
                  = (buf * 64 + v) / 2 ^ (k - 2)).
  { rewrite Z.shiftr_div_pow2 by lia. change 255 with (Z.ones 8).
    rewrite Z.land_ones by lia. apply Z.mod_small.
    destruct Hk as [-> | [-> | ->]]; cbn in *; split;
      try (apply Z.div_pos; lia); apply Z.div_lt_upper_bound; lia. }
  rewrite Hland, Hbyte. reflexivity.
Qed.

(** The arithmetic of one group, for byte values [n1 n2 n3]. *)
Lemma group_arith (n1 n2 n3 : Z) :
  0 <= n1 < 256 -> 0 <= n2 < 256 -> 0 <= n3 < 256 ->
  let v1 := n1 / 4 in
  let v2 := n1 mod 4 * 16 + n2 / 16 in
  let v3 := n2 mod 16 * 4 + n3 / 64 in
  let v4 := n3 mod 64 in
  (0 <= v1 < 64 /\ 0 <= v2 < 64 /\ 0 <= v3 < 64 /\ 0 <= v4 < 64)
  /\ ((v1 * 64 + v2) / 2 ^ (6 - 2) = n1 /\ (v1 * 64 + v2) mod 2 ^ (6 - 2) = n2 / 16)
  /\ ((n2 / 16 * 64 + v3) / 2 ^ (4 - 2) = n2
      /\ (n2 / 16 * 64 + v3) mod 2 ^ (4 - 2) = n3 / 64)
  /\ ((n3 / 64 * 64 + v4) / 2 ^ (2 - 2) = n3
      /\ (n3 / 64 * 64 + v4) mod 2 ^ (2 - 2) = 0).
Proof.
  intros H1 H2 H3. cbv zeta.
  change (2 ^ (6 - 2)) with 16. change (2 ^ (4 - 2)) with 4. change (2 ^ (2 - 2)) with 1.
  repeat split; divmod.
Qed.

Lemma loop_group (b1 b2 b3 : byte) (rest : list ascii) (out : list byte) :
  base64_loop
    (sextet_char (byte_value b1 / 4)
     :: sextet_char (byte_value b1 mod 4 * 16 + byte_value b2 / 16)
     :: sextet_char (byte_value b2 mod 16 * 4 + byte_value b3 / 64)
     :: sextet_char (byte_value b3 mod 64) :: rest) 0 0 out
  = base64_loop rest 0 0 (out ++ [b1; b2; b3]).
Proof.
  pose proof (byte_value_range b1) as H1. pose proof (byte_value_range b2) as H2.
  pose proof (byte_value_range b3) as H3.
  destruct (group_arith _ _ _ H1 H2 H3)
    as ((Hv1 & Hv2 & Hv3 & Hv4) & (Hq1 & Hr1) & (Hq2 & Hr2) & (Hq3 & Hr3)).
  assert (Hk6 : 0 <= byte_value b1 / 4 < 2 ^ 6) by (change (2 ^ 6) with 64; lia).
  assert (Hk4 : 0 <= byte_value b2 / 16 < 2 ^ 4) by (change (2 ^ 4) with 16; divmod).
  assert (Hk2 : 0 <= byte_value b3 / 64 < 2 ^ 2) by (change (2 ^ 2) with 4; divmod).
  rewrite (loop_first _ _ _ Hv1).
  rewrite (loop_later _ _ 6 _ _ (or_intror (or_intror eq_refl)) Hk6 Hv2).
  rewrite Hq1, Hr1, byte_of_value.
  rewrite (loop_later _ _ 4 _ _ (or_intror (or_introl eq_refl)) Hk4 Hv3).
  rewrite Hq2, Hr2, byte_of_value.
  rewrite (loop_later _ _ 2 _ _ (or_introl eq_refl) Hk2 Hv4).
  rewrite Hq3, Hr3, byte_of_value.
  change (2 - 2) with 0. rewrite <- !app_assoc. reflexivity.
Qed.

Lemma loop_stop (rest : list ascii) (buf bits : Z) (out : list byte) :
  base64_loop ("="%char :: rest) buf bits out = Some out.
Proof. reflexivity. Qed.

Lemma loop_tail1 (b1 : byte) (out : list byte) :
  base64_loop
    [sextet_char (byte_value b1 / 4); sextet_char (byte_value b1 mod 4 * 16);
     "="%char; "="%char] 0 0 out
  = Some (out ++ [b1])%list.
Proof.
  pose proof (byte_value_range b1) as H1.
  assert (Hzero : 0 <= 0 < 256) by lia.
  destruct (group_arith _ _ _ H1 Hzero Hzero) as ((Hv1 & Hv2 & _) & (Hq1 & Hr1) & _).
  change (0 / 16) with 0 in *. rewrite Z.add_0_r in *.
  assert (Hk6 : 0 <= byte_value b1 / 4 < 2 ^ 6) by (change (2 ^ 6) with 64; lia).
  rewrite (loop_first _ _ _ Hv1).
  rewrite (loop_later _ _ 6 _ _ (or_intror (or_intror eq_refl)) Hk6 Hv2).
  rewrite Hq1, byte_of_value. apply loop_stop.
Qed.

Lemma loop_tail2 (b1 b2 : byte) (out : list byte) :
  base64_loop
    [sextet_char (byte_value b1 / 4);
     sextet_char (byte_value b1 mod 4 * 16 + byte_value b2 / 16);
     sextet_char (byte_value b2 mod 16 * 4); "="%char] 0 0 out
  = Some (out ++ [b1; b2])%list.
Proof.
  pose proof (byte_value_range b1) as H1. pose proof (byte_value_range b2) as H2.
  assert (Hzero : 0 <= 0 < 256) by lia.
  destruct (group_arith _ _ _ H1 H2 Hzero)
    as ((Hv1 & Hv2 & Hv3 & _) & (Hq1 & Hr1) & (Hq2 & Hr2) & _).
  change (0 / 64) with 0 in *. rewrite Z.add_0_r in *.
  assert (Hk6 : 0 <= byte_value b1 / 4 < 2 ^ 6) by (change (2 ^ 6) with 64; lia).
  assert (Hk4 : 0 <= byte_value b2 / 16 < 2 ^ 4) by (change (2 ^ 4) with 16; divmod).
  rewrite (loop_first _ _ _ Hv1).
  rewrite (loop_later _ _ 6 _ _ (or_intror (or_intror eq_refl)) Hk6 Hv2).
  rewrite Hq1, Hr1, byte_of_value.
  rewrite (loop_later _ _ 4 _ _ (or_intror (or_introl eq_refl)) Hk4 Hv3).
  rewrite Hq2, byte_of_value, <- app_assoc. apply loop_stop.
Qed.

Lemma loop_encode (n : nat) (bs : list byte) (out : list byte) :
  (length bs <= n)%nat ->
  base64_loop (encode bs) 0 0 out = Some (out ++ bs)%list.
Proof.
  revert bs out. induction n as [|n IH]; intros bs out Hlen.
  - destruct bs; [by rewrite app_nil_r|cbn in Hlen; lia].
  - destruct bs as [|b1 [|b2 [|b3 rest]]].
    + by rewrite app_nil_r.
    + apply loop_tail1.
    + apply loop_tail2.
    + cbn [encode]. rewrite loop_group, IH by (cbn in Hlen; lia).
      by rewrite <- app_assoc.
Qed.

Lemma decode_loop (s : string) :
  base64_decode s = base64_loop (list_ascii_of_string s) 0 0 [].
Proof.
  unfold base64_decode. destruct (String.eqb_spec s EmptyString) as [->|_]; reflexivity.
Qed.

(** Decoding undoes the standard encoding. *)
Lemma decode_encode (bs : list byte) :
  base64_decode (base64_encode bs) = Some bs.
Proof.
  rewrite decode_loop. unfold base64_encode.
  rewrite list_ascii_of_string_of_list_ascii.
  apply (loop_encode (length bs) bs []). lia.
Qed.

(** X1: [base64_decode] is a left inverse of the standard base64
    encoding with padding (RFC 4648): decoding the encoding of any byte
    sequence is defined and gives the sequence back. *)
Theorem X1_base64_decode_encode (bs : list byte) :
  base64_decode (base64_encode bs) = Some bs.
Proof. exact (decode_encode bs). Qed.

(** The encoder on two known texts. *)
Example encode_known :
  base64_encode (RustSdk.bytes_of "Man") = "TWFu"
  /\ base64_encode (RustSdk.bytes_of "hello") = "aGVsbG8=".
Proof. split; reflexivity. Qed.

(** A byte from 0x80 on before the first '=' is read as a negative
    index of the table. *)
Lemma loop_undefined (input : list ascii) (buf bits : Z) (out : list byte) :
  readable input = false -> base64_loop input buf bits out = None.
Proof.
  revert buf bits out. induction input as [|c rest IH]; intros buf bits out;
    [discriminate|].
  cbn [readable]. destruct (Ascii.eqb c "="%char) eqn:He; [discriminate|].
  destruct (is_ascii c) eqn:Ha; cbn [andb]; [|intros _; by apply loop_high].
  intros Hrest. destruct (in_alphabet c) eqn:Hin.
  - destruct (loop_take c rest buf bits out Hin) as (v & _ & _ & ->). cbv zeta.
    destruct (8 <=? bits + 6); by apply IH.
  - rewrite loop_skip by done. by apply IH.
Qed.

Lemma loop_payload (input : list ascii) (buf bits : Z) (out : list byte) :
  readable input = true ->
  base64_loop input buf bits out = base64_loop (payload input) buf bits out.
Proof.
  revert buf bits out. induction input as [|c rest IH]; intros buf bits out;
    [reflexivity|].
  cbn [readable payload]. destruct (Ascii.eqb c "="%char) eqn:He.
  { intros _. cbn [base64_loop]. by rewrite He. }
  destruct (is_ascii c) eqn:Ha; cbn [andb]; [|discriminate].
  intros Hrest. destruct (in_alphabet c) eqn:Hin.
  - destruct (loop_take c rest buf bits out Hin) as (v & _ & Hv & ->).
    destruct (loop_take c (payload rest) buf bits out Hin) as (v' & _ & Hv' & ->).
    rewrite <- Hv, <- Hv'. cbv zeta. destruct (8 <=? bits + 6); by apply IH.
  - rewrite loop_skip by done. by apply IH.
Qed.

(** On the characters of the alphabet alone the loop is defined, and
    writes one byte for every eight bits. *)
Lemma loop_length (input : list ascii) (buf bits : Z) (out : list byte) :
  forallb in_alphabet input = true -> 0 <= bits < 8 ->
  exists bs : list byte,
    base64_loop input buf bits out = Some bs
    /\ Z.of_nat (length bs)
       = Z.of_nat (length out) + (bits + 6 * Z.of_nat (length input)) / 8.
Proof.
  revert buf bits out. induction input as [|c rest IH]; intros buf bits out Hall Hbits.
  - exists out. split; [reflexivity|]. cbn [length Z.of_nat]. rewrite Z.div_small; lia.
  - cbn [forallb] in Hall. apply andb_true_iff in Hall as [Hin Hall].
    destruct (loop_take c rest buf bits out Hin) as (v & _ & _ & ->). cbv zeta.
    cbn [length]. rewrite Nat2Z.inj_succ.
    destruct (Z.leb_spec 8 (bits + 6)) as [Hge|Hlt].
    + match goal with |- context [base64_loop rest ?b ?k ?o] =>
        destruct (IH b k o Hall) as (bs & -> & Hlen); [lia|] end.
      exists bs. split; [reflexivity|]. rewrite Hlen, length_app. cbn [length].
      rewrite Nat2Z.inj_add. cbn [Z.of_nat]. divmod.
    + match goal with |- context [base64_loop rest ?b ?k ?o] =>
        destruct (IH b k o Hall) as (bs & -> & Hlen); [lia|] end.
      exists bs. split; [reflexivity|]. rewrite Hlen. divmod.
Qed.

Lemma payload_alphabet (input : list ascii) : forallb in_alphabet (payload input) = true.
Proof.
  induction input as [|c rest IH]; [reflexivity|]. cbn [payload].
  destruct (Ascii.eqb c "="%char); [reflexivity|].
  destruct (in_alphabet c) eqn:Hin; [|exact IH]. cbn [forallb]. by rewrite Hin, IH.
Qed.

Lemma payload_app_skip (l1 l2 : list ascii) (c : ascii) :
  in_alphabet c = false -> c <> "="%char ->
  payload (l1 ++ c :: l2) = payload (l1 ++ l2).
Proof.
  intros Hc Hne. induction l1 as [|d l1 IH]; cbn [app payload].
  - apply Ascii.eqb_neq in Hne. by rewrite Hne, Hc.
  - by rewrite IH.
Qed.

Lemma payload_app_stop (l1 l2 : list ascii) :
  payload (l1 ++ "="%char :: l2) = payload l1.
Proof.
  induction l1 as [|d l1 IH]; cbn [app payload]; [reflexivity|]. by rewrite IH.
Qed.

Lemma readable_app_skip (l1 l2 : list ascii) (c : ascii) :
  is_ascii c = true -> c <> "="%char ->
  readable (l1 ++ c :: l2) = readable (l1 ++ l2).
Proof.
  intros Hc Hne. induction l1 as [|d l1 IH]; cbn [app readable].
  - apply Ascii.eqb_neq in Hne. by rewrite Hne, Hc.
  - by rewrite IH.
Qed.

Lemma readable_app_stop (l1 l2 : list ascii) :
  readable (l1 ++ "="%char :: l2) = readable l1.
Proof.
  induction l1 as [|d l1 IH]; cbn [app readable]; [reflexivity|].
  rewrite IH. by destruct (Ascii.eqb d "="%char), (is_ascii d), (readable l1).
Qed.

Lemma list_ascii_app (s1 s2 : string) :
  list_ascii_of_string (s1 +:+ s2)
  = (list_ascii_of_string s1 ++ list_ascii_of_string s2)%list.
Proof.
  induction s1 as [|c s1 IH]; [reflexivity|].
  rewrite StringFacts.append_cons. cbn. by rewrite IH.
Qed.

(** The decoder is a function of what is readable and of the payload. *)
Lemma decode_same (s1 s2 : string) :
  readable (list_ascii_of_string s1) = readable (list_ascii_of_string s2) ->
  payload (list_ascii_of_string s1) = payload (list_ascii_of_string s2) ->
  base64_decode s1 = base64_decode s2.
Proof.
  intros Hr Hp. rewrite !decode_loop.
  destruct (readable (list_ascii_of_string s2)) eqn:H2.
  - rewrite (loop_payload (list_ascii_of_string s1)) by exact Hr.
    rewrite (loop_payload (list_ascii_of_string s2)) by exact H2.
    by rewrite Hp.
  - by rewrite !loop_undefined.
Qed.

(** X2: [base64_decode] reads only the characters A-Z, a-z, 0-9, + and /
    that come before the first '='.  It is defined exactly when no byte
    from 0x80 on comes before the first '=': such a byte is a negative
    [char], which the guard [c >= 128] lets pass and which indexes the
    table before its start.  Two readable inputs with the same alphabet
    characters before the first '=' decode to the same bytes; a byte
    below 0x80 that is not of the alphabet (a line break, a space) is
    skipped wherever it stands; and everything from the first '=' on is
    ignored. *)
Theorem X2_base64_decode_payload :
  (forall s : string,
     is_Some (base64_decode s) <-> readable (list_ascii_of_string s) = true)
  /\ (forall s1 s2 : string,
       readable (list_ascii_of_string s1) = true ->
       readable (list_ascii_of_string s2) = true ->
       payload (list_ascii_of_string s1) = payload (list_ascii_of_string s2) ->
       base64_decode s1 = base64_decode s2)
  /\ (forall (s1 s2 : string) (c : ascii),
       is_ascii c = true -> in_alphabet c = false -> c <> "="%char ->
       base64_decode (s1 +:+ String c s2) = base64_decode (s1 +:+ s2))
  /\ (forall s1 s2 : string,
       base64_decode (s1 +:+ String "="%char s2) = base64_decode s1).
Proof.
  split; [|split; [|split]].
  - intros s. rewrite decode_loop. split.
    + intros [bs Hbs]. destruct (readable (list_ascii_of_string s)) eqn:Hr;
        [reflexivity|]. by rewrite loop_undefined in Hbs.
    + intros Hr. rewrite loop_payload by exact Hr.
      destruct (loop_length (payload (list_ascii_of_string s)) 0 0 []
                  (payload_alphabet _)) as (bs & -> & _); [lia|]. by exists bs.
  - intros s1 s2 H1 H2 Hp. apply decode_same; [by rewrite H1, H2|exact Hp].
  - intros s1 s2 c Ha Hc Hne. apply decode_same; rewrite !list_ascii_app;
      cbn [list_ascii_of_string];
      [by apply readable_app_skip|by apply payload_app_skip].
  - intros s1 s2. apply decode_same; rewrite list_ascii_app;
      cbn [list_ascii_of_string]; [apply readable_app_stop|apply payload_app_stop].
Qed.

(** X3: on an input without a byte from 0x80 on before its first '=',
    [base64_decode] is defined and returns floor(3n/4) bytes, where n is
    the number of alphabet characters before the first '='; bits left
    over at the end are dropped. *)
Theorem X3_base64_decode_length (s : string) :
  readable (list_ascii_of_string s) = true ->
  exists bs : list byte,
    base64_decode s = Some bs
    /\ Z.of_nat (length bs)
       = 3 * Z.of_nat (length (payload (list_ascii_of_string s))) / 4.
Proof.
  intros Hr. rewrite decode_loop, loop_payload by exact Hr.
  destruct (loop_length (payload (list_ascii_of_string s)) 0 0 []
              (payload_alphabet _)) as (bs & Hbs & Hlen); [lia|].
  exists bs. split; [exact Hbs|]. rewrite Hlen. cbn [length Z.of_nat]. divmod.
Qed.

Lemma X2_base64_decode_payload_witness :
  base64_decode ("aGVs" +:+ String "010"%char "bG8=") = base64_decode ("aGVs" +:+ "bG8=")
  /\ base64_decode ("aGVsbG8" +:+ String "="%char "!!") = base64_decode "aGVsbG8"
  /\ ~ is_Some (base64_decode (String "195"%char (String "169"%char "aGVsbG8="))).
Proof.
  destruct X2_base64_decode_payload as (Hdef & _ & Hskip & Hstop). split; [|split].
  - apply (Hskip "aGVs" "bG8=" "010"%char); [reflexivity|reflexivity|discriminate].
  - apply (Hstop "aGVsbG8" "!!").
  - intros Hsome. apply Hdef in Hsome. vm_compute in Hsome. discriminate Hsome.
Defined.

Lemma X3_base64_decode_length_witness :
  exists bs : list byte,
    base64_decode "aGVsbG8=" = Some bs
    /\ Z.of_nat (length bs)
       = 3 * Z.of_nat (length (payload (list_ascii_of_string "aGVsbG8="))) / 4.
Proof. apply (X3_base64_decode_length "aGVsbG8="). reflexivity. Defined.
End Base64Facts.

(** ** The ordered header map *)
Module HeaderFacts.
Import CppSdk Envelope HeaderSpec.

Lemma compare_refl (s : string) : String.compare s s = Eq.
Proof.
  pose proof (String.compare_antisym s s) as H.
  destruct (String.compare s s); [reflexivity|discriminate H..].
Qed.

Lemma compare_gt_lt (a b : string) : String.compare a b = Gt -> String.compare b a = Lt.
Proof. intros H. rewrite String.compare_antisym, H. reflexivity. Qed.

Lemma compare_lt_trans (a b c : string) :
  String.compare a b = Lt -> String.compare b c = Lt -> String.compare a c = Lt.
Proof.
  intros Hab Hbc.
  assert (Hle : String.le a c).
  { transitivity b; unfold String.le, String.leb; [by rewrite Hab|by rewrite Hbc]. }
  destruct (String.compare a c) eqn:Hac; [|reflexivity|].
  - apply String.compare_eq_iff in Hac as ->.
    rewrite String.compare_antisym, Hab in Hbc. discriminate.
  - unfold String.le, String.leb in Hle. rewrite Hac in Hle. destruct Hle.
Qed.

Lemma get_set (m : strmap) (k v k' : string) :
  strmap_get (strmap_set m k v) k'
  = if String.eqb k k' then Some v else strmap_get m k'.
Proof.
  induction m as [|[k0 v0] m IH]; cbn [strmap_set strmap_get]; [reflexivity|].
  destruct (String.compare k k0) eqn:Hc; cbn [strmap_get].
  - apply String.compare_eq_iff in Hc as ->. by destruct (String.eqb k0 k').
  - reflexivity.
  - rewrite IH. destruct (String.eqb_spec k0 k') as [->|_]; [|reflexivity].
    destruct (String.eqb_spec k k') as [->|_]; [|reflexivity].
    by rewrite compare_refl in Hc.
Qed.

Lemma set_above (k0 k v : string) (m : strmap) :
  String.compare k0 k = Lt ->
  Forall (fun kv => String.compare k0 kv.1 = Lt) m ->
  Forall (fun kv => String.compare k0 kv.1 = Lt) (strmap_set m k v).
Proof.
  intros Hk. induction m as [|[k1 v1] m IH]; intros Hall; cbn [strmap_set].
  - by constructor.
  - apply Forall_cons in Hall as [H1 Hall].
    destruct (String.compare k k1); repeat (constructor; try assumption).
    by apply IH.
Qed.

Lemma set_ascending (m : strmap) (k v : string) :
  keys_ascending m -> keys_ascending (strmap_set m k v).
Proof.
  induction m as [|[k0 v0] m IH]; intros Hasc; cbn [strmap_set].
  - cbn. auto.
  - destruct Hasc as [Hall Hasc]. destruct (String.compare k k0) eqn:Hc.
    + cbn. auto.
    + cbn [keys_ascending]. split; [|by split].
      constructor; [exact Hc|].
      eapply Forall_impl; [exact Hall|]. intros kv Hkv. cbn beta in *.
      by apply (compare_lt_trans k k0).
    + cbn [keys_ascending]. split; [|by apply IH].
      apply set_above; [by apply compare_gt_lt|exact Hall].
Qed.

Lemma get_above (k : string) (m : strmap) :
  Forall (fun kv => String.compare k kv.1 = Lt) m -> strmap_get m k = None.
Proof.
  induction m as [|[k0 v0] m IH]; intros Hall; [reflexivity|].
  apply Forall_cons in Hall as [H1 Hall]. cbn [strmap_get fst] in *.
  destruct (String.eqb_spec k0 k) as [->|_]; [|by apply IH].
  by rewrite compare_refl in H1.
Qed.

(** Ordered maps with the same contents are the same list. *)
Lemma ascending_ext (m1 m2 : strmap) :
  keys_ascending m1 -> keys_ascending m2 ->
  (forall k, strmap_get m1 k = strmap_get m2 k) -> m1 = m2.
Proof.
  revert m2. induction m1 as [|[k1 v1] m1 IH]; intros [|[k2 v2] m2] H1 H2 Hget.
  - reflexivity.
  - specialize (Hget k2). cbn in Hget. by rewrite String.eqb_refl in Hget.
  - specialize (Hget k1). cbn in Hget. by rewrite String.eqb_refl in Hget.
  - destruct H1 as [Hall1 H1], H2 as [Hall2 H2].
    assert (Hk : k1 = k2).
    { destruct (String.compare k1 k2) eqn:Hc.
      - by apply String.compare_eq_iff.
      - specialize (Hget k1). cbn [strmap_get] in Hget.
        rewrite String.eqb_refl in Hget.
        destruct (String.eqb_spec k2 k1) as [->|_]; [reflexivity|].
        rewrite get_above in Hget; [discriminate|].
        eapply Forall_impl; [exact Hall2|]. intros kv Hkv. cbn beta in *.
        by apply (compare_lt_trans k1 k2).
      - apply compare_gt_lt in Hc. specialize (Hget k2). cbn [strmap_get] in Hget.
        rewrite String.eqb_refl in Hget.
        destruct (String.eqb_spec k1 k2) as [->|_]; [reflexivity|].
        rewrite get_above in Hget; [discriminate|].
        eapply Forall_impl; [exact Hall1|]. intros kv Hkv. cbn beta in *.
        by apply (compare_lt_trans k2 k1). }
    subst k2.
    assert (Hv : v1 = v2).
    { specialize (Hget k1). cbn in Hget. rewrite String.eqb_refl in Hget. congruence. }
    subst v2. f_equal. apply IH; [exact H1|exact H2|].
    intros k. specialize (Hget k). cbn [strmap_get] in Hget.
    destruct (String.eqb_spec k1 k) as [->|_]; [|exact Hget].
    by rewrite !get_above.
Qed.

Lemma set_set_same (m : strmap) (k v1 v2 : string) :
  strmap_set (strmap_set m k v1) k v2 = strmap_set m k v2.
Proof.
  induction m as [|[k0 v0] m IH]; cbn [strmap_set].
  - by rewrite compare_refl.
  - destruct (String.compare k k0) eqn:Hc; cbn [strmap_set].
    + by rewrite Hc.
    + by rewrite compare_refl.
    + by rewrite Hc, IH.
Qed.

Lemma set_set_commute (m : strmap) (k1 v1 k2 v2 : string) :
  keys_ascending m -> k1 <> k2 ->
  strmap_set (strmap_set m k1 v1) k2 v2 = strmap_set (strmap_set m k2 v2) k1 v1.
Proof.
  intros Hasc Hne. apply ascending_ext; try by do 2 apply set_ascending.
  intros k. rewrite !get_set.
  destruct (String.eqb_spec k2 k) as [->|_], (String.eqb_spec k1 k) as [->|_];
    congruence.
Qed.

Lemma built_headers_ascending (u : string) (start : HttpRequest) (cs : list BuilderCall) :
  In start (fresh_requests u) -> keys_ascending (headers (apply_calls start cs)).
Proof.
  intros Hfresh.
  assert (Hstart : keys_ascending (headers start)).
  { unfold fresh_requests in Hfresh. cbn [In] in Hfresh.
    destruct Hfresh as [<-|[<-|[<-|[<-|[<-|[]]]]]]; exact I. }
  clear Hfresh. revert start Hstart. unfold apply_calls.
  induction cs as [|c cs IH]; intros start Hstart; [exact Hstart|].
  cbn [fold_left]. apply IH. destruct c; cbn; try exact Hstart.
  by apply set_ascending.
Qed.
End HeaderFacts.

(** ** [atoi] on printed integers *)
Module AtoiFacts.
Import CppSdk ResponseSpec StringFacts.

Lemma atoi_digits_stop (s : string) (acc : Z) :
  starts_with_digit s = false -> atoi_digits s acc = acc.
Proof. destruct s as [|c s]; [reflexivity|]. cbn. by intros ->. Qed.

Lemma atoi_digits_uint (d : Decimal.uint) (tail : string) (acc : Z) :
  atoi_digits (NilEmpty.string_of_uint d +:+ tail) acc
  = atoi_digits tail (uint_value d acc).
Proof.
  revert acc. induction d; intros acc; cbn [NilEmpty.string_of_uint uint_value];
    [reflexivity|..]; rewrite append_cons; cbn [atoi_digits];
    change (isdigit _) with true; cbn match; rewrite IHd; reflexivity.
Qed.

Lemma uint_value_pos (d : Decimal.uint) (a : positive) :
  uint_value d (Z.pos a) = Z.pos (Pos.of_uint_acc d a).
Proof.
  revert a. induction d; intros a; cbn [uint_value Pos.of_uint_acc];
    [reflexivity|..];
    match goal with
    | |- uint_value _ ?x = Z.pos (Pos.of_uint_acc _ ?y) =>
        replace x with (Z.pos y) by lia
    end; apply IHd.
Qed.

Lemma uint_value_zero (d : Decimal.uint) :
  uint_value d 0 = Z.of_N (Pos.of_uint d).
Proof.
  induction d; cbn [uint_value Pos.of_uint]; [reflexivity|exact IHd|..];
    match goal with
    | |- uint_value _ ?x = Z.of_N (N.pos (Pos.of_uint_acc _ ?y)) =>
        change x with (Z.pos y)
    end; apply uint_value_pos.
Qed.

Lemma string_of_uint_nonnil (d : Decimal.uint) :
  d <> Decimal.Nil -> NilZero.string_of_uint d = NilEmpty.string_of_uint d.
Proof. by destruct d. Qed.

(** A printed natural number starts with a digit. *)
Lemma printed_head (d : Decimal.uint) (tail : string) :
  d <> Decimal.Nil ->
  exists c rest, NilEmpty.string_of_uint d +:+ tail = String c rest /\ isdigit c = true.
Proof.
  destruct d; [done|..]; intros _; cbn [NilEmpty.string_of_uint];
    rewrite append_cons; eexists _, _; (split; [reflexivity|reflexivity]).
Qed.

Lemma digit_not_space_sign (c : ascii) :
  isdigit c = true ->
  isspace c = false /\ Ascii.eqb c "-"%char = false /\ Ascii.eqb c "+"%char = false
  /\ Ascii.eqb c " "%char = false /\ Ascii.eqb c ":"%char = false.
Proof.
  unfold isdigit, isspace. intros H. apply andb_true_iff in H as [H1 H2].
  apply Z.leb_le in H1, H2.
  assert (Hne : forall d : ascii, code d < 48 \/ 57 < code d -> Ascii.eqb c d = false).
  { intros d Hd. apply Ascii.eqb_neq. intros ->. lia. }
  repeat split; try (apply Hne; vm_compute; intuition congruence).
  apply orb_false_iff. split; [apply Z.eqb_neq; lia|].
  apply andb_false_iff. right. apply Z.leb_gt. lia.
Qed.

Lemma atoi_value_to_string (z : Z) (tail : string) :
  starts_with_digit tail = false -> atoi_value (to_string z +:+ tail) = z.
Proof.
  intros Htail. unfold to_string. destruct z as [|p|p]; cbn [Z.to_int NilZero.string_of_int].
  - change (NilZero.string_of_uint (Decimal.D0 Decimal.Nil) +:+ tail)
      with (String "0"%char tail).
    cbn [atoi_value atoi_digits]. change (isspace "0") with false.
    change (Ascii.eqb "0" "-") with false. change (Ascii.eqb "0" "+") with false.
    change (isdigit "0") with true. cbn match.
    by apply atoi_digits_stop.
  - rewrite string_of_uint_nonnil by apply Unsigned.to_uint_nonnil.
    destruct (printed_head (Pos.to_uint p) tail (Unsigned.to_uint_nonnil p))
      as (c & rest & Heq & Hc).
    destruct (digit_not_space_sign c Hc) as (Hsp & Hm & Hp & _).
    assert (Hatoi : atoi_value (String c rest) = atoi_digits (String c rest) 0).
    { cbn [atoi_value]. by rewrite Hsp, Hm, Hp. }
    rewrite Heq, Hatoi, <- Heq, atoi_digits_uint, uint_value_zero, Unsigned.of_to.
    by apply atoi_digits_stop.
  - rewrite string_of_uint_nonnil by apply Unsigned.to_uint_nonnil.
    rewrite append_cons. cbn [atoi_value]. change (isspace "-") with false.
    change (Ascii.eqb "-" "-") with true. cbn match.
    rewrite atoi_digits_uint, uint_value_zero, Unsigned.of_to.
    rewrite atoi_digits_stop by exact Htail. reflexivity.
Qed.

(** [atoi] reads back what [std::to_string] prints for an [int]. *)
Lemma atoi_to_string (z : Z) (tail : string) :
  starts_with_digit tail = false -> INT_MIN <= z <= INT_MAX ->
  atoi (to_string z +:+ tail) = Some z.
Proof.
  intros Htail Hz. unfold atoi. rewrite atoi_value_to_string by exact Htail.
  replace ((INT_MIN <=? z) && (z <=? INT_MAX)) with true; [reflexivity|].
  symmetry. apply andb_true_iff. split; apply Z.leb_le; lia.
Qed.
End AtoiFacts.

(** ** Searching a text *)
Module IndexFacts.
Import CppSdk ResponseSpec StringFacts.

Lemma prefix_head_ne (p0 c : ascii) (prest s : string) :
  c <> p0 -> String.prefix (String p0 prest) (String c s) = false.
Proof. intros Hne. cbn [String.prefix]. destruct (ascii_dec p0 c); congruence. Qed.

Lemma index_next (pat s : string) (c : ascii) :
  String.prefix pat (String c s) = false ->
  String.index 0 pat (String c s) = option_map S (String.index 0 pat s).
Proof.
  intros Hp. cbn [String.index]. rewrite Hp. by destruct (String.index 0 pat s).
Qed.

Lemma index_here (pat s : string) (c : ascii) :
  String.prefix pat (String c s) = true -> String.index 0 pat (String c s) = Some 0%nat.
Proof. intros Hp. cbn [String.index]. by rewrite Hp. Qed.

Lemma option_map_add (n : nat) (o : option nat) :
  option_map S (option_map (Nat.add n) o) = option_map (Nat.add (S n)) o.
Proof. by destruct o. Qed.

(** A stretch of text without the first character of the pattern is
    passed over. *)
Lemma index_skip_segment (p0 : ascii) (prest seg rest : string) :
  forallb (fun c => negb (Ascii.eqb c p0)) (list_ascii_of_string seg) = true ->
  String.index 0 (String p0 prest) (seg +:+ rest)
  = option_map (Nat.add (String.length seg)) (String.index 0 (String p0 prest) rest).
Proof.
  induction seg as [|c seg IH]; intros Hseg.
  - rewrite append_nil_l. by destruct (String.index 0 _ rest).
  - cbn [list_ascii_of_string forallb] in Hseg. apply andb_true_iff in Hseg as [Hc Hseg].
    apply negb_true_iff, Ascii.eqb_neq in Hc.
    rewrite append_cons. rewrite index_next; [|by apply prefix_head_ne].
    rewrite IH by exact Hseg. apply option_map_add.
Qed.

(** The first character fits, the second does not. *)
Lemma index_skip_second (p0 p1 c1 : ascii) (prest s : string) :
  c1 <> p1 ->
  String.index 0 (String p0 (String p1 prest)) (String p0 (String c1 s))
  = option_map S (String.index 0 (String p0 (String p1 prest)) (String c1 s)).
Proof.
  intros Hne. apply index_next. cbn [String.prefix].
  destruct (ascii_dec p0 p0); [|congruence]. destruct (ascii_dec p1 c1); congruence.
Qed.

Lemma index_from (pat p s : string) :
  String.index (String.length p) pat (p +:+ s)
  = option_map (Nat.add (String.length p)) (String.index 0 pat s).
Proof.
  induction p as [|c p IH].
  - rewrite append_nil_l. cbn [String.length]. by destruct (String.index 0 pat s).
  - rewrite append_cons. cbn [String.length String.index]. rewrite IH.
    by destruct (String.index 0 pat s).
Qed.

Lemma prefix_self_append (p r : string) : String.prefix p (p +:+ r) = true.
Proof. apply RouterFacts.prefix_append. by exists r. Qed.

(** Text is cut at its first double quote in one way only. *)
Lemma first_quote_unique (a a' x x' : string) :
  quote_free a = true -> quote_free a' = true ->
  a +:+ String dqc x = a' +:+ String dqc x' -> a = a' /\ x = x'.
Proof.
  unfold quote_free. revert a'. induction a as [|c a IH]; intros [|c' a'] Ha Ha' Heq;
    rewrite ?append_cons, ?append_nil_l in Heq.
  - by injection Heq.
  - injection Heq as Hc _. subst c'. cbn in Ha'. discriminate Ha'.
  - injection Heq as Hc _. subst c. cbn in Ha. discriminate Ha.
  - injection Heq as -> Heq. cbn [list_ascii_of_string forallb] in Ha, Ha'.
    apply andb_true_iff in Ha as [_ Ha]. apply andb_true_iff in Ha' as [_ Ha'].
    destruct (IH a' Ha Ha' Heq) as [-> ->]. done.
Qed.
End IndexFacts.

(** ** The response parser *)
Module ResponseFacts.
Import CppSdk ResponseSpec StringFacts AtoiFacts IndexFacts Base64Spec.

Lemma uint_quote_free (d : Decimal.uint) :
  quote_free (NilEmpty.string_of_uint d) = true.
Proof.
  unfold quote_free. induction d; cbn [NilEmpty.string_of_uint list_ascii_of_string forallb];
    [reflexivity|..]; rewrite IHd; reflexivity.
Qed.

Lemma to_string_quote_free (z : Z) : quote_free (to_string z) = true.
Proof.
  unfold to_string. destruct z as [|p|p]; cbn [Z.to_int NilZero.string_of_int].
  - reflexivity.
  - rewrite string_of_uint_nonnil by apply Unsigned.to_uint_nonnil.
    apply uint_quote_free.
  - rewrite string_of_uint_nonnil by apply Unsigned.to_uint_nonnil.
    unfold quote_free. cbn [list_ascii_of_string forallb].
    apply andb_true_iff. split; [reflexivity|apply uint_quote_free].
Qed.

Lemma get_In (s : string) (n : nat) (c : ascii) :
  String.get n s = Some c -> In c (list_ascii_of_string s).
Proof.
  revert n. induction s as [|d s IH]; intros [|n] H; cbn in *; try discriminate.
  - injection H as ->. by left.
  - right. by apply (IH n).
Qed.

Lemma sextet_not_quote (v : Z) : negb (Ascii.eqb (sextet_char v) dqc) = true.
Proof.
  unfold sextet_char. destruct (String.get (Z.to_nat v) alphabet) as [c|] eqn:Hget;
    [|reflexivity].
  apply get_In in Hget.
  assert (Hall : forallb (fun c => negb (Ascii.eqb c dqc)) (list_ascii_of_string alphabet)
                 = true) by reflexivity.
  rewrite forallb_forall in Hall. by apply Hall.
Qed.

Lemma encode_quote_free (n : nat) (bs : list byte) :
  (length bs <= n)%nat -> forallb (fun c => negb (Ascii.eqb c dqc)) (encode bs) = true.
Proof.
  revert bs. induction n as [|n IH]; intros bs Hlen.
  - destruct bs; [reflexivity|cbn in Hlen; lia].
  - destruct bs as [|b1 [|b2 [|b3 rest]]]; cbn [encode forallb];
      rewrite ?sextet_not_quote; try reflexivity.
    apply IH. cbn in Hlen. lia.
Qed.

Lemma base64_quote_free (bs : list byte) : quote_free (base64_encode bs) = true.
Proof.
  unfold quote_free, base64_encode. rewrite list_ascii_of_string_of_list_ascii.
  by apply (encode_quote_free (length bs)).
Qed.

Lemma skip_printed (z : Z) (tail : string) :
  skip_space_colon (to_string z +:+ tail) = to_string z +:+ tail.
Proof.
  unfold to_string. destruct z as [|p|p]; cbn [Z.to_int NilZero.string_of_int].
  - reflexivity.
  - rewrite string_of_uint_nonnil by apply Unsigned.to_uint_nonnil.
    destruct (printed_head (Pos.to_uint p) tail (Unsigned.to_uint_nonnil p))
      as (c & rest & Heq & Hc).
    destruct (digit_not_space_sign c Hc) as (_ & _ & _ & Hsp & Hcol).
    rewrite Heq. cbn [skip_space_colon]. by rewrite Hsp, Hcol.
  - reflexivity.
Qed.

Lemma index_at_start (pat r : string) :
  pat <> EmptyString -> String.index 0 pat (pat +:+ r) = Some 0%nat.
Proof.
  destruct pat as [|c pat]; [done|]. intros _. rewrite append_cons.
  apply index_here. rewrite <- append_cons. apply prefix_self_append.
Qed.

(** The same two steps for a pattern given by name. *)
Lemma skip_segment (pat prest seg rest : string) (p0 : ascii) :
  pat = String p0 prest ->
  forallb (fun c => negb (Ascii.eqb c p0)) (list_ascii_of_string seg) = true ->
  String.index 0 pat (seg +:+ rest)
  = option_map (Nat.add (String.length seg)) (String.index 0 pat rest).
Proof. intros ->. apply index_skip_segment. Qed.

Lemma skip_second (pat prest s : string) (p0 p1 c1 : ascii) :
  pat = String p0 (String p1 prest) -> c1 <> p1 ->
  String.index 0 pat (String p0 (String c1 s))
  = option_map S (String.index 0 pat (String c1 s)).
Proof. intros ->. apply index_skip_second. Qed.

Section Response.
Variables (z : Z) (bs : list byte).

Lemma D_no_quote :
  forallb (fun c => negb (Ascii.eqb c dqc)) (list_ascii_of_string (status_digits z)) = true.
Proof. apply to_string_quote_free. Qed.

Lemma B_no_quote :
  forallb (fun c => negb (Ascii.eqb c dqc)) (list_ascii_of_string (body_base64 bs)) = true.
Proof. apply base64_quote_free. Qed.

Lemma find_status :
  find (response_text z bs) (dq +:+ "status_code" +:+ dq +:+ ":") 0 = Some 1%nat.
Proof.
  unfold find.
  set (pat := dq +:+ "status_code" +:+ dq +:+ ":").
  change (response_text z bs)
    with ("{" +:+ pat +:+ (status_digits z +:+ "," +:+ body_pattern +:+ after_body bs)).
  rewrite (skip_segment pat _ "{" _ dqc eq_refl eq_refl).
  rewrite index_at_start by discriminate. reflexivity.
Qed.

Lemma status_text :
  from_pos (response_text z bs) (1 + 14)
  = status_digits z +:+ "," +:+ body_pattern +:+ after_body bs.
Proof.
  change (response_text z bs)
    with (("{" +:+ dq +:+ "status_code" +:+ dq +:+ ":")
            +:+ (status_digits z +:+ "," +:+ body_pattern +:+ after_body bs)).
  apply (RouterFacts.from_pos_append ("{" +:+ dq +:+ "status_code" +:+ dq +:+ ":")).
Qed.

Lemma find_body :
  find (response_text z bs) (dq +:+ "body" +:+ dq +:+ ":" +:+ dq) 0
  = Some (16 + String.length (status_digits z))%nat.
Proof.
  unfold find. fold body_pattern.
  change (response_text z bs)
    with ("{" +:+ String dqc (String "s" ("tatus_code" +:+ String dqc (String ":"
            (status_digits z +:+ "," +:+ body_pattern +:+ after_body bs))))).
  rewrite (skip_segment body_pattern _ "{" _ dqc eq_refl eq_refl).
  rewrite (skip_second body_pattern _ _ dqc "b" "s" eq_refl) by discriminate.
  change (String "s" ("tatus_code" +:+ ?X)) with ("status_code" +:+ X).
  rewrite (skip_segment body_pattern _ "status_code" _ dqc eq_refl eq_refl).
  rewrite (skip_second body_pattern _ _ dqc "b" ":" eq_refl) by discriminate.
  change (String ":" (status_digits z +:+ ?X)) with (":" +:+ status_digits z +:+ X).
  rewrite (skip_segment body_pattern _ ":" _ dqc eq_refl eq_refl).
  rewrite (skip_segment body_pattern _ (status_digits z) _ dqc eq_refl D_no_quote).
  rewrite (skip_segment body_pattern _ "," _ dqc eq_refl eq_refl).
  rewrite index_at_start by discriminate.
  cbn [option_map String.length]. f_equal.
  generalize (String.length (status_digits z)). intros n. lia.
Qed.

Lemma find_body_end :
  find (response_text z bs) dq (16 + String.length (status_digits z) + 8)
  = Some (16 + String.length (status_digits z) + 8 + String.length (body_base64 bs))%nat.
Proof.
  unfold find.
  set (before := "{" +:+ dq +:+ "status_code" +:+ dq +:+ ":" +:+ status_digits z +:+ ","
                     +:+ body_pattern).
  assert (Hlen : (16 + String.length (status_digits z) + 8)%nat = String.length before).
  { unfold before, body_pattern. rewrite !length_append. cbn [String.length dq].
    generalize (String.length (status_digits z)). intros n. lia. }
  assert (Hjson : response_text z bs = before +:+ after_body bs).
  { unfold before, response_text, after_body, body_base64, status_digits.
    rewrite !append_assoc. reflexivity. }
  rewrite Hjson, Hlen, index_from. unfold after_body.
  rewrite (skip_segment dq _ (body_base64 bs) _ dqc eq_refl B_no_quote).
  rewrite (index_here dq "}" dqc) by reflexivity.
  cbn [option_map]. f_equal.
  generalize (String.length before), (String.length (body_base64 bs)). intros n m. lia.
Qed.

Lemma body_text :
  substr (response_text z bs) (16 + String.length (status_digits z) + 8)
    (16 + String.length (status_digits z) + 8 + String.length (body_base64 bs)
     - (16 + String.length (status_digits z) + 8))
  = body_base64 bs.
Proof.
  unfold substr.
  set (before := "{" +:+ dq +:+ "status_code" +:+ dq +:+ ":" +:+ status_digits z +:+ ","
                     +:+ body_pattern).
  assert (Hlen : (16 + String.length (status_digits z) + 8)%nat = String.length before).
  { unfold before, body_pattern. rewrite !length_append. cbn [String.length dq].
    generalize (String.length (status_digits z)). intros n. lia. }
  assert (Hjson : response_text z bs = before +:+ after_body bs).
  { unfold before, response_text, after_body, body_base64, status_digits.
    rewrite !append_assoc. reflexivity. }
  rewrite Hjson, Hlen.
  replace (String.length before + String.length (body_base64 bs) - String.length before)%nat
    with (String.length (body_base64 bs))
    by (generalize (String.length before), (String.length (body_base64 bs)); intros n m; lia).
  rewrite substring_skip_append. apply substring_0_append.
Qed.

(** The quote before the body does not start an error member. *)
Lemma no_error_at_body :
  String.prefix error_pattern (String dqc (after_body bs)) = false.
Proof.
  destruct (String.prefix error_pattern (String dqc (after_body bs))) eqn:Hp; [|reflexivity].
  apply RouterFacts.prefix_append in Hp as [r Hr].
  change (error_pattern +:+ r) with (String dqc ("error" +:+ String dqc (String ":" (dq +:+ r))))
    in Hr.
  injection Hr as Hr. unfold after_body in Hr.
  apply first_quote_unique in Hr as [_ Hr]; [discriminate Hr|apply B_no_quote|reflexivity].
Qed.

Lemma find_error :
  find (response_text z bs) (dq +:+ "error" +:+ dq +:+ ":" +:+ dq) 0 = None.
Proof.
  unfold find. fold error_pattern.
  change (response_text z bs)
    with ("{" +:+ String dqc (String "s" ("tatus_code" +:+ String dqc (String ":"
            (status_digits z +:+ "," +:+ String dqc (String "b" ("ody" +:+ String dqc (String ":"
               (String dqc (after_body bs)))))))))).
  rewrite (skip_segment error_pattern _ "{" _ dqc eq_refl eq_refl).
  rewrite (skip_second error_pattern _ _ dqc "e" "s" eq_refl) by discriminate.
  change (String "s" ("tatus_code" +:+ ?X)) with ("status_code" +:+ X).
  rewrite (skip_segment error_pattern _ "status_code" _ dqc eq_refl eq_refl).
  rewrite (skip_second error_pattern _ _ dqc "e" ":" eq_refl) by discriminate.
  change (String ":" (status_digits z +:+ ?X)) with (":" +:+ status_digits z +:+ X).
  rewrite (skip_segment error_pattern _ ":" _ dqc eq_refl eq_refl).
  rewrite (skip_segment error_pattern _ (status_digits z) _ dqc eq_refl D_no_quote).
  rewrite (skip_segment error_pattern _ "," _ dqc eq_refl eq_refl).
  rewrite (skip_second error_pattern _ _ dqc "e" "b" eq_refl) by discriminate.
  change (String "b" ("ody" +:+ ?X)) with ("body" +:+ X).
  rewrite (skip_segment error_pattern _ "body" _ dqc eq_refl eq_refl).
  rewrite (skip_second error_pattern _ _ dqc "e" ":" eq_refl) by discriminate.
  change (String ":" (String dqc (after_body bs))) with (":" +:+ String dqc (after_body bs)).
  rewrite (skip_segment error_pattern _ ":" _ dqc eq_refl eq_refl).
  rewrite (index_next error_pattern (after_body bs) dqc no_error_at_body).
  unfold after_body.
  rewrite (skip_segment error_pattern _ (body_base64 bs) _ dqc eq_refl B_no_quote).
  rewrite (skip_second error_pattern _ _ dqc "e" "}" eq_refl) by discriminate.
  reflexivity.
Qed.

Lemma from_json_response :
  INT_MIN <= z <= INT_MAX ->
  from_json (response_text z bs)
  = Some (Ok {| status_code := z; resp_headers := []; resp_body := bs;
                error := EmptyString |}).
Proof.
  intros Hz. unfold from_json, parse_status, parse_body, parse_error.
  rewrite find_status, status_text, find_body.
  cbv zeta. rewrite find_body_end, body_text, find_error.
  unfold status_digits. rewrite skip_printed, atoi_to_string by (reflexivity || exact Hz).
  unfold body_base64. rewrite Base64Facts.decode_encode. reflexivity.
Qed.
End Response.

(** A quoted text followed by a brace does not start a member, which
    has a colon after its quoted name. *)
Lemma no_member_at (name rest0 text : string) :
  quote_free name = true -> quote_free text = true ->
  String.prefix (String dqc (name +:+ String dqc (String ":" rest0)))
    (String dqc (text +:+ String dqc "}")) = false.
Proof.
  intros Hname Htext.
  destruct (String.prefix _ (String dqc (text +:+ String dqc "}"))) eqn:Hp;
    [|reflexivity].
  apply RouterFacts.prefix_append in Hp as [r Hr].
  rewrite append_cons, append_assoc, !append_cons in Hr.
  injection Hr as Hr.
  apply first_quote_unique in Hr as [_ Hr]; [discriminate Hr|exact Htext|exact Hname].
Qed.

Lemma from_json_error (msg : string) :
  quote_free msg = true -> msg <> EmptyString ->
  from_json (error_text msg) = Some (Err (Error_other msg)).
Proof.
  intros Hfree Hmsg. unfold from_json, parse_status, parse_body, parse_error, find.
  set (pat_s := dq +:+ "status_code" +:+ dq +:+ ":").
  set (pat_b := dq +:+ "body" +:+ dq +:+ ":" +:+ dq).
  set (pat_e := dq +:+ "error" +:+ dq +:+ ":" +:+ dq).
  set (tail := msg +:+ String dqc "}").
  assert (Hnone : forall (pat name rest0 : string) (p1 : ascii),
            pat = String dqc (String p1 rest0) ->
            String dqc (String p1 rest0)
              = String dqc (name +:+ String dqc (String ":" EmptyString))
            \/ String dqc (String p1 rest0)
               = String dqc (name +:+ String dqc (String ":" dq)) ->
            quote_free name = true -> p1 <> "e"%char -> p1 <> ":"%char -> p1 <> "}"%char ->
            String.index 0 pat (error_text msg) = None).
  { intros pat name rest0 p1 Hpat Hshape Hname He Hc Hb.
    change (error_text msg)
      with ("{" +:+ String dqc (String "e" ("rror" +:+ String dqc (String ":"
              (String dqc tail))))).
    rewrite (skip_segment pat _ "{" _ dqc Hpat eq_refl).
    rewrite (skip_second pat _ _ dqc p1 "e" Hpat) by congruence.
    change (String "e" ("rror" +:+ ?X)) with ("error" +:+ X).
    rewrite (skip_segment pat _ "error" _ dqc Hpat eq_refl).
    rewrite (skip_second pat _ _ dqc p1 ":" Hpat) by congruence.
    change (String ":" (String dqc tail)) with (":" +:+ String dqc tail).
    rewrite (skip_segment pat _ ":" _ dqc Hpat eq_refl).
    rewrite (index_next pat tail dqc).
    2:{ rewrite Hpat. destruct Hshape as [-> | ->]; by apply no_member_at. }
    unfold tail. rewrite (skip_segment pat _ msg _ dqc Hpat Hfree).
    rewrite (skip_second pat _ _ dqc p1 "}" Hpat) by congruence.
    rewrite Hpat. reflexivity. }
  rewrite (Hnone pat_s "status_code" _ "s"%char eq_refl (or_introl eq_refl) eq_refl)
    by discriminate.
  rewrite (Hnone pat_b "body" _ "b"%char eq_refl (or_intror eq_refl) eq_refl) by discriminate.
  assert (He : String.index 0 pat_e (error_text msg) = Some 1%nat).
  { change (error_text msg) with ("{" +:+ pat_e +:+ tail).
    rewrite (skip_segment pat_e _ "{" _ dqc eq_refl eq_refl).
    rewrite index_at_start by discriminate. reflexivity. }
  rewrite He. cbv zeta.
  assert (Hform : error_text msg = ("{" +:+ pat_e) +:+ tail) by reflexivity.
  assert (Hend : String.index (1 + 9) dq (error_text msg)
                 = Some (1 + 9 + String.length msg)%nat).
  { rewrite Hform. change (1 + 9)%nat with (String.length ("{" +:+ pat_e)).
    rewrite index_from. unfold tail.
    rewrite (skip_segment dq _ msg _ dqc eq_refl Hfree).
    rewrite (index_here dq "}" dqc) by reflexivity.
    cbn [option_map]. f_equal. lia. }
  rewrite Hend. unfold substr.
  replace (1 + 9 + String.length msg - (1 + 9))%nat with (String.length msg) by lia.
  assert (Hsub : String.substring (1 + 9) (String.length msg) (error_text msg) = msg).
  { rewrite Hform. change (1 + 9)%nat with (String.length ("{" +:+ pat_e)).
    rewrite substring_skip_append. apply substring_0_append. }
  rewrite Hsub. cbn [error with_error].
  apply String.eqb_neq in Hmsg. rewrite Hmsg. reflexivity.
Qed.
End ResponseFacts.

(** ** The builder, the parser and the example plugins *)
Module PluginFacts.
Import CppSdk Envelope HeaderSpec HeaderFacts ResponseSpec ResponseFacts ReadContract
  PluginSpec StringFacts.

(** X4: the headers of a request made by the builder are kept by key in
    ascending order; [add_header] sets the value found under its key and
    leaves the other keys as they are; a second [add_header] with the
    same key replaces the first; and the order of two [add_header] calls
    with different keys does not change the text that [to_json] sends. *)
Theorem X4_headers_by_key (u : string) (start : HttpRequest) (cs : list BuilderCall) :
  In start (fresh_requests u) ->
  let req := apply_calls start cs in
  keys_ascending (headers req)
  /\ (forall k v k' : string,
        strmap_get (headers (add_header req k v)) k'
        = if String.eqb k k' then Some v else strmap_get (headers req) k')
  /\ (forall k v1 v2 : string,
        add_header (add_header req k v1) k v2 = add_header req k v2)
  /\ (forall k1 v1 k2 v2 : string,
        k1 <> k2 ->
        to_json (add_header (add_header req k1 v1) k2 v2)
        = to_json (add_header (add_header req k2 v2) k1 v1)).
Proof.
  intros Hfresh req.
  pose proof (built_headers_ascending u start cs Hfresh) as Hasc. fold req in Hasc.
  split; [exact Hasc|]. split; [|split].
  - intros k v k'. cbn [headers add_header]. apply get_set.
  - intros k v1 v2. unfold add_header. cbn [headers method url body timeout].
    by rewrite set_set_same.
  - intros k1 v1 k2 v2 Hne. f_equal. unfold add_header.
    cbn [headers method url body timeout]. by rewrite (set_set_commute _ k1 v1 k2 v2).
Qed.

Lemma X4_headers_by_key_witness :
  to_json (add_header (add_header (HttpRequest_get "u") "User-Agent" "a") "Accept" "b")
  = to_json (add_header (add_header (HttpRequest_get "u") "Accept" "b") "User-Agent" "a")
  /\ strmap_get (headers (add_header (HttpRequest_get "u") "Accept" "b")) "Accept" = Some "b".
Proof.
  destruct (X4_headers_by_key "u" (HttpRequest_get "u") [])
    as (_ & Hget & _ & Horder).
  { right. by left. }
  split.
  - apply (Horder "User-Agent" "a" "Accept" "b"). discriminate.
  - exact (Hget "Accept" "b" "Accept").
Defined.

(** X5: [from_json] reads back a response that carries a status code in
    decimal and a body in base64, for every status code that an [int]
    of 32 bits holds (negative ones too) and every body: the status
    code, the decoded body, no error.  Outside that range [std::atoi] is
    undefined. *)
Theorem X5_from_json_response (z : Z) (bs : list byte) :
  INT_MIN <= z <= INT_MAX ->
  from_json (response_text z bs)
  = Some (Ok {| status_code := z; resp_headers := []; resp_body := bs;
                error := EmptyString |}).
Proof. exact (from_json_response z bs). Qed.

Lemma X5_from_json_response_witness :
  from_json (response_text 404 hello_bytes)
  = Some (Ok {| status_code := 404; resp_headers := []; resp_body := hello_bytes;
                error := EmptyString |}).
Proof. apply X5_from_json_response. unfold INT_MIN, INT_MAX. lia. Defined.

(** X6: a response whose only member is a non-empty error text without
    a double quote makes [from_json] fail with [Error::other] of that
    text. *)
Theorem X6_from_json_error (msg : string) :
  quote_free msg = true -> msg <> EmptyString ->
  from_json (error_text msg) = Some (Err (Error_other msg)).
Proof. exact (from_json_error msg). Qed.

Lemma X6_from_json_error_witness :
  from_json (error_text "dns failure") = Some (Err (Error_other "dns failure")).
Proof. apply X6_from_json_error; [reflexivity|discriminate]. Defined.

Lemma index_quote_free (pat prest s : string) :
  pat = String dqc prest -> quote_free s = true -> String.index 0 pat s = None.
Proof.
  intros Hpat Hfree. rewrite <- (append_nil_r s).
  rewrite (skip_segment pat prest s EmptyString dqc Hpat Hfree). by rewrite Hpat.
Qed.

Lemma from_json_quote_free (json : string) :
  quote_free json = true -> from_json json = Some (Ok HttpResponse_default).
Proof.
  intros Hfree. unfold from_json, parse_status, parse_body, parse_error, find.
  rewrite (index_quote_free (dq +:+ "status_code" +:+ dq +:+ ":") _ json eq_refl Hfree).
  rewrite (index_quote_free (dq +:+ "body" +:+ dq +:+ ":" +:+ dq) _ json eq_refl Hfree).
  rewrite (index_quote_free (dq +:+ "error" +:+ dq +:+ ":" +:+ dq) _ json eq_refl Hfree).
  reflexivity.
Qed.

(** X7: [from_json] does not reject a text that is no response: a text
    without a double quote, the empty text among them, gives the default
    response, with status code 0, an empty body and no error. *)
Theorem X7_from_json_without_members (json : string) :
  quote_free json = true -> from_json json = Some (Ok HttpResponse_default).
Proof. exact (from_json_quote_free json). Qed.

Lemma X7_from_json_without_members_witness :
  from_json "<html>Bad Gateway</html>" = Some (Ok HttpResponse_default).
Proof. apply X7_from_json_without_members. reflexivity. Defined.

Section Read.
Variable host_http_request : string -> Z.
Variable guest_memory : Z -> Z -> string.

Lemma read_cases (path : string) (offset size : Z) :
  path = "/test_get" \/ path = "/test_json" ->
  exists req : HttpRequest,
    HttpTestFS.read host_http_request guest_memory path offset size
    = match request host_http_request guest_memory req with
      | None => None
      | Some (Err e) => Some (Err e)
      | Some (Ok response) =>
          if negb (is_success response) then
            Some (Err (Error_other ("HTTP error: " +:+ to_string (status_code response))))
          else Some (Ok (resp_body response))
      end.
Proof.
  intros [-> | ->]; eexists; unfold HttpTestFS.read; cbn [String.eqb Ascii.eqb Bool.eqb];
    reflexivity.
Qed.



Lemma request_not_found (req : HttpRequest) :
  request host_http_request guest_memory req <> Some (Err Error_not_found).
Proof.
  unfold request. destruct (_ =? 0); [discriminate|].
  unfold from_json. destruct (parse_status _ _); [|discriminate].
  destruct (parse_body _ _); [|discriminate]. by destruct (negb _).
Qed.

(** X10: the three operations of HttpTestFS agree on its names: the
    entries that [readdir] lists for the root are the files that [stat]
    knows, with the same information; and [read] answers not-found
    exactly for the paths that [stat] does not report as a file,
    whatever the host does. *)
Theorem X10_httptestfs_names_agree :
  (forall (path : string) (info : HttpTestFS.FileInfo),
     HttpTestFS.stat path = Ok info /\ HttpTestFS.fi_is_dir info = false
     <-> exists es, HttpTestFS.readdir "/" = Ok es /\ In info es
                    /\ path = "/" +:+ HttpTestFS.fi_name info)
  /\ (forall (path : string) (offset size : Z),
        HttpTestFS.read host_http_request guest_memory path offset size
        = Some (Err Error_not_found)
        <-> ~ exists info, HttpTestFS.stat path = Ok info
                           /\ HttpTestFS.fi_is_dir info = false).
Proof.
  split.
  - intros path info. unfold HttpTestFS.stat, HttpTestFS.readdir.
    cbn [String.eqb Ascii.eqb Bool.eqb]. split.
    + destruct (String.eqb_spec path "/") as [->|_].
      { intros [[= <-] Hdir]. discriminate Hdir. }
      destruct (String.eqb_spec path "/test_get") as [->|_].
      { intros [[= <-] _]. eexists. split; [reflexivity|]. split; [by left|reflexivity]. }
      destruct (String.eqb_spec path "/test_json") as [->|_]; [|by intros [? _]].
      intros [[= <-] _]. eexists. split; [reflexivity|].
      split; [right; by left|reflexivity].
    + intros (es & [= <-] & [<-|[<-|[]]] & ->); by split.
  - intros path offset size. split.
    + intros Hread (info & Hstat & Hdir). revert Hstat Hread.
      unfold HttpTestFS.stat.
      destruct (String.eqb_spec path "/") as [->|_].
      { intros [= <-]. discriminate Hdir. }
      destruct (String.eqb_spec path "/test_get") as [->|_].
      { intros _ Hread.
        destruct (read_cases "/test_get" offset size (or_introl eq_refl)) as [req Hreq].
        rewrite Hreq in Hread. pose proof (request_not_found req) as Hnf.
        destruct (request host_http_request guest_memory req) as [[resp|e]|];
          [by destruct (negb _)|congruence|discriminate]. }
      destruct (String.eqb_spec path "/test_json") as [->|_]; [|discriminate].
      intros _ Hread.
      destruct (read_cases "/test_json" offset size (or_intror eq_refl)) as [req Hreq].
      rewrite Hreq in Hread. pose proof (request_not_found req) as Hnf.
      destruct (request host_http_request guest_memory req) as [[resp|e]|];
        [by destruct (negb _)|congruence|discriminate].
    + intros Hnone. unfold HttpTestFS.read.
      destruct (String.eqb_spec path "/test_get") as [->|_].
      { exfalso. apply Hnone. eexists. split; reflexivity. }
      destruct (String.eqb_spec path "/test_json") as [->|_]; [|reflexivity].
      exfalso. apply Hnone. eexists. split; reflexivity.
Qed.
End Read.



(** X11: the three operations of the HelloFS example agree: [read]
    succeeds exactly for the paths that [stat] reports as a file, the
    size that [stat] reports is the number of bytes that [read] returns,
    and the entries that [readdir] lists for the root are the files that
    [stat] knows, with the same information. *)
Theorem X11_hellofs_names_agree :
  (forall (path : string) (offset size : Z) (bs : list byte),
     RustSdk.HelloFS_read path offset size = RustSdk.Ok bs ->
     exists info, RustSdk.HelloFS_stat path = RustSdk.Ok info
                  /\ RustSdk.fi_is_dir info = false
                  /\ RustSdk.fi_size info = Z.of_nat (length bs))
  /\ (forall (path : string) (info : RustSdk.FileInfo) (offset size : Z),
        RustSdk.HelloFS_stat path = RustSdk.Ok info ->
        RustSdk.fi_is_dir info = false ->
        exists bs, RustSdk.HelloFS_read path offset size = RustSdk.Ok bs)
  /\ (forall (path : string) (info : RustSdk.FileInfo),
        RustSdk.HelloFS_stat path = RustSdk.Ok info /\ RustSdk.fi_is_dir info = false
        <-> exists es, RustSdk.HelloFS_readdir "/" = RustSdk.Ok es /\ In info es
                       /\ path = "/" +:+ RustSdk.fi_name info).
Proof.
  split; [|split].
  - intros path offset size bs. unfold RustSdk.HelloFS_read, RustSdk.HelloFS_stat.
    destruct (String.eqb_spec path "/hello.txt") as [->|_]; [|discriminate].
    intros [= <-]. eexists. cbn [String.eqb Ascii.eqb Bool.eqb].
    split; [reflexivity|]. split; reflexivity.
  - intros path info offset size. unfold RustSdk.HelloFS_read, RustSdk.HelloFS_stat.
    destruct (String.eqb_spec path "/") as [->|_].
    { intros [= <-] Hdir. discriminate Hdir. }
    destruct (String.eqb_spec path "/hello.txt") as [->|_]; [|discriminate].
    intros _ _. by eexists.
  - intros path info. unfold RustSdk.HelloFS_stat, RustSdk.HelloFS_readdir.
    cbn [String.eqb Ascii.eqb Bool.eqb]. split.
    + destruct (String.eqb_spec path "/") as [->|_].
      { intros [[= <-] Hdir]. discriminate Hdir. }
      destruct (String.eqb_spec path "/hello.txt") as [->|_]; [|by intros [? _]].
      intros [[= <-] _]. eexists. split; [reflexivity|]. split; [by left|reflexivity].
    + intros (es & [= <-] & [<-|[]] & ->). by split.
Qed.

Lemma X11_hellofs_names_agree_witness :
  exists info, RustSdk.HelloFS_stat "/hello.txt" = RustSdk.Ok info
               /\ RustSdk.fi_is_dir info = false
               /\ RustSdk.fi_size info = Z.of_nat (length RustSdk.hello_world).
Proof.
  apply (proj1 X11_hellofs_names_agree "/hello.txt" 0 0 RustSdk.hello_world).
  reflexivity.
Defined.
End PluginFacts.

(** ** The caches of the SQS backend *)
Module QueueFacts.
Import SQS SQSSend QueueOps QueueSpec SQSFacts.

Section Lookup.
Context `{SqsApi W}.

Lemma Client_GetQueueURL_ok (w w' : W) (q u : string) :
  Client_GetQueueURL w q = (Ok u, w') -> u <> EmptyString /\ q <> EmptyString.
Proof.
  unfold Client_GetQueueURL. destruct (String.eqb_spec q EmptyString) as [->|Hq];
    [discriminate|].
  destruct (sdk_GetQueueUrl w q) as [[[u0|]|err] w1]; try discriminate.
  destruct (String.eqb_spec u0 EmptyString) as [->|Hu]; [discriminate|].
  intros [= <- <-]. done.
Qed.

Lemma Client_EnsureQueueURL_ok (w w' : W) (q u : string) :
  Client_EnsureQueueURL w q = (Ok u, w') -> u <> EmptyString /\ q <> EmptyString.
Proof.
  unfold Client_EnsureQueueURL. destruct (String.eqb_spec q EmptyString) as [->|Hq];
    [discriminate|].
  destruct (Client_GetQueueURL w q) as [[u0|err] w1] eqn:Hget.
  - intros [= <- <-]. by apply (Client_GetQueueURL_ok w w1 q).
  - destruct (isQueueDoesNotExistError err); cbn [negb]; [|discriminate].
    destruct (Client_CreateQueue w1 q) as [[err2|] w2]; [discriminate|].
    destruct (Client_GetQueueURL w2 q) as [[u1|err3] w3] eqn:Hget2; [|discriminate].
    intros [= <- <-]. by apply (Client_GetQueueURL_ok w2 w3 q).
Qed.

(** The two ways a lookup succeeds: from the cache, with nothing
    changed, or from the service, with the URL stored and the mark
    cleared. *)
Lemma getQueueURL_ok (b b' : SQSBackend) (w w' : W) (q u : string) (create : bool) :
  getQueueURL b w q create = (Ok u, b', w') ->
  u <> EmptyString /\ q <> EmptyString /\ strings_Contains q "/" = false
  /\ ((cache b !! q = Some u /\ b' = b /\ w' = w)
      \/ b' = with_maps b (<[q := u]> (cache b)) (delete q (deleted b))).
Proof.
  unfold getQueueURL. destruct (String.eqb_spec q EmptyString) as [->|Hq];
    [discriminate|].
  destruct (strings_Contains q "/") eqn:Hslash; [discriminate|].
  destruct (cache b !! q) as [u0|] eqn:Hc.
  - destruct (String.eqb_spec u0 EmptyString) as [->|Hu0]; cbn [negb].
    + destruct (if create then _ else _) as [[u1|err] w1] eqn:Hcall; [|discriminate].
      intros [= <- <- <-]. split; [|repeat split; auto].
      destruct create; [apply Client_EnsureQueueURL_ok in Hcall
                       |apply Client_GetQueueURL_ok in Hcall]; tauto.
    + intros [= <- <- <-]. repeat split; auto.
  - destruct (if create then _ else _) as [[u1|err] w1] eqn:Hcall; [|discriminate].
    intros [= <- <- <-]. split; [|repeat split; auto].
    destruct create; [apply Client_EnsureQueueURL_ok in Hcall
                     |apply Client_GetQueueURL_ok in Hcall]; tauto.
Qed.

Lemma getQueueURL_error (b b' : SQSBackend) (w w' : W) (q : string) (create : bool)
    (err : error) :
  getQueueURL b w q create = (Error err, b', w') -> b' = b.
Proof.
  unfold getQueueURL. destruct (String.eqb q EmptyString); [by intros [= _ <- _]|].
  destruct (strings_Contains q "/"); [by intros [= _ <- _]|].
  destruct (match cache b !! q with
            | Some u => if negb (String.eqb u EmptyString) then Some u else None
            | None => None
            end); [discriminate|].
  destruct (if create then _ else _) as [[u1|err1] w1]; [discriminate|].
  by intros [= _ <- _].
Qed.

Lemma stored_consistent (b : SQSBackend) (q u : string) :
  caches_consistent b ->
  u <> EmptyString -> q <> EmptyString -> strings_Contains q "/" = false ->
  caches_consistent (with_maps b (<[q := u]> (cache b)) (delete q (deleted b))).
Proof.
  intros Hb Hu Hq Hslash q' u'. cbn [cache deleted with_maps].
  destruct (decide (q = q')) as [<-|Hne].
  - rewrite lookup_insert_eq, lookup_delete_eq. intros [= <-]. done.
  - rewrite lookup_insert_ne, lookup_delete_ne by done. apply Hb.
Qed.

Lemma getQueueURL_consistent (b b' : SQSBackend) (w w' : W) (q : string) (create : bool)
    (r : result string) :
  caches_consistent b -> getQueueURL b w q create = (r, b', w') ->
  caches_consistent b' /\ sqs b' = sqs b.
Proof.
  intros Hb Hcall. destruct r as [u|err].
  - apply getQueueURL_ok in Hcall as (Hu & Hq & Hslash & [(_ & -> & _)| ->]);
      [done|]. split; [by apply stored_consistent|reflexivity].
  - apply getQueueURL_error in Hcall as ->. done.
Qed.

Lemma removeOneQueue_consistent (b b' : SQSBackend) (w w' : W) (q : string)
    (r : option error) :
  caches_consistent b -> removeOneQueue b w q = (r, b', w') ->
  caches_consistent b' /\ sqs b' = sqs b.
Proof.
  intros Hb. unfold removeOneQueue.
  destruct (getQueueURL b w q false) as [[r1 b1] w1] eqn:Hget.
  destruct (getQueueURL_consistent b b1 w w1 q false r1 Hb Hget) as [Hb1 Hs1].
  assert (Hmark : forall t : Time,
             caches_consistent (with_maps b1 (delete q (cache b1)) (<[q := t]> (deleted b1)))).
  { intros t q' u'. cbn [cache deleted with_maps].
    destruct (decide (q = q')) as [<-|Hne].
    - rewrite lookup_delete_eq. discriminate.
    - rewrite lookup_delete_ne, lookup_insert_ne by done. apply Hb1. }
  destruct r1 as [u|err].
  - destruct (Client_DeleteQueue w1 u) as [[err|] w2].
    + destruct (isQueueDoesNotExistError err); intros [= <- <- <-]; auto.
    + intros [= <- <- <-]; auto.
  - destruct (isQueueDoesNotExistError err); intros [= <- <- <-]; auto.
Qed.

Lemma remove_each_consistent (qs : list string) (b b' : SQSBackend) (w w' : W) :
  caches_consistent b -> remove_each b w qs = (b', w') ->
  caches_consistent b' /\ sqs b' = sqs b.
Proof.
  revert b w. induction qs as [|q qs IH]; intros b w Hb; cbn [remove_each].
  - intros [= <- <-]. done.
  - destruct (removeOneQueue b w q) as [[r b1] w1] eqn:Hone.
    destruct (removeOneQueue_consistent b b1 w w1 q r Hb Hone) as [Hb1 Hs1].
    intros Hrest. destruct (IH b1 w1 Hb1 Hrest) as [Hb' Hs'].
    split; [exact Hb'|by rewrite Hs'].
Qed.

Lemma ListQueues_consistent (fuel : nat) (b b' : SQSBackend) (w w' : W) (prefix : string)
    (r : option (result (list string))) :
  caches_consistent b -> ListQueues fuel b w prefix = (r, b', w') ->
  caches_consistent b' /\ sqs b' = sqs b.
Proof.
  intros Hb. unfold ListQueues. destruct (sqs b) eqn:Hs; [|by intros [= _ <- _]].
  destruct (Client_ListQueues fuel w prefix) as [[[queues|err]|] w1];
    [|intros [= _ <- _]; done..].
  destruct (filter_listed _ queues [] ∅) as [filtered seen].
  destruct (add_cached _ prefix _ filtered seen) as [filtered' seen'].
  intros [= _ <- _]. split; [|exact Hs].
  intros q u Hq. cbn [cache deleted with_maps] in *.
  destruct (Hb q u Hq) as (? & ? & ? & Hd). repeat split; try done.
  rewrite purge_expired_lookup, Hd. reflexivity.
Qed.
End Lookup.

Section Ops.
Context `{SqsApi W} `{SqsSendApi W}.

Lemma after_op_consistent (b : SQSBackend) (w : W) (op : Op) :
  caches_consistent b ->
  caches_consistent (after_op b w op) /\ sqs (after_op b w op) = sqs b.
Proof.
  intros Hb. destruct op as [q msg|q|q|q|q|fuel prefix|fuel q|q]; cbn [after_op].
  - unfold Enqueue. destruct (sqs b) eqn:Hs; [|done].
    match goal with |- context [getQueueURL b w q true] =>
      destruct (getQueueURL b w q true) as [[r b1] w1] eqn:Hget end.
    destruct (getQueueURL_consistent b b1 w w1 q true r Hb Hget) as [Hb1 Hs1]; rewrite Hs in Hs1.
    destruct r; [|done].
    match goal with |- context [Client_SendMessage ?a ?b ?c] =>
      destruct (Client_SendMessage a b c) end. done.
  - unfold Dequeue. destruct (sqs b) eqn:Hs; [|done].
    destruct (getQueueURL b w q false) as [[r b1] w1] eqn:Hget.
    destruct (getQueueURL_consistent b b1 w w1 q false r Hb Hget) as [Hb1 Hs1]; rewrite Hs in Hs1.
    destruct r as [u|err]; [|by destruct (isQueueDoesNotExistError err)].
    by destruct (Client_ReceiveMessages w1 u sqsDefaultMaxReceive true) as [[[|]|] ?].
  - unfold Peek. destruct (sqs b) eqn:Hs; [|done].
    destruct (getQueueURL b w q false) as [[r b1] w1] eqn:Hget.
    destruct (getQueueURL_consistent b b1 w w1 q false r Hb Hget) as [Hb1 Hs1]; rewrite Hs in Hs1.
    destruct r as [u|err]; [|by destruct (isQueueDoesNotExistError err)].
    by destruct (Client_ReceiveMessages w1 u sqsDefaultMaxReceive false) as [[[|]|] ?].
  - unfold Size. destruct (sqs b) eqn:Hs; [|done].
    destruct (getQueueURL b w q false) as [[r b1] w1] eqn:Hget.
    destruct (getQueueURL_consistent b b1 w w1 q false r Hb Hget) as [Hb1 Hs1]; rewrite Hs in Hs1.
    destruct r as [u|err]; [|by destruct (isQueueDoesNotExistError err)].
    by destruct (Client_ApproximateNumberOfMessages w1 u).
  - unfold Clear. destruct (sqs b) eqn:Hs; [|done].
    destruct (getQueueURL b w q false) as [[r b1] w1] eqn:Hget.
    destruct (getQueueURL_consistent b b1 w w1 q false r Hb Hget) as [Hb1 Hs1]; rewrite Hs in Hs1.
    destruct r as [u|err]; [|by destruct (isQueueDoesNotExistError err)].
    by destruct (Client_PurgeQueue w1 u).
  - destruct (ListQueues fuel b w prefix) as [[r b1] w1] eqn:Hlist.
    exact (ListQueues_consistent fuel b b1 w w1 prefix r Hb Hlist).
  - unfold RemoveQueue. destruct (sqs b) eqn:Hs; [|done].
    destruct (String.eqb q EmptyString).
    + destruct (Client_ListQueues fuel w EmptyString) as [[[qs|err]|] w1]; try done.
      destruct (remove_each b w1 qs) as [b2 w2] eqn:Heach.
      destruct (remove_each_consistent qs b b2 w1 w2 Hb Heach) as [Hb2 Hs2].
      rewrite Hs in Hs2. done.
    + destruct (strings_Contains q "/"); [done|].
      destruct (removeOneQueue b w q) as [[r b1] w1] eqn:Hone.
      destruct (removeOneQueue_consistent b b1 w w1 q r Hb Hone) as [Hb1 Hs1].
      rewrite Hs in Hs1. done.
  - unfold CreateQueue. destruct (sqs b) eqn:Hs; [|done].
    destruct (getQueueURL b w q true) as [[r b1] w1] eqn:Hget.
    destruct (getQueueURL_consistent b b1 w w1 q true r Hb Hget) as [Hb1 Hs1]; rewrite Hs in Hs1.
    by destruct r.
Qed.
End Ops.
End QueueFacts.

(** ** The mark of a deleted queue *)
Module MarkFacts.
Import SQS SQSSend QueueOps QueueSpec SimSQS SimSend SQSFacts QueueFacts.

Section Mark.
Context `{SqsApi W} `{SqsSendApi W}.








End Mark.

End MarkFacts.

(** ** Queue names and listings *)
Module NameFacts.
Import SQS SQSSend QueueOps QueueSpec StringFacts IndexFacts.

Lemma Contains_free_of (s : string) :
  strings_Contains s "/" = negb (free_of "/" s).
Proof.
  unfold strings_Contains, free_of. induction s as [|c s IH]; [reflexivity|].
  cbn [list_ascii_of_string forallb]. destruct (Ascii.eqb_spec c "/"%char) as [->|Hne].
  - rewrite (index_here "/" s "/") by exact (prefix_self_append "/" s). reflexivity.
  - rewrite index_next by (by apply prefix_head_ne). cbn [negb andb].
    rewrite <- IH. by destruct (index 0 "/" s).
Qed.

Lemma free_of_append (c : ascii) (s1 s2 : string) :
  free_of c (s1 +:+ s2) = free_of c s1 && free_of c s2.
Proof.
  unfold free_of. induction s1 as [|d s1 IH]; [reflexivity|].
  rewrite append_cons. cbn [list_ascii_of_string forallb]. rewrite IH.
  by rewrite andb_assoc.
Qed.

(** Every part that [split_loop] cuts is free of the separator. *)
Lemma split_loop_free (s : string) (sep : ascii) (cur : string) :
  free_of sep cur = true ->
  Forall (fun part => free_of sep part = true) (split_loop s sep cur).
Proof.
  revert cur. induction s as [|c s IH]; intros cur Hcur; cbn [split_loop].
  - by constructor.
  - destruct (Ascii.eqb c sep) eqn:Hc.
    + constructor; [done|]. by apply IH.
    + apply IH. rewrite free_of_append, Hcur. unfold free_of. cbn. by rewrite Hc.
Qed.

Lemma split_loop_length (s : string) (sep : ascii) (cur : string) :
  (0 < length (split_loop s sep cur))%nat.
Proof.
  revert cur. induction s as [|c s IH]; intros cur; cbn [split_loop]; [cbn; lia|].
  destruct (Ascii.eqb c sep); [cbn; lia|apply IH].
Qed.

Lemma split_loop_whole (s : string) (sep : ascii) (cur : string) :
  free_of sep s = true -> split_loop s sep cur = [cur +:+ s].
Proof.
  revert cur. induction s as [|c s IH]; intros cur Hs; cbn [split_loop].
  - by rewrite append_nil_r.
  - unfold free_of in Hs. cbn in Hs. apply andb_true_iff in Hs as [Hc Hs].
    apply negb_true_iff in Hc. rewrite Hc, IH by exact Hs.
    by rewrite append_assoc.
Qed.

Lemma last_cons (x : string) (l : list string) :
  (0 < length l)%nat ->
  nth (length (x :: l) - 1) (x :: l) EmptyString = nth (length l - 1) l EmptyString.
Proof.
  destruct l as [|y l]; cbn [length]; [lia|]. intros _.
  replace (S (S (length l)) - 1)%nat with (S (length l)) by lia.
  replace (S (length l) - 1)%nat with (length l) by lia. reflexivity.
Qed.

Lemma split_loop_last (base name : string) (sep : ascii) (cur : string) :
  free_of sep name = true ->
  let parts := split_loop (base +:+ String sep name) sep cur in
  nth (length parts - 1) parts EmptyString = name.
Proof.
  intros Hname. revert cur. induction base as [|c base IH]; intros cur.
  - rewrite append_nil_l. cbn [split_loop]. rewrite Ascii.eqb_refl.
    cbv zeta. rewrite last_cons by apply split_loop_length.
    rewrite split_loop_whole by exact Hname. reflexivity.
  - rewrite append_cons. cbn [split_loop]. cbv zeta in *.
    destruct (Ascii.eqb c sep); [|apply IH].
    rewrite last_cons by apply split_loop_length. apply IH.
Qed.

Section Names.
Context `{SqsApi W}.

Lemma queueNameFromURL_free (u : string) : free_of "/" (queueNameFromURL u) = true.
Proof.
  unfold queueNameFromURL. destruct (String.eqb _ EmptyString); [reflexivity|].
  destruct (Nat.eqb _ 0); [reflexivity|].
  pose proof (split_loop_free (strings_TrimSpace u) "/" EmptyString eq_refl) as Hall.
  unfold strings_Split. rewrite Forall_forall in Hall.
  destruct (nth_in_or_default
              (length (split_loop (strings_TrimSpace u) "/" EmptyString) - 1)
              (split_loop (strings_TrimSpace u) "/" EmptyString) EmptyString) as [Hin| ->];
    [|reflexivity].
  apply Hall. by apply list_elem_of_In.
Qed.

Lemma queueNameFromURL_last (u base name : string) :
  strings_TrimSpace u = base +:+ "/" +:+ name ->
  free_of "/" name = true ->
  queueNameFromURL u = name.
Proof.
  intros Hu Hname. unfold queueNameFromURL. rewrite Hu.
  destruct (String.eqb_spec (base +:+ "/" +:+ name) EmptyString) as [He|_].
  { destruct base; discriminate He. }
  unfold strings_Split.
  pose proof (split_loop_length (base +:+ "/" +:+ name) "/" EmptyString) as Hlen.
  destruct (Nat.eqb_spec (length (split_loop (base +:+ "/" +:+ name) "/" EmptyString)) 0)
    as [Hz|_]; [lia|].
  apply (split_loop_last base name "/" EmptyString Hname).
Qed.

Lemma append_names_spec (urls names : list string) (x : string) :
  In x (append_names urls names)
  <-> In x names \/ (x <> EmptyString /\ exists u, In u urls /\ queueNameFromURL u = x).
Proof.
  revert names. induction urls as [|u urls IH]; intros names; cbn [append_names].
  - split; [auto|]. intros [Hx|(_ & u & [] & _)]. exact Hx.
  - destruct (String.eqb_spec (queueNameFromURL u) EmptyString) as [He|Hne];
      cbn [negb]; rewrite IH.
    + split.
      * intros [Hx|(Hx & u' & Hu' & Hq)]; [auto|].
        right. split; [exact Hx|]. exists u'. split; [by right|exact Hq].
      * intros [Hx|(Hx & u' & [<-|Hu'] & Hq)]; [auto|congruence|].
        right. split; [exact Hx|]. by exists u'.
    + rewrite in_app_iff. cbn [In]. split.
      * intros [[Hx|[<-|[]]]|(Hx & u' & Hu' & Hq)]; [auto| |].
        -- right. split; [exact Hne|]. exists u. split; [by left|reflexivity].
        -- right. split; [exact Hx|]. exists u'. split; [by right|exact Hq].
      * intros [Hx|(Hx & u' & [<-|Hu'] & Hq)]; [auto|auto|].
        right. split; [exact Hx|]. by exists u'.
Qed.

(** The names of a client listing are well formed. *)
Lemma ListQueues_pages_names (fuel : nat) (w w' : W) (prefix : string)
    (token : option string) (names result : list string) :
  ListQueues_pages fuel w prefix token names = (Some (Ok result), w') ->
  Forall (fun x => x <> EmptyString /\ free_of "/" x = true) names ->
  Forall (fun x => x <> EmptyString /\ free_of "/" x = true) result.
Proof.
  revert w token names. induction fuel as [|fuel IH]; intros w token names;
    cbn [ListQueues_pages]; [discriminate|].
  destruct (sdk_ListQueues w prefix token) as [[[urls out]|err] w1]; [|discriminate].
  intros Hrun Hnames.
  assert (Hall : Forall (fun x => x <> EmptyString /\ free_of "/" x = true)
                   (append_names urls names)).
  { rewrite Forall_forall in *. intros x Hx. apply list_elem_of_In in Hx.
    apply append_names_spec in Hx as [Hx|(Hx & u & _ & <-)].
    - apply Hnames. by apply list_elem_of_In.
    - split; [exact Hx|apply queueNameFromURL_free]. }
  destruct out as [tok|].
  - destruct (String.eqb tok EmptyString).
    + by injection Hrun as <- _.
    + exact (IH _ _ _ Hrun Hall).
  - by injection Hrun as <- _.
Qed.

Lemma Client_ListQueues_names (fuel : nat) (w w' : W) (prefix : string)
    (queues : list string) :
  Client_ListQueues fuel w prefix = (Some (Ok queues), w') ->
  Forall (fun x => x <> EmptyString /\ free_of "/" x = true) queues.
Proof.
  unfold Client_ListQueues.
  destruct (ListQueues_pages fuel w prefix None []) as [[[names|err]|] w1] eqn:Hrun;
    [|discriminate..].
  intros [= <- <-].
  pose proof (ListQueues_pages_names fuel w w1 prefix None [] names Hrun
                (Forall_nil_2 _)) as Hall.
  rewrite Forall_forall in *. intros x Hx. apply Hall.
  apply list_elem_of_In, (proj1 (SQSFacts.sort_Strings_In x names)).
  by apply list_elem_of_In.
Qed.

(** More pages allowed do not change a listing that ended. *)
Lemma ListQueues_pages_more (fuel extra : nat) (w w' : W) (prefix : string)
    (token : option string) (names : list string) (r : result (list string)) :
  ListQueues_pages fuel w prefix token names = (Some r, w') ->
  ListQueues_pages (fuel + extra) w prefix token names = (Some r, w').
Proof.
  revert w token names. induction fuel as [|fuel IH]; intros w token names;
    cbn [ListQueues_pages Nat.add]; [discriminate|].
  destruct (sdk_ListQueues w prefix token) as [[[urls out]|err] w1]; [|done].
  destruct out as [tok|]; [|done].
  destruct (String.eqb tok EmptyString); [done|]. apply IH.
Qed.
End Names.

Lemma sort_insert_ascending (x : string) (l : list string) :
  ascending l -> ascending (sort_insert x l).
Proof.
  induction l as [|y l IH]; [done|]. intros Hl. cbn [sort_insert].
  destruct (String.leb x y) eqn:Hxy.
  - cbn [ascending]. split; [exact Hxy|exact Hl].
  - assert (Hyx : String.leb y x = true).
    { destruct (String.leb_total x y) as [Hle|Hle]; [congruence|exact Hle]. }
    destruct l as [|z l].
    + cbn. auto.
    + cbn [ascending] in Hl. destruct Hl as [Hyz Hl].
      specialize (IH Hl). cbn [sort_insert] in *.
      destruct (String.leb x z); cbn [ascending]; auto.
Qed.

Lemma sort_Strings_ascending (l : list string) : ascending (sort_Strings l).
Proof.
  induction l as [|x l IH]; [done|]. cbn [sort_Strings]. by apply sort_insert_ascending.
Qed.
End NameFacts.

(** ** The SQS backend *)
Module QueueTheorems.
Import SQS SQSSend QueueOps QueueSpec SimSQS SimSend StringFacts QueueFacts NameFacts.

Section Backend.
Context `{SqsApi W} `{SqsSendApi W}.

(** X12: an invariant of the two caches of the backend, kept by every
    sequence of calls ([Enqueue], [Dequeue], [Peek], [Size], [Clear],
    [ListQueues], [RemoveQueue], [CreateQueue]) in any worlds: a cached
    queue name is not empty, has no '/', has a URL that is not empty, and
    is not marked as recently deleted.  The calls never change the
    client. *)
Theorem X12_cached_names_never_marked (b : SQSBackend) (calls : list (Op * W)) :
  caches_consistent b ->
  caches_consistent (after_ops b calls) /\ sqs (after_ops b calls) = sqs b.
Proof.
  revert b. induction calls as [|[op w] calls IH]; intros b Hb; [done|].
  unfold after_ops. cbn [fold_left fst snd].
  destruct (after_op_consistent b w op Hb) as [Hb1 Hs1].
  destruct (IH _ Hb1) as [Hb2 Hs2]. unfold after_ops in *.
  split; [exact Hb2|by rewrite Hs2].
Qed.


(** X14: on a backend whose caches are consistent, the names that
    [ListQueues] returns are in ascending order, none is empty, has a
    '/' or is marked as recently deleted; and every cached queue that
    fits the prefix is among them, whether or not the service lists it. *)
Theorem X14_listing_well_formed (fuel : nat) (b b' : SQSBackend) (w w' : W)
    (prefix : string) (names : list string) :
  caches_consistent b ->
  ListQueues fuel b w prefix = (Some (Ok names), b', w') ->
  ascending names
  /\ (forall x : string,
        In x names ->
        x <> EmptyString /\ strings_Contains x "/" = false /\ deleted b' !! x = None)
  /\ (forall x u : string,
        cache b !! x = Some u -> prefix_ok prefix x = true -> In x names).
Proof.
  intros Hb Hlist.
  assert (Hsorted : ascending names).
  { revert Hlist. unfold ListQueues. destruct (sqs b); [|discriminate].
    destruct (Client_ListQueues fuel w prefix) as [[[queues|err]|] w1]; [|discriminate..].
    destruct (filter_listed _ queues [] ∅) as [filtered seen].
    destruct (add_cached _ prefix _ filtered seen) as [filtered' seen'].
    intros [= <- _ _]. apply sort_Strings_ascending. }
  destruct (SQSFacts.ListQueues_spec fuel b b' w w' prefix names Hlist)
    as (queues & Hclient & Hcache & Hdel & Hin).
  split; [exact Hsorted|]. split.
  - intros x Hx. apply Hin in Hx as [Hd [Hq|[[u Hu] _]]].
    + pose proof (Client_ListQueues_names fuel w w' prefix queues Hclient) as Hall.
      rewrite Forall_forall in Hall. destruct (Hall x) as [Hne Hfree].
      { by apply list_elem_of_In. }
      by rewrite Contains_free_of, Hfree.
    + destruct (Hb x u Hu) as (_ & Hne & Hslash & _). done.
  - intros x u Hu Hp. apply Hin. split; [|right; split; [by exists u|exact Hp]].
    destruct (Hb x u Hu) as (_ & _ & _ & Hd).
    rewrite Hdel, SQSFacts.purge_expired_lookup, Hd. reflexivity.
Qed.

Lemma append_names_filter (urls names : list string) :
  append_names urls names = (names ++ names_of_urls urls)%list.
Proof.
  revert names. induction urls as [|u urls IH]; intros names;
    cbn [append_names names_of_urls map List.filter].
  - by rewrite app_nil_r.
  - cbv zeta. destruct (negb (String.eqb (queueNameFromURL u) EmptyString)).
    + rewrite IH, <- app_assoc. reflexivity.
    + apply IH.
Qed.

Lemma names_of_urls_app (urls rest : list string) :
  names_of_urls (urls ++ rest) = (names_of_urls urls ++ names_of_urls rest)%list.
Proof. unfold names_of_urls. by rewrite map_app, List.filter_app. Qed.

Lemma ListQueues_pages_run (prefix : string) (w : W) (token : option string)
    (urls : list string) (w' : W) :
  pages prefix w token urls w' ->
  exists fuel, forall names,
    ListQueues_pages fuel w prefix token names
    = (Some (Ok (names ++ names_of_urls urls)%list), w').
Proof.
  induction 1 as [w token urls out w' Hcall Hout
                 |w token urls tok w1 rest w' Hcall Htok _ [fuel IH]].
  - exists 1%nat. intros names. cbn [ListQueues_pages]. rewrite Hcall.
    rewrite append_names_filter. by destruct Hout as [->| ->].
  - exists (S fuel). intros names. cbn [ListQueues_pages]. rewrite Hcall.
    apply String.eqb_neq in Htok. rewrite Htok, IH, append_names_filter.
    by rewrite names_of_urls_app, app_assoc.
Qed.

Lemma ListQueues_pages_fail (prefix : string) (w : W) (token : option string)
    (err : error) (w' : W) :
  pages_fail prefix w token err w' ->
  exists fuel, forall names,
    ListQueues_pages fuel w prefix token names = (Some (Error err), w').
Proof.
  induction 1 as [w token err w' Hcall
                 |w token urls tok w1 err w' Hcall Htok _ [fuel IH]].
  - exists 1%nat. intros names. cbn [ListQueues_pages]. by rewrite Hcall.
  - exists (S fuel). intros names. cbn [ListQueues_pages]. rewrite Hcall.
    apply String.eqb_neq in Htok. by rewrite Htok, IH.
Qed.

Lemma Client_ListQueues_more (fuel fuel' : nat) (w w' : W) (prefix : string)
    (r : result (list string)) :
  (fuel <= fuel')%nat ->
  Client_ListQueues fuel w prefix = (Some r, w') ->
  Client_ListQueues fuel' w prefix = (Some r, w').
Proof.
  intros Hle. replace fuel' with (fuel + (fuel' - fuel))%nat by lia.
  unfold Client_ListQueues.
  destruct (ListQueues_pages fuel w prefix None []) as [[r1|] w1] eqn:Hrun.
  - by rewrite (ListQueues_pages_more fuel _ w w1 prefix None [] r1 Hrun).
  - discriminate.
Qed.

(** X15: [SQSClient.ListQueues] follows the tokens of the service.  When
    the list calls that start without a token, each with the token of the
    answer before, reach an answer without a token (nil or empty), the
    listing ends, in the world after that answer, with the sorted names
    of the URLs of all these pages, the empty names left out; when they
    reach a call that the service refuses, it ends with that error and
    no names.  Both hold for every bound on the number of pages from
    some bound on. *)
Theorem X15_listing_follows_tokens (prefix : string) (w w' : W) :
  (forall urls, pages prefix w None urls w' ->
     exists fuel, forall fuel', (fuel <= fuel')%nat ->
       Client_ListQueues fuel' w prefix
       = (Some (Ok (sort_Strings (names_of_urls urls))), w'))
  /\ (forall err, pages_fail prefix w None err w' ->
     exists fuel, forall fuel', (fuel <= fuel')%nat ->
       Client_ListQueues fuel' w prefix = (Some (Error err), w')).
Proof.
  split.
  - intros urls Hpages. destruct (ListQueues_pages_run _ _ _ _ _ Hpages) as [fuel Hrun].
    exists fuel. intros fuel' Hle. apply (Client_ListQueues_more fuel); [exact Hle|].
    unfold Client_ListQueues. by rewrite Hrun.
  - intros err Hfail. destruct (ListQueues_pages_fail _ _ _ _ _ Hfail) as [fuel Hrun].
    exists fuel. intros fuel' Hle. apply (Client_ListQueues_more fuel); [exact Hle|].
    unfold Client_ListQueues. by rewrite Hrun.
Qed.

(** X16: what [SendMessage] sends is what [fromSQSMessage] reads: for a
    message whose timestamp is not zero and is read back by [time.Parse]
    from its RFC3339Nano text, the message that the service delivers
    with the body and the message attributes of the request converts to
    the very message sent, whatever the service's id, receipt handle and
    system attributes. *)
Theorem X16_send_receive_round_trip (w : W) (u : string) (msg : QueueMessage)
    (id handle : option string) (attrs : gmap string string) :
  time_Parse_RFC3339Nano (time_Format_RFC3339Nano (Timestamp msg)) = Ok (Timestamp msg) ->
  IsZero (Timestamp msg) = false ->
  fromSQSMessage w (delivered (SendMessage_input u msg) id handle attrs) = Ok msg.
Proof.
  intros Hparse Hzero. unfold fromSQSMessage, delivered, SendMessage_input.
  cbn [Body MessageAttributes Attributes MessageId SendMessageAttributes MessageBody].
  unfold sqsAttrMessageID, sqsAttrMessageTS.
  rewrite (lookup_insert_ne _ "Type" "ID") by done.
  rewrite lookup_insert_eq.
  rewrite (lookup_insert_ne _ "Type" "Timestamp") by done.
  rewrite (lookup_insert_ne _ "ID" "Timestamp") by done.
  rewrite lookup_insert_eq. cbn [string_attribute StringValue].
  rewrite Hparse, Hzero. cbn. rewrite Hzero. by destruct msg.
Qed.

(** X19: [Enqueue] looks up the queue, creating it if it is missing,
    before the body of the message is checked: with an empty body it
    fails with "message body cannot be empty", and the backend and the
    world are those that the lookup left. *)
Theorem X19_enqueue_checks_body_late (b b1 : SQSBackend) (w w1 : W) (q u : string)
    (msg : QueueMessage) :
  is_Some (sqs b) ->
  Data msg = EmptyString ->
  getQueueURL b w q true = (Ok u, b1, w1) ->
  Enqueue b w q msg = (Some (Errorf "message body cannot be empty"), b1, w1).
Proof.
  intros [c Hc] Hdata Hget. unfold Enqueue. rewrite Hc, Hget.
  apply getQueueURL_ok in Hget as (Hu & _). apply String.eqb_neq in Hu.
  match goal with |- context [Client_SendMessage w1 u ?m] =>
    assert (Hm : Data m = EmptyString);
      [|unfold Client_SendMessage; rewrite Hu, Hm; reflexivity] end.
  destruct (String.eqb (ID msg) EmptyString); cbn [Timestamp];
    destruct (IsZero (Timestamp msg)); exact Hdata.
Qed.
End Backend.
End QueueTheorems.

(** ** Receiving and deleting *)
Module ReceiveFacts.
Import SQS SQSSend QueueOps QueueSpec SimSQS SimSend StringFacts QueueFacts NameFacts.

Lemma to_string_inj (i j : Z) : to_string i = to_string j -> i = j.
Proof.
  intros Heq.
  rewrite <- (AtoiFacts.atoi_value_to_string i EmptyString eq_refl),
          <- (AtoiFacts.atoi_value_to_string j EmptyString eq_refl), Heq.
  reflexivity.
Qed.

Lemma append_inj_r (p a b : string) : p +:+ a = p +:+ b -> a = b.
Proof.
  induction p as [|c p IH]; [done|]. rewrite !append_cons. intros [= Heq]. by apply IH.
Qed.

(** The loop numbers its entries by the index of the message, so the
    ids made so far are below the index that comes next. *)
Lemma delete_entries_inv (ms : list Message) (i : Z)
    (entries : list DeleteMessageBatchRequestEntry) :
  NoDup (map Id entries) ->
  Forall (fun e => (exists j, j < i /\ Id e = "d-" +:+ to_string j)
                   /\ exists h, EntryReceiptHandle e = Some h /\ h <> EmptyString)
    entries ->
  let out := delete_entries ms i entries in
  NoDup (map Id out)
  /\ Forall (fun e => (exists j, j < i + Z.of_nat (length ms)
                                 /\ Id e = "d-" +:+ to_string j)
                      /\ exists h, EntryReceiptHandle e = Some h /\ h <> EmptyString) out
  /\ (length out <= length entries + length ms)%nat.
Proof.
  cbv zeta. revert i entries. induction ms as [|m ms IH]; intros i entries Hnd Hall;
    cbn [delete_entries length].
  - split; [exact Hnd|]. split; [|lia].
    eapply Forall_impl; [exact Hall|]. intros e [(j & Hj & He) Hh].
    split; [exists j; split; [lia|exact He]|exact Hh].
  - assert (Hskip :
      NoDup (map Id (delete_entries ms (i + 1) entries))
      /\ Forall (fun e => (exists j, j < i + Z.of_nat (S (length ms))
                                     /\ Id e = "d-" +:+ to_string j)
                          /\ exists h, EntryReceiptHandle e = Some h /\ h <> EmptyString)
           (delete_entries ms (i + 1) entries)
      /\ (length (delete_entries ms (i + 1) entries) <= length entries + S (length ms))%nat).
    { destruct (IH (i + 1) entries Hnd) as (H1 & H2 & H3).
      { eapply Forall_impl; [exact Hall|]. intros e [(j & Hj & He) Hh].
        split; [exists j; split; [lia|exact He]|exact Hh]. }
      split; [exact H1|]. split; [|lia].
        eapply Forall_impl; [exact H2|]. intros e [(j & Hj & He) Hh].
        split; [exists j; split; [lia|exact He]|exact Hh]. }
    destruct (ReceiptHandle m) as [h|] eqn:Hh; [|exact Hskip].
    destruct (String.eqb_spec h EmptyString) as [->|Hne]; [exact Hskip|].
    destruct (IH (i + 1)
                (entries ++ [{| Id := "d-" +:+ to_string i;
                                EntryReceiptHandle := Some h |}]))
      as (H1 & H2 & H3).
    + rewrite map_app. apply NoDup_app. split; [exact Hnd|]. split.
      * intros x Hx Hx'. cbn in Hx'. apply list_elem_of_singleton in Hx'. subst x.
        apply list_elem_of_fmap in Hx as (e & He & Hin).
        rewrite Forall_forall in Hall. destruct (Hall e Hin) as [(j & Hj & Hid) _].
        rewrite Hid in He. apply append_inj_r, to_string_inj in He. lia.
      * cbn. apply NoDup_singleton.
    + apply Forall_app. split.
      * eapply Forall_impl; [exact Hall|]. intros e [(j & Hj & He) Hh'].
        split; [exists j; split; [lia|exact He]|exact Hh'].
      * constructor; [|constructor]. cbn [Id EntryReceiptHandle].
        split; [exists i; split; [lia|reflexivity]|by exists h].
    + rewrite length_app in H3. cbn [length] in H3. split; [exact H1|].
      split; [|lia].
      eapply Forall_impl; [exact H2|]. intros e [(j & Hj & He) Hh'].
      split; [exists j; split; [lia|exact He]|exact Hh'].
Qed.

Section Theorems.
Context `{SqsApi W}.

(** X17: the entries of the batch delete that [ReceiveMessages] makes
    have pairwise different ids, each has a receipt handle that is not
    empty, and there are at most as many entries as received messages. *)
Theorem X17_delete_entries_distinct (ms : list Message) :
  let entries := delete_entries ms 0 [] in
  NoDup (map Id entries)
  /\ Forall (fun e => exists h, EntryReceiptHandle e = Some h /\ h <> EmptyString) entries
  /\ (length entries <= length ms)%nat.
Proof.
  destruct (delete_entries_inv ms 0 [] (NoDup_nil_2 : NoDup (map Id []))
              (Forall_nil_2 _)) as (H1 & H2 & H3).
  split; [exact H1|]. split; [|exact H3].
  eapply Forall_impl; [exact H2|]. by intros e [_ Hh].
Qed.

(** X18: [queueNameFromURL] returns the last path segment of the
    trimmed URL: the result never has a '/', and for a URL that ends in
    '/' and a name without '/' it is that name. *)
Theorem X18_queue_name_is_last_segment :
  (forall u : string, strings_Contains (queueNameFromURL u) "/" = false)
  /\ (forall u base name : string,
        strings_TrimSpace u = base +:+ "/" +:+ name ->
        strings_Contains name "/" = false ->
        queueNameFromURL u = name).
Proof.
  split.
  - intros u. by rewrite Contains_free_of, queueNameFromURL_free.
  - intros u base name Hu Hname. apply (queueNameFromURL_last u base name Hu).
    rewrite Contains_free_of in Hname. by destruct (free_of "/" name).
Qed.
End Theorems.

(** X20: what the reading calls never do.  [Peek] makes no batch delete
    call, and [Dequeue], [Peek], [Size], [Clear], [QueueExists],
    [ListQueues] and [RemoveQueue] make no create call: with any other
    behaviour of these calls of the service, result, backend and world
    are the same. *)
Theorem X20_reads_make_no_create_or_delete_call {W : Type} (api : SqsApi W)
    (create : W -> string -> option error * W)
    (del : W -> string -> list DeleteMessageBatchRequestEntry -> result nat * W)
    (fuel : nat) (b : SQSBackend) (w : W) (q : string) :
  @Peek W (with_DeleteMessageBatch api del) b w q = @Peek W api b w q
  /\ @Peek W (with_CreateQueue api create) b w q = @Peek W api b w q
  /\ @Dequeue W (with_CreateQueue api create) b w q = @Dequeue W api b w q
  /\ @Size W (with_CreateQueue api create) b w q = @Size W api b w q
  /\ @Size W (with_DeleteMessageBatch api del) b w q = @Size W api b w q
  /\ @Clear W (with_CreateQueue api create) b w q = @Clear W api b w q
  /\ @Clear W (with_DeleteMessageBatch api del) b w q = @Clear W api b w q
  /\ @QueueExists W (with_CreateQueue api create) b w q = @QueueExists W api b w q
  /\ @ListQueues W (with_CreateQueue api create) fuel b w q = @ListQueues W api fuel b w q
  /\ @RemoveQueue W (with_CreateQueue api create) fuel b w q
     = @RemoveQueue W api fuel b w q.
Proof. repeat split. Qed.
End ReceiveFacts.

(** ** The SQS client *)
Module ClientFacts.
Import SQS SQSSend QueueOps QueueSpec SimSQS SimSend StringFacts QueueFacts NameFacts.

Section Client.
Context `{SqsApi W}.


(** X21: [EnsureQueueURL] takes a create call that reports an existing
    name for a success: when the queue is missing at the first lookup
    and another client creates it before the create call, the URL of the
    second lookup is returned. *)
Theorem X21_ensure_tolerates_race (w w1 w2 w3 : W) (q u : string) (err1 err2 : error) :
  q <> EmptyString ->
  u <> EmptyString ->
  sdk_GetQueueUrl w q = (Error err1, w1) ->
  isQueueDoesNotExistError err1 = true ->
  sdk_CreateQueue w1 q = (Some err2, w2) ->
  isQueueNameExists err2 = true ->
  sdk_GetQueueUrl w2 q = (Ok (Some u), w3) ->
  Client_EnsureQueueURL w q = (Ok u, w3).
Proof.
  intros Hq Hu Hget1 Hmissing Hcreate Hexists Hget2.
  apply String.eqb_neq in Hq, Hu.
  unfold Client_EnsureQueueURL, Client_GetQueueURL, Client_CreateQueue.
  rewrite Hq, Hget1, Hmissing. cbn [negb]. rewrite Hcreate, Hexists, Hget2, Hu.
  reflexivity.
Qed.

End Client.

Lemma X21_ensure_tolerates_race_witness :
  @Client_EnsureQueueURL World racing_api world0 "mail"
  = (Ok (url_of "mail"), mkWorld ["jobs"; "mail"] (1000 * time_Second)).
Proof.
  apply (@X21_ensure_tolerates_race World racing_api world0 world0
           (mkWorld ["jobs"; "mail"] (1000 * time_Second))
           (mkWorld ["jobs"; "mail"] (1000 * time_Second))
           "mail" (url_of "mail") QueueDoesNotExist QueueNameExists);
    try reflexivity; discriminate.
Defined.

End ClientFacts.

(** ** Examples on the simulated service *)
Module QueueWitnesses.
Import SQS SQSSend QueueOps QueueSpec SimSQS SimSend StringFacts QueueFacts NameFacts.
Import QueueTheorems ReceiveFacts.

Lemma X12_cached_names_never_marked_witness :
  caches_consistent ready
  /\ caches_consistent
       (after_ops ready [(OpCreateQueue "jobs", world0); (OpRemoveQueue 1 "jobs", world0);
                         (OpEnqueue "mail" job, world0)])
  /\ sqs (after_ops ready [(OpCreateQueue "jobs", world0); (OpRemoveQueue 1 "jobs", world0);
                           (OpEnqueue "mail" job, world0)]) = sqs ready.
Proof.
  assert (Hready : caches_consistent ready).
  { intros q u Hq. vm_compute in Hq. discriminate Hq. }
  split; [exact Hready|].
  exact (X12_cached_names_never_marked ready _ Hready).
Defined.


Lemma X14_listing_well_formed_witness :
  ListQueues 1 (with_maps ready {["jobs" := url_of "jobs"]} ∅)
    (mkWorld ["mail"; "audit"] 0) EmptyString
  = (Some (Ok ["audit"; "jobs"; "mail"]), with_maps ready {["jobs" := url_of "jobs"]} ∅,
     mkWorld ["mail"; "audit"] 0)
  /\ ascending ["audit"; "jobs"; "mail"]
  /\ In "jobs" ["audit"; "jobs"; "mail"].
Proof.
  assert (Hb : caches_consistent (with_maps ready {["jobs" := url_of "jobs"]} ∅)).
  { intros q u Hq. cbn [cache with_maps] in Hq.
    apply lookup_singleton_Some in Hq as [<- <-]. by vm_compute. }
  assert (Hrun : ListQueues 1 (with_maps ready {["jobs" := url_of "jobs"]} ∅)
                   (mkWorld ["mail"; "audit"] 0) EmptyString
                 = (Some (Ok ["audit"; "jobs"; "mail"]),
                    with_maps ready {["jobs" := url_of "jobs"]} ∅,
                    mkWorld ["mail"; "audit"] 0))
    by (vm_compute; reflexivity).
  destruct (X14_listing_well_formed 1 _ _ _ _ _ _ Hb Hrun) as (Hasc & _ & Hcached).
  split; [exact Hrun|]. split; [exact Hasc|].
  apply (Hcached "jobs" (url_of "jobs")); reflexivity.
Defined.

Lemma X15_listing_follows_tokens_witness :
  @pages World paging_api EmptyString world0 None [url_of "b"; url_of "a"] world0
  /\ @Client_ListQueues World paging_api 2 world0 EmptyString = (Some (Ok ["a"; "b"]), world0)
  /\ exists fuel, forall fuel', (fuel <= fuel')%nat ->
       @Client_ListQueues World paging_api fuel' world0 EmptyString
       = (Some (Ok ["a"; "b"]), world0).
Proof.
  assert (Hpages : @pages World paging_api EmptyString world0 None
                     [url_of "b"; url_of "a"] world0).
  { apply (@pages_next World paging_api EmptyString world0 None [url_of "b"] "t1" world0
             [url_of "a"] world0); [reflexivity|discriminate|].
    apply (@pages_last World paging_api EmptyString world0 (Some "t1") [url_of "a"] None world0);
      [reflexivity|by left]. }
  split; [exact Hpages|]. split; [vm_compute; reflexivity|].
  exact (proj1 (@X15_listing_follows_tokens World paging_api EmptyString world0 world0)
           [url_of "b"; url_of "a"] Hpages).
Defined.

Lemma X16_send_receive_round_trip_witness :
  @fromSQSMessage World stamp_api world0
    (delivered (@SendMessage_input World sim_send (url_of "jobs") job)
       (Some "m-1") (Some "r-1") ∅)
  = Ok job.
Proof.
  apply (@X16_send_receive_round_trip World stamp_api sim_send).
  - vm_compute. reflexivity.
  - reflexivity.
Defined.

Lemma X18_queue_name_is_last_segment_witness :
  queueNameFromURL (url_of "jobs") = "jobs".
Proof.
  apply (proj2 X18_queue_name_is_last_segment (url_of "jobs") "https://sqs.test" "jobs");
    reflexivity.
Defined.

Lemma X19_enqueue_checks_body_late_witness :
  has_queue world0 "mail" = false
  /\ Enqueue ready world0 "mail" {| ID := "m"; Data := EmptyString; Timestamp := 0 |}
     = (Some (Errorf "message body cannot be empty"),
        with_maps ready {["mail" := url_of "mail"]} ∅,
        mkWorld ["jobs"; "mail"] (1000 * time_Second)).
Proof.
  split; [reflexivity|].
  apply (X19_enqueue_checks_body_late ready _ world0 _ "mail" (url_of "mail")).
  - by eexists.
  - reflexivity.
  - vm_compute. reflexivity.
Defined.
End QueueWitnesses.
